(** * Raw content API of js-geo-web: path mutation over a content-addressed tree

    Shallow embedding of [packages/content/src/raw/index.ts] (class [API]):
    [resolveRoot], [get], [putPath] (with its inner [putInnerPath]) and
    [deletePath], together with the collaborators they call (block store,
    pointer service, schema transform, gateway, archive upload). *)

From Stdlib Require Import String Ascii List ZArith Bool Arith Lia.
From Stdlib Require Import DecimalString DecimalNat.
Import ListNotations.
Local Open Scope string_scope.
Set Warnings "-register-all".

(* ===================================================================== *)
(** ** JavaScript strings: [split], [join], [replace], [toLowerCase]     *)
(* ===================================================================== *)

Module JsString.

(** [s.split(sep)] for a one-character separator.  The result is never
    empty: ["".split("/")] is [[""]]. *)
Fixpoint split (sep : ascii) (s : string) : list string :=
  match s with
  | EmptyString => [EmptyString]
  | String c r =>
      if Ascii.eqb c sep then EmptyString :: split sep r
      else match split sep r with
           | h :: t => String c h :: t
           | [] => [String c EmptyString]
           end
  end.

(** [l.join(sep)]. *)
Fixpoint join (sep : string) (l : list string) : string :=
  match l with
  | [] => EmptyString
  | [x] => x
  | x :: r => x ++ sep ++ join sep r
  end.

(** Removes the first [n] characters. *)
Fixpoint drop (n : nat) (s : string) : string :=
  match n, s with
  | O, _ => s
  | S _, EmptyString => EmptyString
  | S n', String _ r => drop n' r
  end.

(** [s.startsWith(p)]. *)
Fixpoint prefix (p s : string) : bool :=
  match p, s with
  | EmptyString, _ => true
  | String _ _, EmptyString => false
  | String a p', String b s' => Ascii.eqb a b && prefix p' s'
  end.

(** [s.replace(pat, rep)] with a string pattern: only the FIRST occurrence of
    [pat] is replaced ([rep] holds no [$] pattern in this program: it is
    always [""]). *)
Fixpoint replace (pat rep s : string) : string :=
  if prefix pat s then rep ++ drop (String.length pat) s
  else match s with
       | EmptyString => EmptyString
       | String c r => String c (replace pat rep r)
       end.

Definition lower_ascii (c : ascii) : ascii :=
  let n := nat_of_ascii c in
  if (65 <=? n)%nat && (n <=? 90)%nat then ascii_of_nat (n + 32) else c.

(** [s.toLowerCase()] on the ASCII letters (owner identities are ASCII). *)
Fixpoint toLowerCase (s : string) : string :=
  match s with
  | EmptyString => EmptyString
  | String c r => String (lower_ascii c) (toLowerCase r)
  end.

(** Number of occurrences of a character. *)
Fixpoint count (c : ascii) (s : string) : nat :=
  match s with
  | EmptyString => 0
  | String a r => (if Ascii.eqb a c then 1 else 0) + count c r
  end.

End JsString.

Definition slash : ascii := "/"%char.

(* ===================================================================== *)
(** ** IPLD values as JavaScript sees them                               *)
(* ===================================================================== *)

(** A CID is the address the block store gave a node. *)
Definition cid := nat.

(** The values [putPath] edits: [data: any] and the decoded nodes.  [VUndef]
    is JavaScript's [undefined] and also stands for a hole of a sparse array.
    Numbers are the integers (no floating point, no [NaN]).  An object keeps
    its fields in insertion order. *)
Inductive value : Type :=
| VUndef
| VNull
| VBool (b : bool)
| VNum (n : Z)
| VStr (s : string)
| VLink (c : cid)
| VArr (elems : list value)
| VObj (fields : list (string * value)).

(** Induction principle that reaches the elements of arrays and objects. *)
Section ValueInd.
Variable P : value -> Prop.
Hypothesis Hundef : P VUndef.
Hypothesis Hnull : P VNull.
Hypothesis Hbool : forall b, P (VBool b).
Hypothesis Hnum : forall n, P (VNum n).
Hypothesis Hstr : forall s, P (VStr s).
Hypothesis Hlink : forall c, P (VLink c).
Hypothesis Harr : forall l, Forall P l -> P (VArr l).
Hypothesis Hobj : forall l, Forall (fun kv => P (snd kv)) l -> P (VObj l).

Fixpoint value_ind' (v : value) : P v :=
  match v with
  | VUndef => Hundef
  | VNull => Hnull
  | VBool b => Hbool b
  | VNum n => Hnum n
  | VStr s => Hstr s
  | VLink c => Hlink c
  | VArr l =>
      Harr l ((fix go (l : list value) : Forall P l :=
                 match l with
                 | [] => Forall_nil _
                 | x :: r => Forall_cons x (value_ind' x) (go r)
                 end) l)
  | VObj l =>
      Hobj l ((fix go (l : list (string * value))
                 : Forall (fun kv => P (snd kv)) l :=
                 match l with
                 | [] => Forall_nil _
                 | kv :: r => Forall_cons kv (value_ind' (snd kv)) (go r)
                 end) l)
  end.
End ValueInd.

(** Structural equality of values, the equality of their encodings. *)
Fixpoint value_eqb (a b : value) : bool :=
  match a, b with
  | VUndef, VUndef => true
  | VNull, VNull => true
  | VBool x, VBool y => Bool.eqb x y
  | VNum x, VNum y => Z.eqb x y
  | VStr x, VStr y => String.eqb x y
  | VLink x, VLink y => Nat.eqb x y
  | VArr l, VArr m =>
      (fix go (l m : list value) : bool :=
         match l, m with
         | [], [] => true
         | x :: l', y :: m' => value_eqb x y && go l' m'
         | _, _ => false
         end) l m
  | VObj l, VObj m =>
      (fix go (l m : list (string * value)) : bool :=
         match l, m with
         | [], [] => true
         | (k, x) :: l', (k', y) :: m' =>
             String.eqb k k' && value_eqb x y && go l' m'
         | _, _ => false
         end) l m
  | _, _ => false
  end.

(** JavaScript truthiness ([if (v)], [(v) => v] as a filter predicate). *)
Definition truthy (v : value) : bool :=
  match v with
  | VUndef | VNull => false
  | VBool b => b
  | VNum n => negb (n =? 0)%Z
  | VStr s => negb (s =? "")
  | VLink _ | VArr _ | VObj _ => true
  end.

(** [v == null]: [null] or [undefined]. *)
Definition is_nullish (v : value) : bool :=
  match v with
  | VUndef | VNull => true
  | _ => false
  end.

(** The values dag-cbor encodes: [undefined] occurs nowhere in them. *)
Fixpoint encodable (v : value) : bool :=
  match v with
  | VUndef => false
  | VArr l => forallb encodable l
  | VObj l => forallb (fun kv => encodable (snd kv)) l
  | _ => true
  end.

(* ===================================================================== *)
(** ** Results, errors                                                   *)
(* ===================================================================== *)

(** What a call can throw.  [TypeError] and [JsError] carry the message of the
    source's [new TypeError(..)] / [new Error(..)]; [PropertyTypeError] is the
    TypeError the JavaScript runtime raises on a property access the strict
    mode forbids; [ErrCode] is an error of the IPFS client, by its code. *)
Inductive error : Type :=
| TypeError (msg : string)
| JsError (msg : string)
| PropertyTypeError
| ErrCode (code : string)
| UploadError.

(** Outcome of a call: a value, a thrown error, or the recursion budget of the
    model ran out before the call returned. *)
Inductive outcome (A : Type) : Type :=
| Ok (a : A)
| Throw (e : error)
| OutOfFuel.
Arguments Ok {A} a.
Arguments Throw {A} e.
Arguments OutOfFuel {A}.

Definition leafSchemaMismatch : error :=
  TypeError "Invalid data form, does not match leafSchema".
Definition parentSchemaMismatch : error :=
  TypeError "Invalid data form, does not match parentSchema".
Definition web3StorageNotConfigured : error :=
  JsError "Web3Storage not configured".

(* ===================================================================== *)
(** ** Property access on a node: [node[k]], [node[k] = v], [delete node[k]] *)
(* ===================================================================== *)

Module Prop_.

(** A canonical numeric string: decimal digits without a leading zero. *)
Definition array_index (k : string) : option nat :=
  match NilEmpty.uint_of_string k with
  | Some d =>
      let n := Nat.of_uint d in
      if NilEmpty.string_of_uint (Nat.to_uint n) =? k then Some n else None
  | None => None
  end.

(** The index a key names in an array: a canonical numeric string below
    [2^32 - 1].  From [4294967295] on, a numeric key names an ordinary
    property of the array object, not an element. *)
Definition element_index (k : string) : option nat :=
  match array_index k with
  | Some i => if (N.of_nat i <? 4294967295)%N then Some i else None
  | None => None
  end.

(** A key that assignment to a map turns into a field when the map has no
    such field: every key but [__proto__], which the map inherits as a
    setter, so that [node["__proto__"] = v] stores nothing. *)
Definition plain_key (k : string) : bool := negb (k =? "__proto__").

Fixpoint assoc_get (k : string) (l : list (string * value)) : option value :=
  match l with
  | [] => None
  | (k', v) :: r => if k' =? k then Some v else assoc_get k r
  end.

(** Assignment to an object field: in place when the object has the
    field, appended otherwise; but for the key [__proto__], which an object
    without such a field inherits as a setter: the assignment then changes
    the prototype and leaves the fields as they are. *)
Fixpoint assoc_set (k : string) (v : value) (l : list (string * value))
  : list (string * value) :=
  match l with
  | [] => if plain_key k then [(k, v)] else []
  | (k', w) :: r => if k' =? k then (k', v) :: r else (k', w) :: assoc_set k v r
  end.

Fixpoint assoc_del (k : string) (l : list (string * value))
  : list (string * value) :=
  match l with
  | [] => []
  | (k', w) :: r => if k' =? k then r else (k', w) :: assoc_del k r
  end.

(** [arr[i] = v]: an index past the end extends the array with holes. *)
Fixpoint array_set (i : nat) (v : value) (l : list value) : list value :=
  match i, l with
  | O, [] => [v]
  | O, _ :: r => v :: r
  | S i', [] => VUndef :: array_set i' v []
  | S i', x :: r => x :: array_set i' v r
  end.

(** [delete arr[i]]: leaves a hole, the length is unchanged. *)
Fixpoint array_del (i : nat) (l : list value) : list value :=
  match i, l with
  | _, [] => []
  | O, _ :: r => VUndef :: r
  | S i', x :: r => x :: array_del i' r
  end.

(** [node[k]] for the fields of a map and the elements of a list.  Reading
    a property of [null] or [undefined] throws.  A key that is no field or
    element reads as [undefined] here; this is what the code sees unless
    the key is the name of a member the value inherits or carries besides
    ([constructor], [__proto__], [length], the methods of a list, a string
    or a CID), which [value] cannot express. *)
Definition get (node : value) (k : string) : outcome value :=
  match node with
  | VUndef | VNull => Throw PropertyTypeError
  | VObj fs => Ok (match assoc_get k fs with Some v => v | None => VUndef end)
  | VArr l =>
      Ok (match element_index k with
          | Some i => nth i l VUndef
          | None => VUndef
          end)
  | VBool _ | VNum _ | VStr _ | VLink _ => Ok VUndef
  end.

(** [node[k] = v] in strict mode (a class body is strict): it throws on
    [null], [undefined] and on a primitive.  On a map see [assoc_set].  On a
    list an index sets the element; another key names a property the codec
    and [filter] never see, and the elements stay (but for the key
    [length], whose assignment resizes the list or throws after a
    conversion of [v] to a number: it is not modelled).  A CID is an
    object: the assignment goes through and the link is what it was (its
    read-only members, whose assignment throws, are not modelled). *)
Definition set (node : value) (k : string) (v : value) : outcome value :=
  match node with
  | VUndef | VNull => Throw PropertyTypeError
  | VBool _ | VNum _ | VStr _ => Throw PropertyTypeError
  | VLink c => Ok (VLink c)
  | VObj fs => Ok (VObj (assoc_set k v fs))
  | VArr l =>
      Ok (match element_index k with
          | Some i => VArr (array_set i v l)
          | None => VArr l
          end)
  end.

(** [delete node[k]] in strict mode: throws on [null] and [undefined], and
    on what cannot be deleted: the [length] of a list, the [length] and the
    characters of a string.  It does nothing on another key of a string, on
    a boolean and on a number.  A CID is an object whose members stay (the
    read-only ones, whose deletion throws, are not modelled). *)
Definition delete (node : value) (k : string) : outcome value :=
  match node with
  | VUndef | VNull => Throw PropertyTypeError
  | VObj fs => Ok (VObj (assoc_del k fs))
  | VArr l =>
      if k =? "length" then Throw PropertyTypeError
      else
        Ok (match element_index k with
            | Some i => VArr (array_del i l)
            | None => VArr l
            end)
  | VStr s =>
      if (k =? "length")
         || match array_index k with
            | Some i => (i <? String.length s)%nat
            | None => false
            end
      then Throw PropertyTypeError
      else Ok node
  | VBool _ | VNum _ | VLink _ => Ok node
  end.

End Prop_.

(* ===================================================================== *)
(** ** The node editor: [putInnerPath] (raw/index.ts, lines 195-228)      *)
(* ===================================================================== *)

(** [pathSegments[i]]: [undefined] past the end never arises below, the
    lengths are tested first. *)
Definition seg (i : nat) (pathSegments : list string) : string :=
  nth i pathSegments "".

(** [if (data == null) delete node[k] else node[k] = data; return node]. *)
Definition assign_or_delete (node : value) (k : string) (data : value)
  : outcome value :=
  if is_nullish data then Prop_.delete node k else Prop_.set node k data.

(** [putInnerPath(node, path, data)].  The source recurses on
    [pathSegments.slice(2).join("/")], a string at least two characters
    shorter: [fuel] counts the nested calls still allowed, and
    [String.length path] of them always suffice. *)
Fixpoint putInnerPath (fuel : nat) (node : value) (path : string) (data : value)
  : outcome value :=
  let pathSegments := JsString.split slash path in
  (* Base case, no path or root *)
  if (length pathSegments =? 2)%nat && (seg 1 pathSegments =? "") then Ok node
  (* Base case, one path left *)
  else if (length pathSegments =? 1)%nat then
    assign_or_delete node (seg 0 pathSegments) data
  (* Base case, one path left with / *)
  else if (length pathSegments =? 2)%nat then
    assign_or_delete node (seg 1 pathSegments) data
  else
    (* Put on nested object *)
    match fuel with
    | O => OutOfFuel
    | S fuel' =>
        match Prop_.get node (seg 1 pathSegments) with
        | Ok child =>
            match putInnerPath fuel' child
                    (JsString.join "/" (skipn 2 pathSegments)) data with
            | Ok child' => Prop_.set node (seg 1 pathSegments) child'
            | Throw e => Throw e
            | OutOfFuel => OutOfFuel
            end
        | Throw e => Throw e
        | OutOfFuel => OutOfFuel
        end
    end.

(** [newValue.filter((v) => v)]: drops holes and every falsy element. *)
Definition compact (l : list value) : list value := filter truthy l.

(** Lines 236-238 and 266-269: "Filter undefined from arrays". *)
Definition filter_if_array (newValue : value) : value :=
  match newValue with
  | VArr l => VArr (compact l)
  | _ => newValue
  end.


(* ===================================================================== *)
(** ** The state the API works on, and the monad of its calls            *)
(* ===================================================================== *)

Inductive level : Type := LDebug | LInfo | LWarn | LError.

(** The calls made to the collaborators, in order. *)
Inductive event : Type :=
| DagPut (v : value)
| DagGet (c : cid) (path : string)
| DagResolve (c : cid) (path : string)
| BlockPut (bytes : list Byte.byte)
| HttpGet (url : string)
| UploadCAR (blocks : list value)
| TileLoad (controller tag : string)
| TileUpdate (controller tag : string)
| Console (l : level) (msg : string).

(** A tile document of the pointer service: [controllers[0]], [tags[0]] and
    its content, a [Record<string, any>]. *)
Record tile : Type := mkTile {
  controller : string;
  tag : string;
  content : list (string * value)
}.

(** [blocks]: the local block store ([this.#ipfs]), a node's CID is its
    position; [tiles]: the documents of the pointer service
    ([this.#ceramic]); [trace]: the calls made so far. *)
Record state : Type := mkState {
  blocks : list value;
  tiles : list tile;
  trace : list event
}.

(** An [async] call: it runs on the state and returns, throws, or exhausts
    the model's recursion budget.  The state survives a throw: blocks
    written before it stay written. *)
Definition M (A : Type) : Type := state -> outcome A * state.

Definition ret {A} (a : A) : M A := fun st => (Ok a, st).

Definition bind {A B} (m : M A) (f : A -> M B) : M B :=
  fun st =>
    match m st with
    | (Ok a, st') => f a st'
    | (Throw e, st') => (Throw e, st')
    | (OutOfFuel, st') => (OutOfFuel, st')
    end.

Definition throw {A} (e : error) : M A := fun st => (Throw e, st).

Definition lift {A} (o : outcome A) : M A := fun st => (o, st).

(** [try { m } catch (e) { h e }]. *)
Definition try_catch {A} (m : M A) (h : error -> M A) : M A :=
  fun st =>
    match m st with
    | (Throw e, st') => h e st'
    | r => r
    end.

Definition emit (ev : event) : M unit :=
  fun st => (Ok tt, mkState (blocks st) (tiles st) (trace st ++ [ev])).

Declare Scope api_scope.
Delimit Scope api_scope with api.
Notation "x <- m ;; k" := (bind m (fun x => k))
  (at level 61, m at next level, right associativity) : api_scope.
Notation "' pat <- m ;; k" := (bind m (fun x => match x with pat => k end))
  (at level 61, pat pattern, m at next level, right associativity) : api_scope.
Notation "m ;; k" := (bind m (fun _ => k))
  (at level 61, right associativity) : api_scope.
Local Open Scope api_scope.

(* ===================================================================== *)
(** ** The block store ([ipfs.dag], [ipfs.block])                        *)
(* ===================================================================== *)

Module Store.

Fixpoint find_from (i : nat) (v : value) (bs : list value) : option nat :=
  match bs with
  | [] => None
  | w :: r => if value_eqb w v then Some i else find_from (S i) v r
  end.

(** Modelled from the spec: the block store's [put] (sections 3 and 6), which
    is not part of this repository's source.  "Storing the same value twice
    yields the same CID": a node already held keeps its CID, a new node
    takes the next one, and no stored node ever changes. *)
Definition add (v : value) (bs : list value) : cid * list value :=
  match find_from 0 v bs with
  | Some i => (i, bs)
  | None => (length bs, (bs ++ [v])%list)
  end.

(** [hasOwnProperty(value, key)] then [value[key]], as the path walk of the
    IPFS client reads a node: a field of an object, a filled index of an
    array. *)
Definition own_property (v : value) (key : string) : option value :=
  match v with
  | VObj fs => Prop_.assoc_get key fs
  | VArr l =>
      match Prop_.element_index key with
      | Some i =>
          match nth_error l i with
          | Some VUndef => None
          | o => o
          end
      | None => None
      end
  | _ => None
  end.

(** A link met on the way is replaced by the node it names. *)
Definition follow (bs : list value) (v : value) : option value :=
  match v with
  | VLink c => nth_error bs c
  | _ => Some v
  end.

(** The segments of an IPFS path: [path.split("/").filter(Boolean)]. *)
Definition parts (path : string) : list string :=
  filter (fun s => negb (s =? "")) (JsString.split slash path).

(** Modelled from the spec: the block store's [get] with a path (section 6),
    which is not part of this repository's source: it walks the path from
    the node, and a link met on the way stands for the node it names. *)
Fixpoint walk (bs : list value) (v : value) (ps : list string) : option value :=
  match ps with
  | [] => Some v
  | key :: rest =>
      match own_property v key with
      | Some w =>
          match follow bs w with
          | Some w' => walk bs w' rest
          | None => None
          end
      | None => None
      end
  end.

(** Modelled from the spec: the path resolver of the block store
    ([ipfs.dag.resolve], sections 4.1 and 6), which is not part of this
    repository's source.  It reports "the deepest already-materialized node
    CID" on the path and the part of the path below that node.  [last] is
    the CID of the deepest stored node met so far and [since] the segments
    walked inside it, which name values inline in that node: the remainder
    is the part of the path below the stored node, whether all of it names
    values inline in the node or not.  Section 4.1 has it never fail and
    hand back segments that "do not yet exist"; the client the code calls
    looks a segment up among the own fields of a stored node and throws
    [ERR_NO_LINK] when it names none, which is what [None] stands for
    here. *)
Fixpoint resolve_walk (bs : list value) (v : value) (last : cid)
    (since : list string) (ps : list string) : option (cid * list string) :=
  match ps with
  | [] => Some (last, since)
  | key :: rest =>
      match own_property v key with
      | Some (VLink c) =>
          match nth_error bs c with
          | Some w => resolve_walk bs w c [] rest
          | None => Some (c, rest)
          end
      | Some w => resolve_walk bs w last (since ++ [key])%list rest
      | None =>
          match since with
          | [] => None
          | _ => Some (last, (since ++ ps)%list)
          end
      end
  end.

End Store.

Definition set_blocks (bs : list value) (st : state) : state :=
  mkState bs (tiles st) (trace st).

(** [ipfs.dag.put(v, {storeCodec: "dag-cbor"})]: the codec rejects a value
    that holds [undefined]. *)
Definition dag_put (v : value) : M cid :=
  emit (DagPut v) ;;
  fun st =>
    if encodable v then
      let (c, bs) := Store.add v (blocks st) in (Ok c, set_blocks bs st)
    else (Throw (ErrCode "ERR_ENCODE"), st).

(** [ipfs.dag.get(cid)]. *)
Definition dag_get (c : cid) : M value :=
  emit (DagGet c "") ;;
  fun st =>
    match nth_error (blocks st) c with
    | Some v => (Ok v, st)
    | None => (Throw (ErrCode "ERR_NOT_FOUND"), st)
    end.

(** [ipfs.dag.get(root, {path, timeout: 2000})]: a block that is not held
    locally, or a segment that names nothing, makes the call throw. *)
Definition dag_get_path (root : cid) (path : string) : M value :=
  emit (DagGet root path) ;;
  fun st =>
    match nth_error (blocks st) root with
    | Some v =>
        match Store.walk (blocks st) v (Store.parts path) with
        | Some r => (Ok r, st)
        | None => (Throw (ErrCode "ERR_NO_LINK"), st)
        end
    | None => (Throw (ErrCode "ERR_NOT_FOUND"), st)
    end.

(** [ipfs.dag.resolve(`/ipfs/${root.toString()}${parentPath}`)].  The
    template puts [parentPath] right after the text of the CID: the string
    names [root] followed by a path only when [parentPath] is empty or
    begins with a slash; otherwise its first characters run into the CID,
    whose text has a fixed length, and the client rejects it.  A segment
    that names no field of the stored node it is looked up in makes the
    call throw. *)
Definition dag_resolve (root : cid) (parentPath : string) : M (cid * string) :=
  emit (DagResolve root parentPath) ;;
  fun st =>
    if (parentPath =? "") || JsString.prefix "/" parentPath then
      match nth_error (blocks st) root with
      | Some v =>
          match Store.resolve_walk (blocks st) v root [] (Store.parts parentPath) with
          | Some (c, rem) => (Ok (c, JsString.join "/" rem), st)
          | None => (Throw (ErrCode "ERR_NO_LINK"), st)
          end
      | None => (Throw (ErrCode "ERR_NOT_FOUND"), st)
      end
    else (Throw (ErrCode "ERR_INVALID_CID"), st).

(** The text of a CID ([root.toString()]) and [CID.parse]. *)
Definition cid_toString (c : cid) : string :=
  NilEmpty.string_of_uint (Nat.to_uint c).

Definition CID_parse (v : value) : M cid :=
  match v with
  | VStr s =>
      match Prop_.array_index s with
      | Some c => ret c
      | None => throw (ErrCode "ERR_INVALID_CID")
      end
  | _ => throw (ErrCode "ERR_INVALID_CID")
  end.

(* ===================================================================== *)
(** ** The class [API]                                                   *)
(* ===================================================================== *)

(** The services the class calls that hold no state of the model: the
    schema transform of [@ipld/schema] over the types of [@geo-web/types]
    ([None] is its [undefined]), the HTTP client and the block decoder
    ([None]: the call throws), and the upload of an archive ([false]: it
    throws). *)
Record Env : Type := mkEnv {
  toRepresentation : string -> value -> option value;
  toTyped : string -> value -> value;
  axios_get : string -> option (list Byte.byte);
  Block_decode : list Byte.byte -> option value;
  uploadCAR : list value -> bool
}.

(** The fields of [ConfigOptions] that are not the stores. *)
Record ConfigOptions : Type := mkConfig {
  ipfsGatewayHost : option string;
  w3InvocationConfig : option unit
}.

Record ParcelOptions : Type := mkParcel {
  ownerDID : string;
  parcelId : string
}.

(** [LeafSchemaOptions & PinOptions]. *)
Record PutOptions : Type := mkPut {
  parentSchema : option string;
  leafSchema : option string;
  pin : bool
}.

(** An optional string as a condition: [undefined] and [""] are falsy. *)
Definition configured (o : option string) : option string :=
  match o with
  | Some s => if s =? "" then None else Some s
  | None => None
  end.

(** [r === undefined] for the result of a schema transform. *)
Definition is_undefined (r : option value) : bool :=
  match r with
  | None => true
  | Some _ => false
  end.

Definition pin_only (opts : PutOptions) : PutOptions :=
  mkPut None None (pin opts).

Section API.

Variable E : Env.
Variable cfg : ConfigOptions.

(** [TileDocument.deterministic(ceramic, {controllers, family, tags},
    {sync: SYNC_ALWAYS})]: the document of that controller and tag, empty
    when the service holds none. *)
Definition TileDocument_deterministic (ctl tg : string) : M tile :=
  emit (TileLoad ctl tg) ;;
  fun st =>
    (Ok (match find (fun t => (controller t =? ctl) && (tag t =? tg)) (tiles st) with
         | Some t => t
         | None => mkTile ctl tg []
         end), st).

(** [doc.content["/"]]. *)
Definition content_root (doc : tile) : value :=
  match Prop_.assoc_get "/" (content doc) with
  | Some v => v
  | None => VUndef
  end.

(** The root a controller's document holds in the pointer service. *)
Definition stored_root (ts : list tile) (ctl tg : string) : value :=
  content_root
    (match find (fun t => (controller t =? ctl) && (tag t =? tg)) ts with
     | Some t => t
     | None => mkTile ctl tg []
     end).

(** [doc.update(content)]. *)
Definition tile_update (doc : tile) (c : list (string * value)) : M unit :=
  emit (TileUpdate (controller doc) (tag doc)) ;;
  fun st =>
    let same t := (controller t =? controller doc) && (tag t =? tag doc) in
    (Ok tt,
     mkState (blocks st)
       (mkTile (controller doc) (tag doc) c :: filter (fun t => negb (same t)) (tiles st))
       (trace st)).

(** Lines 346-360. *)
Definition commit (root : cid) (opts : ParcelOptions) : M unit :=
  doc <- TileDocument_deterministic (ownerDID opts) (parcelId opts) ;;
  tile_update doc [("/", VStr (cid_toString root))].

(** Lines 52-55. *)
Definition initRoot (opts : ParcelOptions) : M unit :=
  emptyRoot <- dag_put (VObj []) ;;
  commit emptyRoot opts.

(** Lines 65-100. *)
Definition resolveRoot (opts : ParcelOptions) : M cid :=
  (* 1. EIP-55 checksum address *)
  doc <- TileDocument_deterministic (ownerDID opts) (parcelId opts) ;;
  doc <- (if negb (truthy (content_root doc)) then
            (* 2. Lowercase address *)
            TileDocument_deterministic
              (JsString.toLowerCase (ownerDID opts)) (parcelId opts)
          else ret doc) ;;
  if truthy (content_root doc) then CID_parse (content_root doc)
  else
    (* Empty root *)
    dag_put (VObj []).

(** [this.#ipfs.block.put(uintBuffer)]: not awaited, its failure reaches no
    caller. *)
Definition block_put (bytes : list Byte.byte) : M unit :=
  emit (BlockPut bytes) ;;
  fun st =>
    match Block_decode E bytes with
    | Some v =>
        if encodable v then (Ok tt, set_blocks (snd (Store.add v (blocks st))) st)
        else (Ok tt, st)
    | None => (Ok tt, st)
    end.

(** [`${this.#ipfsGatewayHost}/ipfs/${root.toString()}/${path}`]. *)
Definition gateway_url (host : string) (root : cid) (path : string) : string :=
  host ++ "/ipfs/" ++ cid_toString root ++ "/" ++ path.

(** Lines 106-151. *)
Definition get (root : cid) (path : string) (schema : option string) : M value :=
  value <-
    try_catch (dag_get_path root path)
      (fun _ =>
         match configured (ipfsGatewayHost cfg) with
         | Some host =>
             try_catch
               ((* Download raw block *)
                let url := gateway_url host root path in
                emit (Console LDebug ("Retrieving raw block from: " ++ url)) ;;
                emit (HttpGet url) ;;
                match axios_get E url with
                | Some uintBuffer =>
                    match Block_decode E uintBuffer with
                    | Some v => block_put uintBuffer ;; ret v
                    | None => throw (ErrCode "ERR_DECODE")
                    end
                | None => throw (ErrCode "ERR_HTTP")
                end)
               (fun _ =>
                  emit (Console LWarn "Could not retrieve raw block: ") ;;
                  ret VUndef)
         | None =>
             emit (Console LInfo "Skipping gateway lookup. ipfsGatewayHost not found") ;;
             ret VUndef
         end) ;;
  match configured schema with
  | Some sch => ret (toTyped E sch value)
  | None => ret value
  end.

(** Lines 157-164. *)
Definition getPath (path : string) (opts : ParcelOptions) (schema : option string)
  : M value :=
  root <- resolveRoot opts ;;
  get root path schema.

(** Lines 234-261 and 265-292, the same text in both branches of [putPath]
    but for the path handed to [putInnerPath]: edit, filter, schema gate.
    [putInnerPath] edits [value] in place and returns it, so the second edit
    (with the link) works on the node the first one left, before the
    filter.  It returns [newValue] and the [innerBlocks]. *)
Definition replace_leaf (val : value) (editPath : string) (newData : value)
    (opts : PutOptions) : M (value * list value) :=
  edited <- lift (putInnerPath (String.length editPath) val editPath newData) ;;
  (* Filter undefined from arrays *)
  let newValue := filter_if_array edited in
  match configured (parentSchema opts) with
  | Some sch =>
      if truthy newValue && is_undefined (toRepresentation E sch newValue) then
        (* Try again with a Link *)
        newDataLink <- dag_put newData ;;
        newValue <- lift (putInnerPath (String.length editPath) edited editPath
                            (VLink newDataLink)) ;;
        match toRepresentation E sch newValue with
        | None => throw parentSchemaMismatch
        | Some _ => ret (newValue, [newData])
        end
      else ret (newValue, [])
  | None => ret (newValue, [])
  end.

(** Lines 301-320. *)
Definition pin_blocks (opts : PutOptions) (newValue : value)
    (innerBlocks : list value) : M unit :=
  if pin opts then
    match w3InvocationConfig cfg with
    | None => throw web3StorageNotConfigured
    | Some _ =>
        (* Build CAR *)
        emit (UploadCAR (newValue :: innerBlocks)) ;;
        if uploadCAR E (newValue :: innerBlocks) then ret tt
        else emit (Console LError "upload failed") ;; throw UploadError
    end
  else ret tt.

(** Lines 186-189: [lastPathSegment] and [parentPath]. *)
Definition lastSegment (path : string) : string :=
  let pathSegments := JsString.split slash path in
  List.last pathSegments "".

Definition parentOf (path : string) : string :=
  JsString.replace ("/" ++ lastSegment path) "" path.

(** Lines 177-320: one call of [putPath] up to its [return].  It yields
    [newCid] and the [parentPath] the return statement tests. *)
Definition putPath_level (root : cid) (path : string) (data : value)
    (opts : PutOptions) : M (cid * string) :=
  newData <-
    match configured (leafSchema opts) with
    | Some sch =>
        match toRepresentation E sch data with
        | Some newData => ret newData
        | None => throw leafSchemaMismatch
        end
    | None => ret data
    end ;;
  (* 1. Replace CID at first parent *)
  let lastPathSegment := lastSegment path in
  let parentPath := parentOf path in
  '(cid, remainderPath) <- dag_resolve root parentPath ;;
  val <- dag_get cid ;;
  '(newValue, innerBlocks, parentPath) <-
    (if remainderPath =? "" then
       (* Replace leaf *)
       '(newValue, innerBlocks) <-
         replace_leaf val ("/" ++ lastPathSegment) newData opts ;;
       ret (newValue, innerBlocks, parentPath)
     else
       (* Replace nested leaf *)
       let nestedPath := "/" ++ remainderPath ++ "/" ++ lastPathSegment in
       '(newValue, innerBlocks) <-
         replace_leaf val nestedPath newData opts ;;
       ret (newValue, innerBlocks,
            JsString.replace remainderPath "" parentPath)) ;;
  newCid <- dag_put newValue ;;
  pin_blocks opts newValue innerBlocks ;;
  ret (newCid, parentPath).

(** Lines 171-329: [putPath_level], then lines 322-328.  [fuel] bounds the
    number of calls, this one included. *)
Fixpoint putPath (fuel : nat) (root : cid) (path : string) (data : value)
    (opts : PutOptions) : M cid :=
  match fuel with
  | O => lift OutOfFuel
  | S fuel' =>
      '(newCid, parentPath) <- putPath_level root path data opts ;;
      (* 2a. Base case, path is root *)
      if (parentPath =? "/") || (parentPath =? "") then ret newCid
      else
        (* 2b. Replace parent CID recursively *)
        putPath fuel' root parentPath (VLink newCid) (pin_only opts)
  end.

(** Lines 335-341. *)
Definition deletePath (fuel : nat) (root : cid) (path : string)
    (opts : PutOptions) : M cid :=
  putPath fuel root path VNull opts.

End API.

(* ===================================================================== *)
(** ** Measures on the trace, shapes of stores and paths                 *)
(* ===================================================================== *)

Definition is_resolve (ev : event) : bool :=
  match ev with DagResolve _ _ => true | _ => false end.
Definition is_put (ev : event) : bool :=
  match ev with DagPut _ => true | _ => false end.
Definition is_warn (ev : event) : bool :=
  match ev with Console LWarn _ => true | _ => false end.
Definition is_tile_update (ev : event) : bool :=
  match ev with TileUpdate _ _ => true | _ => false end.

(** Every call of [putPath] that passes the leaf schema makes exactly one
    [dag.resolve] (line 190): their number is the number of calls. *)
Definition calls (evs : list event) : nat := length (filter is_resolve evs).

(** Number of nodes handed to [dag.put]. *)
Definition puts (evs : list event) : nat := length (filter is_put evs).

(** Number of slashes of a path: its depth when it is [/k1/../kn]. *)
Definition depth (path : string) : nat := JsString.count slash path.

(** The path [/k1/../kn]. *)
Fixpoint path_of (ks : list string) : string :=
  match ks with
  | [] => ""
  | k :: r => "/" ++ k ++ path_of r
  end.

(** A field name: non-empty and without a slash. *)
Definition segment (k : string) : bool :=
  negb (k =? "") && (JsString.count slash k =? 0)%nat.

(** No segment is a prefix of an earlier one, so that [/k] first occurs in
    the path where the segment [k] itself stands. *)
Fixpoint no_early_match (ks : list string) : bool :=
  match ks with
  | [] => true
  | k :: r => forallb (fun later => negb (JsString.prefix later k)) r
              && no_early_match r
  end.

(** No segment is [__proto__], the name under which a map has its
    prototype: assigning it stores no field, and a map decoded from a block
    has no field of that name. *)
Definition plain_path (ks : list string) : bool := forallb Prop_.plain_key ks.

(** The map node that [ks] leads to from the node stored at [c], when every
    step crosses a link to a stored map: its CID and its fields. *)
Fixpoint node_at (bs : list value) (c : cid) (ks : list string)
  : option (cid * list (string * value)) :=
  match nth_error bs c with
  | Some (VObj fs) =>
      match ks with
      | [] => Some (c, fs)
      | k :: r =>
          match Prop_.assoc_get k fs with
          | Some (VLink c') => node_at bs c' r
          | _ => None
          end
      end
  | _ => None
  end.





(** Every stored node is one the codec produced. *)
Definition store_ok (st : state) : bool := forallb encodable (blocks st).

Definition is_link (v : value) : bool :=
  match v with VLink _ => true | _ => false end.

(** Assignment to the key [k] of a map with the fields [fs] gives the map
    that field: the key is not [__proto__], or the map has the field. *)
Definition settable (k : string) (fs : list (string * value)) : Prop :=
  Prop_.plain_key k = true \/ Prop_.assoc_get k fs <> None.

(** What [get] returns for [v] under an optional schema (lines 145-150). *)
Definition schema_view (E : Env) (schema : option string) (v : value) : value :=
  match configured schema with
  | Some sch => toTyped E sch v
  | None => v
  end.

(** The gateway fallback of [get] fails or is unavailable: no host is
    configured, or the request throws, or the bytes do not decode. *)
Definition gateway_fails (E : Env) (cfg : ConfigOptions) (root : cid)
    (path : string) : Prop :=
  match configured (ipfsGatewayHost cfg) with
  | Some host =>
      match axios_get E (gateway_url host root path) with
      | Some bytes => Block_decode E bytes = None
      | None => True
      end
  | None => True
  end.

(** What [get] logs when the gateway fallback fails or is unavailable. *)
Definition fallback_log (cfg : ConfigOptions) (root : cid) (path : string)
  : list event :=
  match configured (ipfsGatewayHost cfg) with
  | Some host =>
      [Console LDebug ("Retrieving raw block from: " ++ gateway_url host root path);
       HttpGet (gateway_url host root path);
       Console LWarn "Could not retrieve raw block: "]
  | None => [Console LInfo "Skipping gateway lookup. ipfsGatewayHost not found"]
  end.

(** [m] run on [st] returns [r], leaves the blocks [bs] and adds the events
    [evs]; the pointer service is untouched. *)
Definition run_as {A} (m : M A) (st : state) (r : outcome A)
    (bs : list value) (evs : list event) : Prop :=
  m st = (r, mkState bs (tiles st) (trace st ++ evs)).

(** Pinning, when asked for, is configured and its upload succeeds. *)
Definition pin_ok (E : Env) (cfg : ConfigOptions) (opts : PutOptions) : Prop :=
  pin opts = true ->
  w3InvocationConfig cfg <> None /\ forall bl, uploadCAR E bl = true.

(** The upload a call makes for the node it stored (lines 301-320). *)
Definition pin_events (opts : PutOptions) (newValue : value)
    (innerBlocks : list value) : list event :=
  if pin opts then [UploadCAR (newValue :: innerBlocks)] else [].

(** Options without a schema, under which pinning cannot fail. *)
Definition bare (E : Env) (cfg : ConfigOptions) (opts : PutOptions) : Prop :=
  configured (leafSchema opts) = None
  /\ configured (parentSchema opts) = None
  /\ pin_ok E cfg opts.


(** The value a walk continues from: a link is replaced by its node. *)
Definition walk_from (bs : list value) (v : value) (more : list string)
  : option value :=
  match Store.follow bs v with
  | Some w => Store.walk bs w more
  | None => None
  end.



(* ===================================================================== *)
(** ** Concrete inputs                                                    *)
(* ===================================================================== *)

Module Ex.

(** A schema service that accepts everything, no gateway, uploads succeed. *)
Definition env : Env :=
  mkEnv (fun _ v => Some v) (fun _ v => v) (fun _ => None) (fun _ => None)
        (fun _ => true).

(** A schema service whose types are maps: it rejects every other value. *)
Definition env_maps : Env :=
  mkEnv (fun _ v => match v with VObj _ => Some v | _ => None end)
        (fun _ v => v) (fun _ => None) (fun _ => None) (fun _ => true).



(** A schema service that rejects everything. *)
Definition env_none : Env :=
  mkEnv (fun _ _ => None) (fun _ v => v) (fun _ => None) (fun _ => None)
        (fun _ => true).

Definition no_gateway : ConfigOptions := mkConfig None None.
Definition with_gateway : ConfigOptions := mkConfig (Some "https://gw") None.

Definition plain : PutOptions := mkPut None None false.
Definition under (parent : string) : PutOptions := mkPut (Some parent) None false.
Definition leaf (l : string) : PutOptions := mkPut None (Some l) false.

Definition store (bs : list value) : state := mkState bs [] [].

(** [{a: <link to 0>}] over the list [[0, "b", "c"]]. *)
Definition gallery : state :=
  store [VArr [VNum 0; VStr "b"; VStr "c"]; VObj [("a", VLink 0)]].


(** The empty root [{}]. *)
Definition empty_root : state := store [VObj []].

(** [{}] and a second node [{x: 1}]. *)
Definition two_nodes : state := store [VObj []; VObj [("x", VNum 1)]].

(** [{a: <1>}], [{b: <2>}], [{c: 1}]: three levels, each its own node. *)
Definition three_levels : state :=
  store [VObj [("a", VLink 1)]; VObj [("b", VLink 2)]; VObj [("c", VNum 1)]].

(** [{a: <1>, b: <3>}] over [{b: <2>}], [{x: 1}], [{a: <4>}], [{y: 2}]: the
    paths [/a/b] and [/b/a] both lead to a map, each its own node. *)
Definition crossed : state :=
  store [VObj [("a", VLink 1); ("b", VLink 3)];
         VObj [("b", VLink 2)]; VObj [("x", VNum 1)];
         VObj [("a", VLink 4)]; VObj [("y", VNum 2)]].


Definition parcel : ParcelOptions := mkParcel "0xABC" "1".

(** The pointer service holds a root only under the lower-cased owner. *)
Definition lower_only : state :=
  mkState [VObj []; VObj [("x", VNum 1)]]
          [mkTile "0xabc" "1" [("/", VStr "1")]] [].

End Ex.

(* ===================================================================== *)
(** ** Shapes of runs, for the properties of the whole class             *)
(* ===================================================================== *)

(** [m] only adds blocks to the store, leaves the pointer service alone,
    makes only calls that [P] allows, and stores only nodes the codec
    produced. *)
Definition orderly {A} (P : event -> bool) (m : M A) : Prop :=
  forall st, exists r extra evs,
    m st = (r, mkState (blocks st ++ extra) (tiles st) (trace st ++ evs))
    /\ forallb P evs = true
    /\ forallb encodable extra = true.

(** The calls [putPath] may make: the block store, and the upload with its
    error log when [pin] is set. *)
Definition put_call (opts : PutOptions) (ev : event) : bool :=
  match ev with
  | DagResolve _ _ | DagGet _ _ | DagPut _ => true
  | UploadCAR _ | Console LError _ => pin opts
  | _ => false
  end.

(** The calls [get] may make: one read of the block store, the gateway and
    its cache write, the console. *)
Definition get_call (ev : event) : bool :=
  match ev with
  | DagGet _ _ | HttpGet _ | BlockPut _ | Console _ _ => true
  | _ => false
  end.

Definition is_upload (ev : event) : bool :=
  match ev with UploadCAR _ => true | _ => false end.

(** The archive [putPath] uploads for a node it stored without inner
    blocks: that node alone (lines 305-313). *)
Definition archive_of (ev : event) : event :=
  match ev with
  | DagPut v => UploadCAR [v]
  | _ => ev
  end.

(** The fields of a map after [putInnerPath] on one of its keys: the field
    is deleted for [null] and [undefined], assigned otherwise (lines
    205-218). *)
Definition edit_field (k : string) (data : value) (fs : list (string * value))
  : list (string * value) :=
  if is_nullish data then Prop_.assoc_del k fs else Prop_.assoc_set k data fs.

(** Two chains of linked maps along [ks], from the roots [old] and [new],
    that differ in the links of [ks] only: at every step [k'] of the path,
    the map of the new chain with its field [k'] set to the link of the old
    chain is the map of the old chain. *)
Definition rebuilds (bs : list value) (old new : cid) (ks : list string) : Prop :=
  forall pre k' rest,
    ks = (pre ++ k' :: rest)%list ->
    exists ca fa cb fb cn fn,
      node_at bs new pre = Some (ca, fa)
      /\ node_at bs old pre = Some (cb, fb)
      /\ node_at bs old (pre ++ [k']) = Some (cn, fn)
      /\ Prop_.assoc_set k' (VLink cn) fa = fb.

(* ===================================================================== *)
(** ** Further concrete inputs                                           *)
(* ===================================================================== *)

(** A gateway that serves one block: every request is answered with the
    bytes [[x01]], which decode to [{x: 1}]. *)
Definition Ex_env_gateway : Env :=
  mkEnv (fun _ v => Some v) (fun _ v => v)
        (fun _ => Some [Byte.x01])
        (fun _ => Some (VObj [("x", VNum 1)]))
        (fun _ => true).

(** An upload service that refuses every archive. *)
Definition Ex_env_upload_fails : Env :=
  mkEnv (fun _ v => Some v) (fun _ v => v) (fun _ => None) (fun _ => None)
        (fun _ => false).

(** A configuration with an upload service and no gateway. *)
Definition Ex_with_upload : ConfigOptions := mkConfig None (Some tt).

(** Options that ask for pinning, without schemas. *)
Definition Ex_pinned : PutOptions := mkPut None None true.

(** [{a: <1>, z: <2>}] over the nodes [{b: 1}] and [{y: 5}]. *)
Definition Ex_family : state :=
  mkState [VObj [("a", VLink 1); ("z", VLink 2)]; VObj [("b", VNum 1)];
           VObj [("y", VNum 5)]] [] [].

(** A root that is the list [[7, 0, "b", "c"]]. *)
Definition Ex_list_root : state :=
  mkState [VArr [VNum 7; VNum 0; VStr "b"; VStr "c"]] [] [].


(* ===================================================================== *)
(** * Part II: properties                                                *)
(* ===================================================================== *)

Module StrFacts.
Import JsString.

Lemma append_nil_r (s : string) : s ++ "" = s.
Proof. induction s as [|c s IH]; simpl; [reflexivity | now rewrite IH]. Qed.

Lemma append_assoc (a b c : string) : (a ++ b) ++ c = a ++ (b ++ c).
Proof. induction a as [|x a IH]; simpl; [reflexivity | now rewrite IH]. Qed.



Lemma split_not_nil sep s : split sep s <> [].
Proof.
  destruct s as [|c s]; simpl; [discriminate|].
  destruct (Ascii.eqb c sep); [discriminate|].
  destruct (split sep s); discriminate.
Qed.

Lemma split_cons sep s : exists h t, split sep s = h :: t.
Proof.
  destruct (split sep s) as [|h t] eqn:E.
  - now apply split_not_nil in E.
  - eauto.
Qed.







Lemma prefix_append p s : prefix p (p ++ s) = true.
Proof.
  induction p as [|c p IH]; simpl; [reflexivity|].
  now rewrite Ascii.eqb_refl.
Qed.

Lemma drop_append p s : drop (String.length p) (p ++ s) = s.
Proof. induction p as [|c p IH]; simpl; [reflexivity | assumption]. Qed.

Lemma replace_eq pat rep s :
  replace pat rep s =
  if prefix pat s then rep ++ drop (String.length pat) s
  else match s with
       | EmptyString => EmptyString
       | String c r => String c (replace pat rep r)
       end.
Proof. destruct s; reflexivity. Qed.





Lemma split_no_sep sep s : count sep s = 0 -> split sep s = [s].
Proof.
  induction s as [|c s IH]; [reflexivity|].
  cbn [split count]. destruct (Ascii.eqb c sep); [discriminate|].
  intros H. rewrite IH by exact H. reflexivity.
Qed.





Lemma replace_absent x s : count slash s = 0 -> replace (String slash x) "" s = s.
Proof.
  induction s as [|c s IH]; [reflexivity|].
  cbn [count]. intros H. rewrite replace_eq. cbn [prefix].
  destruct (Ascii.eqb_spec c slash) as [->|Hne]; [discriminate|].
  rewrite Ascii.eqb_sym. destruct (Ascii.eqb_spec c slash); [contradiction|].
  cbn [andb]. rewrite IH by exact H. reflexivity.
Qed.


End StrFacts.



Import StrFacts.


(** A path without a slash is its own [parentPath]. *)
Lemma parentOf_flat path : depth path = 0 -> parentOf path = path.
Proof. intros H. unfold parentOf. now apply replace_absent. Qed.




Lemma state_eta st : st = mkState (blocks st) (tiles st) (trace st ++ []).
Proof. destruct st; simpl. now rewrite app_nil_r. Qed.

Lemma run_as_ret {A} (a : A) st : run_as (ret a) st (Ok a) (blocks st) [].
Proof. unfold run_as, ret. now rewrite <- state_eta. Qed.

Lemma run_as_throw {A} e st : run_as (@throw A e) st (Throw e) (blocks st) [].
Proof. unfold run_as, throw. now rewrite <- state_eta. Qed.

Lemma run_as_lift {A} (o : outcome A) st : run_as (lift o) st o (blocks st) [].
Proof. unfold run_as, lift. now rewrite <- state_eta. Qed.

Lemma run_as_bind {A B} (m : M A) (f : A -> M B) st a bs1 evs1 r bs2 evs2 :
  run_as m st (Ok a) bs1 evs1 ->
  run_as (f a) (mkState bs1 (tiles st) (trace st ++ evs1)) r bs2 evs2 ->
  run_as (bind m f) st r bs2 (evs1 ++ evs2).
Proof.
  unfold run_as, bind. intros -> H. rewrite H. cbn. now rewrite app_assoc.
Qed.

Lemma run_as_bind_throw {A B} (m : M A) (f : A -> M B) st e bs evs :
  run_as m st (Throw e) bs evs -> run_as (bind m f) st (Throw e) bs evs.
Proof. unfold run_as, bind. now intros ->. Qed.


Lemma calls_app a b : calls (a ++ b) = calls a + calls b.
Proof. unfold calls. now rewrite filter_app, length_app. Qed.

Lemma puts_app a b : puts (a ++ b) = puts a + puts b.
Proof. unfold puts. now rewrite filter_app, length_app. Qed.










Module PathFacts.
Import JsString.

Lemma split_app_flat sep k s :
  count sep k = 0 ->
  split sep (k ++ s) =
  match split sep s with
  | h :: t => (k ++ h) :: t
  | [] => [k]
  end.
Proof.
  induction k as [|c k IH]; intros H.
  - cbn [append]. destruct (split_cons sep s) as (h & t & ->). reflexivity.
  - cbn [count] in H. cbn [append split].
    destruct (Ascii.eqb c sep); [discriminate|].
    rewrite IH by exact H.
    destruct (split_cons sep s) as (h & t & ->). reflexivity.
Qed.

Lemma segment_flat k : segment k = true -> count slash k = 0.
Proof. unfold segment. intros H. apply andb_true_iff in H as [_ H]. now apply Nat.eqb_eq. Qed.

Lemma segment_not_empty k : segment k = true -> (k =? "") = false.
Proof. unfold segment. intros H. apply andb_true_iff in H as [H _]. now apply negb_true_iff. Qed.

Lemma split_path_of ks :
  Forall (fun k => segment k = true) ks -> split slash (path_of ks) = "" :: ks.
Proof.
  induction 1 as [|k ks Hk Hks IH]; [reflexivity|].
  cbn [path_of]. change ("/" ++ k ++ path_of ks) with (String slash (k ++ path_of ks)).
  cbn [split]. rewrite Ascii.eqb_refl.
  rewrite split_app_flat by now apply segment_flat.
  rewrite IH. now rewrite append_nil_r.
Qed.

Lemma path_of_app a b : path_of (a ++ b) = path_of a ++ path_of b.
Proof.
  induction a as [|k a IH]; [reflexivity|].
  cbn [path_of app]. rewrite IH. cbn [append].
  now rewrite append_assoc.
Qed.

Lemma lastSegment_path_of ks k :
  Forall (fun k => segment k = true) (ks ++ [k]) ->
  lastSegment (path_of (ks ++ [k])) = k.
Proof.
  intros H. unfold lastSegment. rewrite split_path_of by exact H.
  change ("" :: ks ++ [k])%list with (("" :: ks) ++ [k])%list.
  apply last_last.
Qed.

Lemma parts_path_of ks :
  Forall (fun k => segment k = true) ks -> Store.parts (path_of ks) = ks.
Proof.
  intros H. unfold Store.parts. rewrite split_path_of by exact H.
  cbn [filter String.eqb negb].
  induction H as [|k ks Hk Hks IH]; [reflexivity|].
  cbn [filter]. rewrite (segment_not_empty _ Hk). cbn [negb]. now rewrite IH.
Qed.

Lemma prefix_app_flat k : forall k1 r,
  count slash k = 0 -> prefix k (k1 ++ String slash r) = prefix k k1.
Proof.
  induction k as [|c k IH]; intros k1 r H.
  - destruct k1; reflexivity.
  - cbn [count] in H. destruct (Ascii.eqb_spec c slash) as [->|Hne]; [discriminate|].
    destruct k1 as [|d k1]; cbn [append prefix].
    + destruct (Ascii.eqb_spec c slash); [contradiction | reflexivity].
    + now rewrite IH.
Qed.

Lemma replace_skip k k1 s :
  count slash k1 = 0 ->
  replace (String slash k) "" (k1 ++ s) = k1 ++ replace (String slash k) "" s.
Proof.
  induction k1 as [|d k1 IH]; intros H; [reflexivity|].
  cbn [count] in H. cbn [append]. rewrite replace_eq. cbn [prefix].
  destruct (Ascii.eqb_spec d slash) as [->|Hne]; [discriminate|].
  rewrite Ascii.eqb_sym. destruct (Ascii.eqb_spec d slash); [contradiction|].
  cbn [andb]. now rewrite IH.
Qed.

Lemma path_of_slash k ks : path_of (k :: ks) = String slash (k ++ path_of ks).
Proof. reflexivity. Qed.

Lemma replace_last_segment ks k :
  Forall (fun k => segment k = true) (ks ++ [k]) ->
  no_early_match (ks ++ [k]) = true ->
  replace ("/" ++ k) "" (path_of (ks ++ [k])) = path_of ks.
Proof.
  change ("/" ++ k) with (String slash k).
  induction ks as [|k1 ks IH]; intros Hseg Hno.
  - cbn [app]. change (path_of [k]) with (String slash k ++ "").
    rewrite replace_eq, prefix_append, drop_append. reflexivity.
  - cbn [app] in *. inversion Hseg as [|? ? Hk1 Hrest]; subst.
    cbn [no_early_match] in Hno. apply andb_true_iff in Hno as [Hlater Hno].
    assert (Hk : segment k = true).
    { rewrite Forall_forall in Hrest. apply Hrest, in_or_app. right. now left. }
    assert (Hpre : prefix k k1 = false).
    { rewrite forallb_forall in Hlater. apply negb_true_iff, Hlater, in_or_app.
      right. now left. }
    rewrite !path_of_slash. rewrite replace_eq. cbn [prefix].
    rewrite Ascii.eqb_refl. cbn [andb].
    destruct (ks ++ [k])%list as [|k2 rest] eqn:E; [now destruct ks|].
    rewrite path_of_slash, prefix_app_flat, Hpre by now apply segment_flat.
    rewrite <- path_of_slash, replace_skip by now apply segment_flat.
    now rewrite IH.
Qed.

Lemma parentOf_path_of ks k :
  Forall (fun k => segment k = true) (ks ++ [k]) ->
  no_early_match (ks ++ [k]) = true ->
  parentOf (path_of (ks ++ [k])) = path_of ks.
Proof.
  intros Hseg Hno. unfold parentOf. rewrite lastSegment_path_of by exact Hseg.
  now apply replace_last_segment.
Qed.

Lemma path_of_not_root k ks :
  segment k = true ->
  (path_of (k :: ks) =? "/") || (path_of (k :: ks) =? "") = false.
Proof.
  intros Hk. rewrite path_of_slash. cbn [String.eqb].
  rewrite Ascii.eqb_refl, orb_false_r.
  destruct k as [|c k]; [discriminate|]. reflexivity.
Qed.

Lemma path_of_resolvable ks :
  (path_of ks =? "") || prefix "/" (path_of ks) = true.
Proof. destruct ks as [|k ks]; [reflexivity|]. rewrite path_of_slash. reflexivity. Qed.

Lemma no_early_match_init ks k :
  no_early_match (ks ++ [k]) = true -> no_early_match ks = true.
Proof.
  induction ks as [|k1 ks IH]; [reflexivity|].
  cbn [app no_early_match]. intros H. apply andb_true_iff in H as [H1 H2].
  rewrite forallb_app in H1. apply andb_true_iff in H1 as [H1 _].
  now rewrite H1, IH.
Qed.


End PathFacts.


Import PathFacts.

Module StoreFacts.

Lemma value_eqb_eq : forall a b, value_eqb a b = true -> a = b.
Proof.
  induction a as [| |x|x|x|x|l IH|l IH] using value_ind';
    intros [| |y|y|y|y|m|m] H; cbn [value_eqb] in H; try discriminate; try reflexivity.
  - now apply Bool.eqb_prop in H as ->.
  - now apply Z.eqb_eq in H as ->.
  - now apply String.eqb_eq in H as ->.
  - now apply Nat.eqb_eq in H as ->.
  - f_equal. revert m H. induction IH as [|x l Hx Hl IHl]; intros [|y m] H;
      try discriminate; [reflexivity|].
    apply andb_true_iff in H as [H1 H2]. f_equal; [now apply Hx | now apply IHl].
  - f_equal. revert m H. induction IH as [|[k x] l Hx Hl IHl]; intros [|[k' y] m] H;
      try discriminate; [reflexivity|].
    apply andb_true_iff in H as [H1 H2]. apply andb_true_iff in H1 as [H0 H1].
    apply String.eqb_eq in H0 as ->. f_equal; [f_equal; now apply Hx | now apply IHl].
Qed.

Lemma find_from_sound v : forall bs i j,
  Store.find_from i v bs = Some j -> i <= j /\ nth_error bs (j - i) = Some v.
Proof.
  induction bs as [|w bs IH]; intros i j H; [discriminate|].
  cbn [Store.find_from] in H. destruct (value_eqb w v) eqn:E.
  - injection H as <-. apply value_eqb_eq in E as ->. rewrite Nat.sub_diag. now split.
  - apply IH in H as [Hle Hn]. split; [lia|].
    replace (j - i) with (S (j - S i)) by lia. exact Hn.
Qed.

(** The store only grows, and the CID returned names the node stored. *)
Lemma add_spec v bs :
  nth_error (snd (Store.add v bs)) (fst (Store.add v bs)) = Some v
  /\ exists extra, snd (Store.add v bs) = (bs ++ extra)%list.
Proof.
  unfold Store.add. destruct (Store.find_from 0 v bs) as [i|] eqn:E; cbn [fst snd].
  - apply find_from_sound in E as [_ E]. rewrite Nat.sub_0_r in E.
    split; [exact E | exists []; now rewrite app_nil_r].
  - split; [|now exists [v]].
    rewrite nth_error_app2 by lia. now rewrite Nat.sub_diag.
Qed.

Lemma nth_error_grow {A} (bs extra : list A) c v :
  nth_error bs c = Some v -> nth_error (bs ++ extra) c = Some v.
Proof.
  intros H. rewrite nth_error_app1; [exact H|].
  apply nth_error_Some. congruence.
Qed.

Lemma node_at_grow bs extra ks : forall c x,
  node_at bs c ks = Some x -> node_at (bs ++ extra) c ks = Some x.
Proof.
  induction ks as [|k ks IH]; intros c x H; cbn [node_at] in *.
  - destruct (nth_error bs c) as [[]|] eqn:E; try discriminate.
    now rewrite (nth_error_grow _ extra _ _ E).
  - destruct (nth_error bs c) as [[]|] eqn:E; try discriminate.
    rewrite (nth_error_grow _ extra _ _ E).
    destruct (Prop_.assoc_get k fields) as [[]|]; try discriminate.
    now apply IH.
Qed.

Lemma node_at_stored bs ks : forall c c' fs,
  node_at bs c ks = Some (c', fs) -> nth_error bs c' = Some (VObj fs).
Proof.
  induction ks as [|k ks IH]; intros c c' fs H; cbn [node_at] in H.
  - destruct (nth_error bs c) as [[]|] eqn:E; try discriminate.
    injection H as <- <-. exact E.
  - destruct (nth_error bs c) as [[]|] eqn:E; try discriminate.
    destruct (Prop_.assoc_get k fields) as [[]|]; try discriminate.
    now apply IH in H.
Qed.

Lemma node_at_root bs ks c x :
  node_at bs c ks = Some x -> exists fs, nth_error bs c = Some (VObj fs).
Proof.
  destruct ks; cbn [node_at]; destruct (nth_error bs c) as [[]|]; try discriminate; eauto.
Qed.

(** A prefix of a linked path is a linked path, and the last step of the
    path is a link of the node before. *)
Lemma node_at_snoc bs ks k : forall c c' fs,
  node_at bs c (ks ++ [k]) = Some (c', fs) ->
  exists c0 fs0, node_at bs c ks = Some (c0, fs0)
                 /\ Prop_.assoc_get k fs0 = Some (VLink c').
Proof.
  induction ks as [|k1 ks IH]; intros c c' fs H; cbn [app node_at] in *.
  - destruct (nth_error bs c) as [[]|] eqn:E; try discriminate.
    destruct (Prop_.assoc_get k fields) as [[]|] eqn:G; try discriminate.
    exists c, fields. split; [reflexivity|].
    destruct (nth_error bs c0) as [[]|]; try discriminate. now injection H as -> _.
  - destruct (nth_error bs c) as [[]|] eqn:E; try discriminate.
    destruct (Prop_.assoc_get k1 fields) as [[]|]; try discriminate.
    now apply IH in H.
Qed.

Lemma resolve_walk_linked bs ks : forall c0 v since c fs,
  nth_error bs c0 = Some v ->
  node_at bs c0 ks = Some (c, fs) ->
  Store.resolve_walk bs v c0 since ks
  = Some (c, match ks with [] => since | _ => [] end).
Proof.
  induction ks as [|k ks IH]; intros c0 v since c fs Hv H; cbn [node_at] in H;
    rewrite Hv in H; destruct v; try discriminate.
  - now injection H as <- _.
  - cbn [Store.resolve_walk Store.own_property].
    destruct (Prop_.assoc_get k fields) as [[]|]; try discriminate.
    destruct (node_at_root _ _ _ _ H) as [fs' Hc]. rewrite Hc.
    rewrite (IH _ _ [] _ _ Hc H). now destruct ks.
Qed.

Lemma assoc_get_set k v fs :
  settable k fs -> Prop_.assoc_get k (Prop_.assoc_set k v fs) = Some v.
Proof.
  unfold settable. induction fs as [|[k' w] fs IH]; intros Hk;
    cbn [Prop_.assoc_set Prop_.assoc_get] in *.
  - destruct Hk as [-> | Hk]; [|now contradiction Hk].
    cbn [Prop_.assoc_get]. now rewrite String.eqb_refl.
  - destruct (k' =? k) eqn:E; cbn [Prop_.assoc_get]; rewrite E; [reflexivity|].
    apply IH. exact Hk.
Qed.

Lemma plain_path_last ks k :
  plain_path (ks ++ [k]) = true -> Prop_.plain_key k = true.
Proof.
  unfold plain_path. rewrite forallb_app. cbn [forallb].
  intros H. apply andb_true_iff in H as [_ H]. now rewrite andb_true_r in H.
Qed.

Lemma settable_plain k fs : Prop_.plain_key k = true -> settable k fs.
Proof. intros H. now left. Qed.

Lemma settable_present k fs v : Prop_.assoc_get k fs = Some v -> settable k fs.
Proof. intros H. right. now rewrite H. Qed.

Lemma encodable_assoc_set k v fs :
  encodable (VObj fs) = true -> encodable v = true ->
  encodable (VObj (Prop_.assoc_set k v fs)) = true.
Proof.
  cbn [encodable]. intros Hfs Hv.
  induction fs as [|[k' w] fs IH]; cbn.
  - destruct (Prop_.plain_key k); cbn; [now rewrite Hv | reflexivity].
  - cbn in Hfs. apply andb_true_iff in Hfs as [Hw Hfs].
    destruct (k' =? k); cbn; [now rewrite Hv, Hfs | now rewrite Hw, IH].
Qed.

Lemma store_ok_nth st c v :
  store_ok st = true -> nth_error (blocks st) c = Some v -> encodable v = true.
Proof.
  unfold store_ok. rewrite forallb_forall. intros H Hn.
  apply H. eapply nth_error_In, Hn.
Qed.

Lemma add_keeps_ok v bs :
  forallb encodable bs = true -> encodable v = true ->
  forallb encodable (snd (Store.add v bs)) = true.
Proof.
  intros Hbs Hv. unfold Store.add. destruct (Store.find_from 0 v bs); cbn [snd];
    [exact Hbs|]. rewrite forallb_app, Hbs. cbn. now rewrite Hv.
Qed.

End StoreFacts.


Import StoreFacts.

Lemma bare_pin_only E cfg opts : bare E cfg opts -> bare E cfg (pin_only opts).
Proof. intros (_ & _ & H). split; [reflexivity|]. split; [reflexivity|]. exact H. Qed.

Lemma run_as_eq {A} (m : M A) st r bs evs evs' :
  run_as m st r bs evs -> evs = evs' -> run_as m st r bs evs'.
Proof. now intros H <-. Qed.

Lemma pin_blocks_ok E cfg opts nv ib st :
  pin_ok E cfg opts ->
  run_as (pin_blocks E cfg opts nv ib) st (Ok tt) (blocks st) (pin_events opts nv ib).
Proof.
  intros Hpin. unfold pin_blocks, pin_events, pin_ok in *.
  destruct (pin opts); [|apply run_as_ret].
  destruct (Hpin eq_refl) as [Hcfg Hup].
  destruct (w3InvocationConfig cfg); [|contradiction].
  unfold run_as, bind, emit, ret. cbn [blocks tiles trace]. now rewrite Hup.
Qed.

Lemma count_level a b c d v opts n ib :
  calls ([DagResolve a b; DagGet c d; DagPut v] ++ pin_events opts n ib) = 1
  /\ puts ([DagResolve a b; DagGet c d; DagPut v] ++ pin_events opts n ib) = 1.
Proof. unfold pin_events. destruct (pin opts); split; reflexivity. Qed.

(** The edit of a direct field of a map. *)
Lemma putInnerPath_field fuel fs k data :
  segment k = true -> is_nullish data = false ->
  putInnerPath fuel (VObj fs) ("/" ++ k) data = Ok (VObj (Prop_.assoc_set k data fs)).
Proof.
  intros Hk Hd.
  assert (Hs : JsString.split slash ("/" ++ k) = [""; k]).
  { change ("/" ++ k) with (String slash k). cbn [JsString.split].
    rewrite Ascii.eqb_refl. now rewrite split_no_sep by now apply segment_flat. }
  destruct fuel; cbn [putInnerPath]; rewrite Hs; cbn [length Nat.eqb andb seg nth];
    rewrite (segment_not_empty _ Hk); unfold assign_or_delete; now rewrite Hd.
Qed.

Lemma dag_resolve_linked st root ks c fs :
  Forall (fun k => segment k = true) ks ->
  node_at (blocks st) root ks = Some (c, fs) ->
  run_as (dag_resolve root (path_of ks)) st (Ok (c, "")) (blocks st)
         [DagResolve root (path_of ks)].
Proof.
  intros Hseg Hnode. unfold run_as, dag_resolve, bind, emit. cbn [blocks tiles trace].
  rewrite path_of_resolvable.
  destruct (node_at_root _ _ _ _ Hnode) as [fs0 Hroot]. rewrite Hroot.
  rewrite parts_path_of by exact Hseg.
  rewrite (resolve_walk_linked _ _ _ _ [] _ _ Hroot Hnode).
  now destruct ks.
Qed.

Lemma run_as_dag_put_ok v st :
  encodable v = true ->
  run_as (dag_put v) st (Ok (fst (Store.add v (blocks st))))
         (snd (Store.add v (blocks st))) [DagPut v].
Proof.
  intros H. unfold run_as, dag_put, bind, emit, set_blocks. cbn [blocks tiles trace].
  rewrite H. now destruct (Store.add v (blocks st)).
Qed.

Lemma run_as_dag_get_ok c v st :
  nth_error (blocks st) c = Some v ->
  run_as (dag_get c) st (Ok v) (blocks st) [DagGet c ""].
Proof.
  intros H. unfold run_as, dag_get, bind, emit. cbn [blocks tiles trace].
  now rewrite H.
Qed.

(** One call of [putPath] on a path of linked maps: the node that holds the
    last segment is read, edited and stored. *)
Lemma putPath_level_linked E cfg root ks k data opts st c fs :
  bare E cfg opts ->
  Forall (fun k => segment k = true) (ks ++ [k]) ->
  no_early_match (ks ++ [k]) = true ->
  node_at (blocks st) root ks = Some (c, fs) ->
  store_ok st = true -> encodable data = true -> is_nullish data = false ->
  let node := VObj (Prop_.assoc_set k data fs) in
  run_as (putPath_level E cfg root (path_of (ks ++ [k])) data opts) st
         (Ok (fst (Store.add node (blocks st)), path_of ks))
         (snd (Store.add node (blocks st)))
         ([DagResolve root (path_of ks); DagGet c ""; DagPut node]
            ++ pin_events opts node [])%list.
Proof.
  intros (Hleaf & Hparent & Hpin) Hseg Hno Hnode Hok Henc Hnn node.
  assert (Hks : Forall (fun k => segment k = true) ks).
  { apply Forall_app in Hseg. tauto. }
  assert (Hk : segment k = true).
  { apply Forall_app in Hseg as [_ H]. now inversion H. }
  pose proof (node_at_stored _ _ _ _ _ Hnode) as Hc.
  unfold putPath_level. rewrite Hleaf.
  rewrite (parentOf_path_of _ _ Hseg Hno), (lastSegment_path_of _ _ Hseg).
  eapply run_as_eq.
  { eapply run_as_bind; [apply run_as_ret|].
    eapply run_as_bind; [eapply dag_resolve_linked with (fs := fs); [exact Hks | exact Hnode]|].
    cbn [blocks tiles trace String.eqb].
    eapply run_as_bind.
    { apply run_as_dag_get_ok. exact Hc. }
    cbn [blocks tiles trace].
    eapply run_as_bind.
    { unfold replace_leaf. rewrite (putInnerPath_field _ _ _ _ Hk Hnn), Hparent.
      eapply (run_as_bind _ _ _ _ _ [] _ _ []).
      - eapply (run_as_bind _ _ _ _ _ [] _ _ []); [apply run_as_lift | apply run_as_ret].
      - apply run_as_ret. }
    cbn [blocks tiles trace filter_if_array].
    eapply run_as_bind.
    { apply run_as_dag_put_ok.
      apply encodable_assoc_set; [|exact Henc]. eapply store_ok_nth; eassumption. }
    cbn [blocks tiles trace].
    eapply run_as_bind; [apply pin_blocks_ok; exact Hpin|].
    apply run_as_ret. }
  cbn [app]. now rewrite app_nil_r.
Qed.


Lemma walk_field bs fs k data more :
  settable k fs ->
  Store.walk bs (VObj (Prop_.assoc_set k data fs)) (k :: more) = walk_from bs data more.
Proof. intros Hk. cbn [Store.walk Store.own_property]. now rewrite assoc_get_set. Qed.

(** [putPath] without schemas on a path of linked maps: every level is
    rewritten by one call, and the new root leads to the value. *)
Lemma putPath_linked E cfg root : forall ks fuel k data opts st c fs,
  length ks < fuel ->
  bare E cfg opts ->
  Forall (fun k => segment k = true) (ks ++ [k]) ->
  no_early_match (ks ++ [k]) = true ->
  node_at (blocks st) root ks = Some (c, fs) ->
  store_ok st = true -> encodable data = true -> is_nullish data = false ->
  exists newRoot bs evs v,
    run_as (putPath E cfg fuel root (path_of (ks ++ [k])) data opts) st
           (Ok newRoot) bs evs
    /\ (exists extra, bs = (blocks st ++ extra)%list)
    /\ forallb encodable bs = true
    /\ nth_error bs newRoot = Some v
    /\ (settable k fs ->
        forall more, Store.walk bs v (ks ++ k :: more) = walk_from bs data more)
    /\ calls evs = S (length ks) /\ puts evs = S (length ks).
Proof.
  induction ks as [|k' ks IH] using rev_ind;
    intros fuel k data opts st c fs Hfuel Hbare Hseg Hno Hnode Hok Henc Hnn.
  - destruct fuel as [|fuel]; [cbn in Hfuel; lia|].
    pose proof (putPath_level_linked E cfg root [] k data opts st c fs
                  Hbare Hseg Hno Hnode Hok Henc Hnn) as Hlevel.
    cbn zeta in Hlevel. set (node := VObj (Prop_.assoc_set k data fs)) in *.
    destruct (add_spec node (blocks st)) as [Hget Hgrow].
    destruct (count_level root (path_of []) c "" node opts node []) as [Hc1 Hp1].
    exists (fst (Store.add node (blocks st))), (snd (Store.add node (blocks st))),
           (([DagResolve root (path_of []); DagGet c ""; DagPut node]
               ++ pin_events opts node []) ++ [])%list, node.
    split.
    { cbn [putPath]. eapply run_as_bind; [exact Hlevel|]. apply run_as_ret. }
    split; [exact Hgrow|]. split.
    { apply add_keeps_ok; [exact Hok|]. apply encodable_assoc_set; [|exact Henc].
      eapply store_ok_nth; [exact Hok|]. eapply node_at_stored, Hnode. }
    split; [exact Hget|]. split; [intros Hset more; now apply walk_field|].
    rewrite calls_app, puts_app, Hc1, Hp1. split; reflexivity.
  - destruct fuel as [|fuel]; [cbn in Hfuel; lia|].
    rewrite length_app in Hfuel. cbn [length] in Hfuel.
    pose proof (putPath_level_linked E cfg root (ks ++ [k']) k data opts st c fs
                  Hbare Hseg Hno Hnode Hok Henc Hnn) as Hlevel.
    cbn zeta in Hlevel. set (node := VObj (Prop_.assoc_set k data fs)) in *.
    destruct (add_spec node (blocks st)) as [Hget [extra Hgrow]].
    set (newCid := fst (Store.add node (blocks st))) in *.
    set (bs1 := snd (Store.add node (blocks st))) in *.
    assert (Hseg' : Forall (fun k => segment k = true) (ks ++ [k'])).
    { apply Forall_app in Hseg. tauto. }
    destruct (node_at_snoc _ _ _ _ _ _ Hnode) as (c0 & fs0 & Hnode0 & Hlink).
    assert (Henc1 : forallb encodable bs1 = true).
    { apply add_keeps_ok; [exact Hok|]. apply encodable_assoc_set; [|exact Henc].
      eapply store_ok_nth; [exact Hok|]. eapply node_at_stored, Hnode. }
    destruct (count_level root (path_of (ks ++ [k'])) c "" node opts node [])
      as [Hc1 Hp1].
    set (evs1 := ([DagResolve root (path_of (ks ++ [k'])); DagGet c ""; DagPut node]
                    ++ pin_events opts node [])%list) in *.
    set (st1 := mkState bs1 (tiles st) (trace st ++ evs1)).
    destruct (IH fuel k' (VLink newCid) (pin_only opts) st1 c0 fs0)
      as (newRoot & bs & evs & v & Hrun & [extra' Hgrow'] & Hokbs & Hv & Hwalk & Hcalls & Hputs).
    { lia. }
    { now apply bare_pin_only. }
    { exact Hseg'. }
    { now apply no_early_match_init in Hno. }
    { cbn [blocks st1]. rewrite Hgrow. now apply node_at_grow. }
    { exact Henc1. }
    { reflexivity. }
    { reflexivity. }
    exists newRoot, bs, (evs1 ++ evs)%list, v.
    split.
    { cbn [putPath]. eapply run_as_bind; [exact Hlevel|].
      cbn beta iota.
      assert (Hnr : (path_of (ks ++ [k']) =? "/") || (path_of (ks ++ [k']) =? "") = false).
      { destruct (ks ++ [k'])%list as [|k1 rest] eqn:Eq; [now destruct ks|].
        apply path_of_not_root. now inversion Hseg'. }
      rewrite Hnr. exact Hrun. }
    split.
    { exists (extra ++ extra')%list. rewrite Hgrow'. cbn [blocks st1].
      rewrite Hgrow. now rewrite app_assoc. }
    split; [exact Hokbs|]. split; [exact Hv|]. split.
    { intros Hset more. rewrite <- app_assoc. cbn [app].
      rewrite (Hwalk (settable_present _ _ _ Hlink)).
      unfold walk_from at 1. cbn [Store.follow].
      assert (Hn : nth_error bs newCid = Some node).
      { rewrite Hgrow'. apply nth_error_grow. exact Hget. }
      rewrite Hn. now apply walk_field. }
    rewrite calls_app, puts_app, Hcalls, Hputs, Hc1, Hp1, length_app. cbn. split; lia.
Qed.





(** ** Linked paths: propagation to the root *)

(** After a level of [putPath] stored [node] under [newCid] and left the
    parent path [ks], the rest of the call rewrites every ancestor: the new
    root leads through [ks] to [node]. *)
Lemma putPath_propagate E cfg root ks fuel newCid node opts st c fs :
  length ks <= fuel ->
  bare E cfg (pin_only opts) ->
  Forall (fun k => segment k = true) ks ->
  no_early_match ks = true ->
  node_at (blocks st) root ks = Some (c, fs) ->
  store_ok st = true ->
  nth_error (blocks st) newCid = Some node ->
  exists newRoot bs evs v,
    run_as (if (path_of ks =? "/") || (path_of ks =? "") then ret newCid
            else putPath E cfg fuel root (path_of ks) (VLink newCid) (pin_only opts))
           st (Ok newRoot) bs evs
    /\ (exists extra, bs = (blocks st ++ extra)%list)
    /\ nth_error bs newRoot = Some v
    /\ (forall more, Store.walk bs v (ks ++ more) = Store.walk bs node more)
    /\ calls evs = length ks /\ puts evs = length ks.
Proof.
  intros Hfuel Hbare Hseg Hno Hnode Hok Hnew.
  destruct ks as [|k' ks] using rev_ind.
  - exists newCid, (blocks st), [], node. split; [apply run_as_ret|].
    split; [exists []; now rewrite app_nil_r|]. repeat split; assumption.
  - clear IHks.
    assert (Hnr : (path_of (ks ++ [k']) =? "/") || (path_of (ks ++ [k']) =? "") = false).
    { destruct (ks ++ [k'])%list as [|k1 rest] eqn:Eq; [now destruct ks|].
      apply path_of_not_root. now inversion Hseg. }
    rewrite Hnr.
    destruct (node_at_snoc _ _ _ _ _ _ Hnode) as (c0 & fs0 & Hnode0 & Hlink0).
    rewrite length_app in Hfuel. cbn [length] in Hfuel.
    destruct (putPath_linked E cfg root ks fuel k' (VLink newCid) (pin_only opts)
                st c0 fs0) as (newRoot & bs & evs & v & Hrun & [extra Hgrow] & _ & Hv & Hwalk & Hc & Hp);
      try assumption; try reflexivity; [lia|].
    specialize (Hwalk (settable_present _ _ _ Hlink0)).
    exists newRoot, bs, evs, v. split; [exact Hrun|].
    split; [now exists extra|]. split; [exact Hv|]. split.
    + intros more. rewrite <- app_assoc. cbn [app]. rewrite Hwalk.
      unfold walk_from. cbn [Store.follow].
      rewrite Hgrow, (nth_error_grow _ extra _ _ Hnew). reflexivity.
    + rewrite length_app. cbn [length]. split; lia.
Qed.

Lemma assoc_set_twice k v w fs :
  Prop_.assoc_set k v (Prop_.assoc_set k w fs) = Prop_.assoc_set k v fs.
Proof.
  induction fs as [|[k' x] fs IH]; cbn [Prop_.assoc_set].
  - destruct (Prop_.plain_key k) eqn:Hk; cbn [Prop_.assoc_set];
      [now rewrite String.eqb_refl | now rewrite Hk].
  - destruct (k' =? k) eqn:Eq; cbn [Prop_.assoc_set]; rewrite Eq;
      [reflexivity | now rewrite IH].
Qed.

Lemma get_local_ok E cfg root path schema st v :
  fst (dag_get_path root path st) = Ok v ->
  fst (get E cfg root path schema st) = Ok (schema_view E schema v).
Proof.
  unfold get, bind, try_catch, schema_view.
  destruct (dag_get_path root path st) as [[w| |] st1]; cbn [fst]; try discriminate.
  intros [= ->]. destruct (configured schema); reflexivity.
Qed.

Lemma dag_get_path_walk root path st v w :
  nth_error (blocks st) root = Some v ->
  Store.walk (blocks st) v (Store.parts path) = Some w ->
  fst (dag_get_path root path st) = Ok w.
Proof.
  intros Hv Hw. unfold dag_get_path, bind, emit. cbn [blocks].
  now rewrite Hv, Hw.
Qed.

Lemma path_of_one k : path_of [k] = "/" ++ k.
Proof. cbn [path_of]. now rewrite append_nil_r. Qed.

Lemma dag_resolve_root st root v :
  nth_error (blocks st) root = Some v ->
  run_as (dag_resolve root "") st (Ok (root, "")) (blocks st) [DagResolve root ""].
Proof.
  intros Hv. unfold run_as, dag_resolve, bind, emit. cbn [blocks tiles trace].
  now rewrite Hv.
Qed.

Lemma encodable_compact l :
  forallb encodable l = true -> forallb encodable (compact l) = true.
Proof.
  unfold compact. induction l as [|x l IH]; [reflexivity|].
  cbn [forallb filter]. intros H. apply andb_true_iff in H as [Hx Hl].
  destruct (truthy x); [cbn [forallb]; now rewrite Hx, IH | now apply IH].
Qed.

Lemma encodable_filter_if_array v :
  encodable v = true -> encodable (filter_if_array v) = true.
Proof.
  destruct v; try (intros H; exact H). cbn [filter_if_array encodable].
  apply encodable_compact.
Qed.

Lemma putInnerPath_one fuel node k data :
  segment k = true ->
  putInnerPath fuel node ("/" ++ k) data = assign_or_delete node k data.
Proof.
  intros Hk.
  assert (Hs : JsString.split slash ("/" ++ k) = [""; k]).
  { change ("/" ++ k) with (String slash k). cbn [JsString.split].
    rewrite Ascii.eqb_refl. now rewrite split_no_sep by now apply segment_flat. }
  destruct fuel; cbn [putInnerPath]; rewrite Hs; cbn [length Nat.eqb andb seg nth];
    now rewrite (segment_not_empty _ Hk).
Qed.

(** ** Containers: the node that holds the target, a map or a list *)






















(** ** The claims *)

(** C6: if [leafSchema] is configured and the typed-to-representation
    transform of the supplied value is undefined, [putPath] throws at once
    and leaves the whole state as it was: no block-store read or write, no
    upload, no call of any collaborator is made (the trace is unchanged).
    It holds for every value, the non-null ones included. *)
Theorem putPath_leaf_schema_rejects :
  forall (E : Env) (cfg : ConfigOptions) (fuel : nat) (root : cid)
         (path : string) (data : value) (opts : PutOptions) (sch : string)
         (st : state),
    configured (leafSchema opts) = Some sch ->
    toRepresentation E sch data = None ->
    putPath E cfg (S fuel) root path data opts st = (Throw leafSchemaMismatch, st).
Proof.
  intros E cfg fuel root path data opts sch st Hsch Hrep.
  cbn [putPath]. unfold bind, putPath_level, bind.
  rewrite Hsch, Hrep. reflexivity.
Qed.

Lemma putPath_leaf_schema_rejects_witness :
  configured (leafSchema (Ex.leaf "BasicProfile")) = Some "BasicProfile"
  /\ toRepresentation Ex.env_none "BasicProfile" (VNum 7) = None
  /\ putPath Ex.env_none Ex.no_gateway 3 0 "/a/b" (VNum 7) (Ex.leaf "BasicProfile")
             Ex.three_levels
     = (Throw leafSchemaMismatch, Ex.three_levels).
Proof.
  split; [reflexivity|]. split; [reflexivity|].
  apply (putPath_leaf_schema_rejects Ex.env_none Ex.no_gateway 2 0 "/a/b"
           (VNum 7) (Ex.leaf "BasicProfile") "BasicProfile" Ex.three_levels);
    reflexivity.
Defined.







Lemma encodable_assoc_get k fs v :
  encodable (VObj fs) = true -> Prop_.assoc_get k fs = Some v -> encodable v = true.
Proof.
  cbn [encodable]. induction fs as [|[k' w] fs IH]; cbn; [discriminate|].
  intros H. apply andb_true_iff in H as [Hw Hfs].
  destruct (k' =? k); [now intros [= <-] | now apply IH].
Qed.

Lemma split_two k' k :
  segment k' = true -> segment k = true ->
  JsString.split slash ("/" ++ k' ++ "/" ++ k) = [""; k'; k].
Proof.
  intros Hk' Hk. change ("/" ++ k' ++ "/" ++ k) with (String slash (k' ++ String slash k)).
  cbn [JsString.split]. rewrite Ascii.eqb_refl.
  rewrite split_app_flat by now apply segment_flat.
  cbn [JsString.split]. rewrite Ascii.eqb_refl.
  rewrite split_no_sep by now apply segment_flat. now rewrite append_nil_r.
Qed.






Lemma dag_get_path_state root path st :
  snd (dag_get_path root path st)
  = mkState (blocks st) (tiles st) (trace st ++ [DagGet root path]).
Proof.
  unfold dag_get_path, bind, emit. cbn [blocks tiles trace].
  destruct (nth_error (blocks st) root) as [v|]; [|reflexivity].
  destruct (Store.walk (blocks st) v (Store.parts path)); reflexivity.
Qed.

(** C8 (amended): if local resolution throws and the gateway fallback
    fails or no gateway is configured, [get] does not throw: it returns
    [undefined], passed through the schema conversion when a schema is
    given, and leaves the block store as it was.  It logs a warning when
    the gateway was tried and failed, an informational message when no
    gateway is configured. *)
Theorem get_absorbs_retrieval_failure :
  forall (E : Env) (cfg : ConfigOptions) (root : cid) (path : string)
         (schema : option string) (st : state) (e : error),
    fst (dag_get_path root path st) = Throw e ->
    gateway_fails E cfg root path ->
    get E cfg root path schema st
    = (Ok (schema_view E schema VUndef),
       mkState (blocks st) (tiles st)
               (trace st ++ DagGet root path :: fallback_log cfg root path)).
Proof.
  intros E cfg root path schema st e Hlocal Hgw.
  pose proof (dag_get_path_state root path st) as Hst.
  unfold get, bind, try_catch, schema_view, gateway_fails, fallback_log in *.
  destruct (dag_get_path root path st) as [r st1]. cbn [fst snd] in *. subst r st1.
  destruct (configured (ipfsGatewayHost cfg)) as [host|].
  - unfold emit, bind, throw, ret. cbn [blocks tiles trace].
    destruct (axios_get E (gateway_url host root path)) as [bytes|].
    + rewrite Hgw. cbn [blocks tiles trace]. rewrite <- !app_assoc.
      destruct (configured schema); reflexivity.
    + cbn [blocks tiles trace]. rewrite <- !app_assoc.
      destruct (configured schema); reflexivity.
  - unfold emit, bind, ret. cbn [blocks tiles trace]. rewrite <- !app_assoc.
    destruct (configured schema); reflexivity.
Qed.

Lemma get_absorbs_retrieval_failure_witness :
  fst (dag_get_path 0 "/a" Ex.empty_root) = Throw (ErrCode "ERR_NO_LINK")
  /\ gateway_fails Ex.env Ex.with_gateway 0 "/a"
  /\ get Ex.env Ex.with_gateway 0 "/a" None Ex.empty_root
     = (Ok VUndef,
        mkState [VObj []] []
          [DagGet 0 "/a";
           Console LDebug "Retrieving raw block from: https://gw/ipfs/0//a";
           HttpGet "https://gw/ipfs/0//a";
           Console LWarn "Could not retrieve raw block: "]).
Proof.
  split; [reflexivity|]. split; [exact I|].
  apply (get_absorbs_retrieval_failure Ex.env Ex.with_gateway 0 "/a" None
           Ex.empty_root (ErrCode "ERR_NO_LINK")); [reflexivity | exact I].
Defined.

Lemma CID_parse_pure v s s0 : CID_parse v s = (fst (CID_parse v s0), s).
Proof.
  unfold CID_parse. destruct v; try reflexivity.
  destruct (Prop_.array_index s1); reflexivity.
Qed.

(** The first fallback of [resolveRoot]: the document of the owner as
    supplied holds a root. *)
Lemma resolveRoot_first (opts : ParcelOptions) (st : state) :
  truthy (stored_root (tiles st) (ownerDID opts) (parcelId opts)) = true ->
  resolveRoot opts st
  = (fst (CID_parse (stored_root (tiles st) (ownerDID opts) (parcelId opts)) st),
     mkState (blocks st) (tiles st)
             (trace st ++ [TileLoad (ownerDID opts) (parcelId opts)])).
Proof.
  intros H1. unfold stored_root in *.
  unfold resolveRoot, TileDocument_deterministic, bind, emit, ret.
  cbn [blocks tiles trace]. rewrite H1. cbn [negb blocks tiles trace]. rewrite ?H1.
  apply CID_parse_pure.
Qed.

(** The second fallback: only the document of the lower-cased owner holds
    a root. *)
Lemma resolveRoot_second (opts : ParcelOptions) (st : state) :
  truthy (stored_root (tiles st) (ownerDID opts) (parcelId opts)) = false ->
  truthy (stored_root (tiles st) (JsString.toLowerCase (ownerDID opts))
                      (parcelId opts)) = true ->
  resolveRoot opts st
  = (fst (CID_parse (stored_root (tiles st) (JsString.toLowerCase (ownerDID opts))
                                 (parcelId opts)) st),
     mkState (blocks st) (tiles st)
             (trace st ++ [TileLoad (ownerDID opts) (parcelId opts);
                           TileLoad (JsString.toLowerCase (ownerDID opts))
                                    (parcelId opts)])).
Proof.
  intros H1 H2. unfold stored_root in *.
  unfold resolveRoot, TileDocument_deterministic, bind, emit, ret.
  cbn [blocks tiles trace]. rewrite H1. cbn [negb blocks tiles trace]. rewrite H2.
  rewrite <- app_assoc. apply CID_parse_pure.
Qed.

(** The third fallback: neither document holds a root. *)
Lemma resolveRoot_third (opts : ParcelOptions) (st : state) :
  truthy (stored_root (tiles st) (ownerDID opts) (parcelId opts)) = false ->
  truthy (stored_root (tiles st) (JsString.toLowerCase (ownerDID opts))
                      (parcelId opts)) = false ->
  resolveRoot opts st
  = (Ok (fst (Store.add (VObj []) (blocks st))),
     mkState (snd (Store.add (VObj []) (blocks st))) (tiles st)
             (trace st ++ [TileLoad (ownerDID opts) (parcelId opts);
                           TileLoad (JsString.toLowerCase (ownerDID opts))
                                    (parcelId opts);
                           DagPut (VObj [])])).
Proof.
  intros H1 H2. unfold stored_root in *.
  unfold resolveRoot, TileDocument_deterministic, bind, emit, ret.
  cbn [blocks tiles trace]. rewrite H1. cbn [negb blocks tiles trace]. rewrite H2.
  unfold dag_put, bind, emit, set_blocks. cbn [blocks tiles trace encodable forallb].
  destruct (Store.add (VObj []) (blocks st)) as [c bs]. cbn [fst snd blocks tiles trace].
  now rewrite <- !app_assoc.
Qed.

Lemma no_update_app evs new :
  filter is_tile_update new = [] ->
  filter is_tile_update (evs ++ new) = filter is_tile_update evs.
Proof. intros H. now rewrite filter_app, H, app_nil_r. Qed.

(** C9: [resolveRoot] first loads the document of the owner as supplied;
    only if it holds no root does it load the document of the lower-cased
    owner; the root found is parsed and returned.  If neither holds a root
    it returns the CID of an empty map it puts in the block store.  In
    every case the pointer service is left as it was and no update is
    sent to it. *)
Theorem resolveRoot_fallback_chain :
  forall (opts : ParcelOptions) (st : state),
    let owner := ownerDID opts in
    let lower := JsString.toLowerCase (ownerDID opts) in
    let first := stored_root (tiles st) owner (parcelId opts) in
    let second := stored_root (tiles st) lower (parcelId opts) in
    let r := fst (resolveRoot opts st) in
    let st' := snd (resolveRoot opts st) in
    tiles st' = tiles st
    /\ filter is_tile_update (trace st') = filter is_tile_update (trace st)
    /\ (truthy first = true ->
        r = fst (CID_parse first st)
        /\ trace st' = (trace st ++ [TileLoad owner (parcelId opts)])%list
        /\ blocks st' = blocks st)
    /\ (truthy first = false -> truthy second = true ->
        r = fst (CID_parse second st)
        /\ trace st' = (trace st ++ [TileLoad owner (parcelId opts);
                                     TileLoad lower (parcelId opts)])%list
        /\ blocks st' = blocks st)
    /\ (truthy first = false -> truthy second = false ->
        r = Ok (fst (Store.add (VObj []) (blocks st)))
        /\ trace st' = (trace st ++ [TileLoad owner (parcelId opts);
                                     TileLoad lower (parcelId opts);
                                     DagPut (VObj [])])%list
        /\ blocks st' = snd (Store.add (VObj []) (blocks st))).
Proof.
  intros opts st owner lower first second r st'. subst r st'.
  destruct (truthy first) eqn:H1; [|destruct (truthy second) eqn:H2].
  - rewrite (resolveRoot_first opts st H1). cbn [fst snd blocks tiles trace].
    split; [reflexivity|]. split; [now apply no_update_app|].
    split; [auto|]. split; intros; discriminate.
  - rewrite (resolveRoot_second opts st H1 H2). cbn [fst snd blocks tiles trace].
    split; [reflexivity|]. split; [now apply no_update_app|].
    split; [intros; discriminate|]. split; [auto | intros; discriminate].
  - rewrite (resolveRoot_third opts st H1 H2). cbn [fst snd blocks tiles trace].
    split; [reflexivity|]. split; [now apply no_update_app|].
    split; [intros; discriminate|]. split; [intros; discriminate | auto].
Qed.

Lemma resolveRoot_fallback_chain_witness :
  truthy (stored_root (tiles Ex.lower_only) "0xABC" "1") = false
  /\ truthy (stored_root (tiles Ex.lower_only) "0xabc" "1") = true
  /\ fst (resolveRoot Ex.parcel Ex.lower_only) = Ok 1
  /\ trace (snd (resolveRoot Ex.parcel Ex.lower_only))
     = [TileLoad "0xABC" "1"; TileLoad "0xabc" "1"].
Proof.
  destruct (resolveRoot_fallback_chain Ex.parcel Ex.lower_only)
    as (_ & _ & _ & H & _).
  destruct (H eq_refl eq_refl) as (Hr & Ht & _).
  split; [reflexivity|]. split; [reflexivity|]. split; [exact Hr | exact Ht].
Defined.

Lemma find_from_none v : forall bs i,
  ~ In v bs -> Store.find_from i v bs = None.
Proof.
  intros bs i Hn. destruct (Store.find_from i v bs) as [j|] eqn:Hf; [|reflexivity].
  apply find_from_sound in Hf as [_ Hf]. apply nth_error_In in Hf. contradiction.
Qed.

(** C10: when neither document holds a root, [resolveRoot] is not
    read-only: it calls [dag.put] with the empty map, the block store holds
    the empty map under the CID returned (as a new block when it held none
    before), while the pointer service is unchanged and receives no
    update. *)
Theorem resolveRoot_writes_empty_node :
  forall (opts : ParcelOptions) (st : state),
    truthy (stored_root (tiles st) (ownerDID opts) (parcelId opts)) = false ->
    truthy (stored_root (tiles st) (JsString.toLowerCase (ownerDID opts))
                        (parcelId opts)) = false ->
    exists c st',
      resolveRoot opts st = (Ok c, st')
      /\ In (DagPut (VObj [])) (trace st')
      /\ nth_error (blocks st') c = Some (VObj [])
      /\ (~ In (VObj []) (blocks st) -> blocks st' = (blocks st ++ [VObj []])%list)
      /\ tiles st' = tiles st
      /\ filter is_tile_update (trace st') = filter is_tile_update (trace st).
Proof.
  intros opts st H1 H2.
  pose proof (resolveRoot_third opts st H1 H2) as Hrun.
  destruct (add_spec (VObj []) (blocks st)) as [Hget _].
  eexists _, _. split; [exact Hrun|]. cbn [blocks tiles trace].
  split; [apply in_or_app; right; cbn; tauto|].
  split; [exact Hget|]. split.
  { intros Hn. unfold Store.add. now rewrite find_from_none. }
  split; [reflexivity | now apply no_update_app].
Qed.

(* ===================================================================== *)
(** ** The claims settled on concrete inputs                             *)
(* ===================================================================== *)

(** C1 (code defect, evaluated at the failing input): deleting index 1 of the
    stored list [[0, "b", "c"]] through [deletePath(root, "/a/1")] stores
    the list [["c"]]: the filter that the source announces as "Filter
    undefined from arrays" also drops the surviving entry [0], which is
    present but falsy; the claim says the result is [[0, "c"]]. *)
Theorem deletePath_drops_falsy_survivor :
  let '(r, st') := deletePath Ex.env Ex.no_gateway 2 1 "/a/1" Ex.plain Ex.gallery in
  r = Ok 3
  /\ nth_error (blocks st') 3 = Some (VObj [("a", VLink 2)])
  /\ nth_error (blocks st') 2 = Some (VArr [VStr "c"])
  /\ compact [VNum 0; VUndef; VStr "c"] <> [VNum 0; VStr "c"].
Proof. vm_compute. repeat split. discriminate. Qed.

(** C3 (code defect, evaluated at the failing input): on the path
    [/a/b/a] the last segment is [a], but [parentPath] is [/b/a], not
    [/a/b]: [replace] removes the first occurrence of [/a].  The call
    resolves [/b/a] against the root, and on a tree that has both [/a/b]
    and [/b/a] the value 9 is written at [/b/a/a]; [/a/b/a] still holds
    nothing. *)
Theorem parentOf_cuts_first_match :
  lastSegment "/a/b/a" = "a"
  /\ parentOf "/a/b/a" = "/b/a"
  /\ parentOf "/a/b/a" <> "/a/b"
  /\ (let '(r, st') :=
        putPath Ex.env Ex.no_gateway 3 0 "/a/b/a" (VNum 9) Ex.plain Ex.crossed in
      r = Ok 7
      /\ nth_error (trace st') 0 = Some (DagResolve 0 "/b/a")
      /\ fst (get Ex.env Ex.no_gateway 7 "/b/a/a" None st') = Ok (VNum 9)
      /\ fst (get Ex.env Ex.no_gateway 7 "/a/b/a" None st') = Ok VUndef).
Proof. vm_compute. repeat split. discriminate. Qed.





(** C8, counterexample: local resolution fails and no gateway is
    configured; [get] returns [undefined] without throwing, but what it
    logs is an informational message, not a warning. *)
Lemma no_gateway_logs_no_warning :
  let '(r, st') := get Ex.env Ex.no_gateway 0 "/a" None Ex.empty_root in
  fst (dag_get_path 0 "/a" Ex.empty_root) = Throw (ErrCode "ERR_NO_LINK")
  /\ gateway_fails Ex.env Ex.no_gateway 0 "/a"
  /\ r = Ok VUndef
  /\ trace st'
     = [DagGet 0 "/a";
        Console LInfo "Skipping gateway lookup. ipfsGatewayHost not found"]
  /\ filter is_warn (trace st') = [].
Proof. vm_compute. repeat split. Qed.



Lemma resolveRoot_writes_empty_node_witness :
  exists c st',
    resolveRoot Ex.parcel (mkState [] [] []) = (Ok c, st')
    /\ In (DagPut (VObj [])) (trace st')
    /\ nth_error (blocks st') c = Some (VObj [])
    /\ blocks st' = [VObj []]
    /\ tiles st' = [].
Proof.
  destruct (resolveRoot_writes_empty_node Ex.parcel (mkState [] [] []))
    as (c & st' & H1 & H2 & H3 & H4 & H5 & _); try reflexivity.
  exists c, st'. repeat split; try assumption.
  apply H4. intros [].
Defined.

(* ===================================================================== *)
(** * Part III: further properties of the class                          *)
(* ===================================================================== *)

(** ** What every call keeps: an append-only store, an untouched pointer
    service, a bounded set of collaborators *)

Lemma orderly_ret {A} P (a : A) : orderly P (ret a).
Proof.
  intros st. exists (Ok a), [], []. rewrite !app_nil_r. destruct st. now repeat split.
Qed.

Lemma orderly_throw {A} P e : orderly P (@throw A e).
Proof.
  intros st. exists (Throw e), [], []. rewrite !app_nil_r. destruct st. now repeat split.
Qed.

Lemma orderly_lift {A} P (o : outcome A) : orderly P (lift o).
Proof.
  intros st. exists o, [], []. rewrite !app_nil_r. destruct st. now repeat split.
Qed.

Lemma orderly_emit P ev : P ev = true -> orderly P (emit ev).
Proof.
  intros H st. exists (Ok tt), [], [ev]. rewrite app_nil_r. unfold emit.
  split; [reflexivity|]. cbn. now rewrite H.
Qed.

Lemma orderly_bind {A B} P (m : M A) (f : A -> M B) :
  orderly P m -> (forall a, orderly P (f a)) -> orderly P (bind m f).
Proof.
  intros Hm Hf st. destruct (Hm st) as (r1 & e1 & v1 & H1 & Hp1 & Hc1).
  unfold bind. rewrite H1. destruct r1 as [a| |].
  - destruct (Hf a (mkState (blocks st ++ e1) (tiles st) (trace st ++ v1)))
      as (r & e2 & v2 & H2 & Hp2 & Hc2).
    cbn [blocks tiles trace] in H2.
    exists r, (e1 ++ e2)%list, (v1 ++ v2)%list. rewrite H2, !app_assoc.
    split; [reflexivity|]. rewrite !forallb_app, Hp1, Hp2, Hc1, Hc2. now split.
  - exists (Throw e), e1, v1. now repeat split.
  - exists OutOfFuel, e1, v1. now repeat split.
Qed.

Lemma orderly_try_catch {A} P (m : M A) (h : error -> M A) :
  orderly P m -> (forall e, orderly P (h e)) -> orderly P (try_catch m h).
Proof.
  intros Hm Hh st. destruct (Hm st) as (r1 & e1 & v1 & H1 & Hp1 & Hc1).
  unfold try_catch. rewrite H1. destruct r1 as [a|e|].
  - exists (Ok a), e1, v1. now repeat split.
  - destruct (Hh e (mkState (blocks st ++ e1) (tiles st) (trace st ++ v1)))
      as (r & e2 & v2 & H2 & Hp2 & Hc2).
    cbn [blocks tiles trace] in H2.
    exists r, (e1 ++ e2)%list, (v1 ++ v2)%list. rewrite H2, !app_assoc.
    split; [reflexivity|]. rewrite !forallb_app, Hp1, Hp2, Hc1, Hc2. now split.
  - exists OutOfFuel, e1, v1. now repeat split.
Qed.

Lemma orderly_dag_put P v : P (DagPut v) = true -> orderly P (dag_put v).
Proof.
  intros H st. unfold dag_put, bind, emit, set_blocks. cbn [blocks tiles trace].
  destruct (encodable v) eqn:Henc.
  - unfold Store.add. destruct (Store.find_from 0 v (blocks st)).
    + exists (Ok n), [], [DagPut v]. rewrite app_nil_r. cbn. now rewrite H.
    + exists (Ok (length (blocks st))), [v], [DagPut v]. cbn. now rewrite H, Henc.
  - eexists _, [], [DagPut v]. rewrite app_nil_r. cbn. now rewrite H.
Qed.

Lemma orderly_pure {A} P ev (m : M A) :
  P ev = true ->
  (forall st, snd (m st) = st) ->
  orderly P (bind (emit ev) (fun _ => m)).
Proof.
  intros H Hm st. unfold bind, emit.
  set (s1 := mkState (blocks st) (tiles st) (trace st ++ [ev])).
  pose proof (Hm s1) as Hs. destruct (m s1) as [r s2]. cbn [snd] in Hs. subst s2.
  exists r, [], [ev]. rewrite app_nil_r. cbn. rewrite H. now destruct r.
Qed.

Lemma orderly_dag_get P c : P (DagGet c "") = true -> orderly P (dag_get c).
Proof.
  intros H. apply orderly_pure; [exact H|].
  intros st. now destruct (nth_error (blocks st) c).
Qed.

Lemma orderly_dag_get_path P root path :
  P (DagGet root path) = true -> orderly P (dag_get_path root path).
Proof.
  intros H. apply orderly_pure; [exact H|].
  intros st. destruct (nth_error (blocks st) root) as [v|]; [|reflexivity].
  now destruct (Store.walk (blocks st) v (Store.parts path)).
Qed.

Lemma orderly_dag_resolve P root pp :
  P (DagResolve root pp) = true -> orderly P (dag_resolve root pp).
Proof.
  intros H. apply orderly_pure; [exact H|].
  intros st. destruct ((pp =? "") || JsString.prefix "/" pp); [|reflexivity].
  destruct (nth_error (blocks st) root) as [v|]; [|reflexivity].
  now destruct (Store.resolve_walk _ _ _ _ _) as [[c rem]|].
Qed.

Lemma orderly_replace_leaf E val editPath newData opts :
  orderly (put_call opts) (replace_leaf E val editPath newData opts).
Proof.
  unfold replace_leaf. apply orderly_bind; [apply orderly_lift|]. intros edited.
  destruct (configured (parentSchema opts)) as [sch|]; [|apply orderly_ret].
  destruct (truthy _ && is_undefined _); [|apply orderly_ret].
  apply orderly_bind; [now apply orderly_dag_put|]. intros l.
  apply orderly_bind; [apply orderly_lift|]. intros nv.
  destruct (toRepresentation E sch nv); [apply orderly_ret | apply orderly_throw].
Qed.

Lemma orderly_pin_blocks E cfg opts nv ib :
  orderly (put_call opts) (pin_blocks E cfg opts nv ib).
Proof.
  unfold pin_blocks. destruct (pin opts) eqn:Hpin; [|apply orderly_ret].
  destruct (w3InvocationConfig cfg); [|apply orderly_throw].
  apply orderly_bind; [apply orderly_emit; exact Hpin|]. intros _.
  destruct (uploadCAR E (nv :: ib)); [apply orderly_ret|].
  apply orderly_bind; [apply orderly_emit; exact Hpin | intros _; apply orderly_throw].
Qed.

Lemma orderly_putPath_level E cfg root path data opts :
  orderly (put_call opts) (putPath_level E cfg root path data opts).
Proof.
  unfold putPath_level. apply orderly_bind.
  { destruct (configured (leafSchema opts)) as [sch|]; [|apply orderly_ret].
    destruct (toRepresentation E sch data); [apply orderly_ret | apply orderly_throw]. }
  intros newData. apply orderly_bind; [now apply orderly_dag_resolve|].
  intros [c rem]. apply orderly_bind; [now apply orderly_dag_get|].
  intros val. apply orderly_bind.
  { destruct (rem =? "");
      (apply orderly_bind; [apply orderly_replace_leaf|]; intros [nv ib]; apply orderly_ret). }
  intros [[nv ib] pp]. apply orderly_bind; [now apply orderly_dag_put|].
  intros newCid. apply orderly_bind; [apply orderly_pin_blocks|].
  intros _. apply orderly_ret.
Qed.

Lemma orderly_putPath E cfg root : forall fuel path data opts,
  orderly (put_call opts) (putPath E cfg fuel root path data opts).
Proof.
  induction fuel as [|fuel IH]; intros path data opts; cbn [putPath].
  - apply orderly_lift.
  - apply orderly_bind; [apply orderly_putPath_level|]. intros [newCid pp].
    destruct ((pp =? "/") || (pp =? "")); [apply orderly_ret|].
    exact (IH pp (VLink newCid) (pin_only opts)).
Qed.

Lemma orderly_block_put E P bytes :
  P (BlockPut bytes) = true -> orderly P (block_put E bytes).
Proof.
  intros H st. unfold block_put, bind, emit, set_blocks. cbn [blocks tiles trace].
  assert (Hnone : exists r extra evs,
             (Ok tt, mkState (blocks st) (tiles st) (trace st ++ [BlockPut bytes]))
             = (r, mkState (blocks st ++ extra) (tiles st) (trace st ++ evs))
             /\ forallb P evs = true /\ forallb encodable extra = true).
  { exists (Ok tt), [], [BlockPut bytes]. rewrite app_nil_r. cbn. now rewrite H. }
  destruct (Block_decode E bytes) as [v|]; [|exact Hnone].
  destruct (encodable v) eqn:Henc; [|exact Hnone].
  unfold Store.add. destruct (Store.find_from 0 v (blocks st)); [exact Hnone|].
  exists (Ok tt), [v], [BlockPut bytes]. cbn. now rewrite H, Henc.
Qed.

Lemma orderly_get E cfg root path schema :
  orderly get_call (get E cfg root path schema).
Proof.
  unfold get. apply orderly_bind.
  - apply orderly_try_catch; [now apply orderly_dag_get_path|]. intros _.
    destruct (configured (ipfsGatewayHost cfg)) as [host|].
    + apply orderly_try_catch.
      * apply orderly_bind; [now apply orderly_emit|]. intros _.
        apply orderly_bind; [now apply orderly_emit|]. intros _.
        destruct (axios_get E _) as [bytes|]; [|apply orderly_throw].
        destruct (Block_decode E bytes); [|apply orderly_throw].
        apply orderly_bind; [now apply orderly_block_put | intros _; apply orderly_ret].
      * intros _. apply orderly_bind; [now apply orderly_emit | intros _; apply orderly_ret].
    + apply orderly_bind; [now apply orderly_emit | intros _; apply orderly_ret].
  - intros v. destruct (configured schema); apply orderly_ret.
Qed.

Lemma walk_grow bs extra ps : forall v w,
  Store.walk bs v ps = Some w -> Store.walk (bs ++ extra) v ps = Some w.
Proof.
  induction ps as [|key rest IH]; intros v w H; [exact H|].
  cbn [Store.walk] in *. destruct (Store.own_property v key) as [x|]; [|discriminate].
  destruct x; cbn [Store.follow] in *; try (now apply IH).
  destruct (nth_error bs c) as [y|] eqn:Hc; [|discriminate].
  rewrite (nth_error_grow _ extra _ _ Hc). now apply IH.
Qed.

(** A local read that succeeds depends on the blocks only, and survives
    the growth of the store. *)
Lemma dag_get_path_grow c q st st' extra w :
  blocks st' = (blocks st ++ extra)%list ->
  fst (dag_get_path c q st) = Ok w -> fst (dag_get_path c q st') = Ok w.
Proof.
  intros Hb. unfold dag_get_path, bind, emit. cbn [blocks]. rewrite Hb.
  destruct (nth_error (blocks st) c) as [v|] eqn:Hc; [|discriminate].
  rewrite (nth_error_grow _ extra _ _ Hc).
  destruct (Store.walk (blocks st) v (Store.parts q)) as [x|] eqn:Hw; [|discriminate].
  now rewrite (walk_grow _ extra _ _ _ Hw).
Qed.

(** X1: whatever its arguments, and whether it returns or throws, [putPath]
    leaves the pointer service as it was and keeps every stored node: a
    local read that succeeded before the call yields the same value after
    it. *)
Theorem putPath_keeps_old_reads :
  forall (E : Env) (cfg : ConfigOptions) (fuel : nat) (root : cid) (path : string)
         (data : value) (opts : PutOptions) (st : state) (c : cid) (q : string)
         (w : value),
    fst (dag_get_path c q st) = Ok w ->
    let st' := snd (putPath E cfg fuel root path data opts st) in
    fst (dag_get_path c q st') = Ok w /\ tiles st' = tiles st.
Proof.
  intros E cfg fuel root path data opts st c q w Hread st'. subst st'.
  destruct (orderly_putPath E cfg root fuel path data opts st)
    as (r & extra & evs & Hrun & _ & _).
  rewrite Hrun. cbn [snd tiles]. split; [|reflexivity].
  now apply (dag_get_path_grow c q st _ extra).
Qed.

Lemma putPath_keeps_old_reads_witness :
  fst (dag_get_path 0 "/a/b/c" Ex.three_levels) = Ok (VNum 1)
  /\ fst (dag_get_path 0 "/a/b/c"
            (snd (putPath Ex.env Ex.no_gateway 3 0 "/a/b/c" (VNum 9) Ex.plain
                    Ex.three_levels))) = Ok (VNum 1).
Proof.
  split; [reflexivity|].
  apply (putPath_keeps_old_reads Ex.env Ex.no_gateway 3 0 "/a/b/c" (VNum 9) Ex.plain
           Ex.three_levels 0 "/a/b/c" (VNum 1)).
  reflexivity.
Defined.

(** X2: the only collaborators [putPath] calls are the block store
    ([dag.resolve], [dag.get], [dag.put]) and, when [pin] is set, the
    archive upload with its error log: it never calls the gateway or the
    pointer service, and without [pin] it uploads nothing. *)
Theorem putPath_calls_only_store_and_upload :
  forall (E : Env) (cfg : ConfigOptions) (fuel : nat) (root : cid) (path : string)
         (data : value) (opts : PutOptions) (st : state),
    exists evs,
      trace (snd (putPath E cfg fuel root path data opts st)) = (trace st ++ evs)%list
      /\ forallb (put_call opts) evs = true
      /\ (if pin opts then True else filter is_upload evs = []).
Proof.
  intros E cfg fuel root path data opts st.
  destruct (orderly_putPath E cfg root fuel path data opts st)
    as (r & extra & evs & Hrun & Hcalls & _).
  exists evs. rewrite Hrun. split; [reflexivity|]. split; [exact Hcalls|].
  destruct (pin opts) eqn:Hpin; [exact I|].
  clear Hrun. induction evs as [|ev evs IH]; [reflexivity|].
  cbn [forallb] in Hcalls. apply andb_true_iff in Hcalls as [Hev Hrest].
  cbn [filter]. destruct ev; cbn in Hev |- *; try (now apply IH).
  congruence.
Qed.

(** X3: [get] never writes to the pointer service and never drops a stored
    node: a local read that succeeded before the call yields the same value
    after it; the only calls it makes are one read of the block store, the
    gateway request with its cache write, and the console. *)
Theorem get_keeps_store_and_pointers :
  forall (E : Env) (cfg : ConfigOptions) (root : cid) (path : string)
         (schema : option string) (st : state) (c : cid) (q : string) (w : value),
    fst (dag_get_path c q st) = Ok w ->
    let st' := snd (get E cfg root path schema st) in
    fst (dag_get_path c q st') = Ok w
    /\ tiles st' = tiles st
    /\ exists evs, trace st' = (trace st ++ evs)%list /\ forallb get_call evs = true.
Proof.
  intros E cfg root path schema st c q w Hread st'. subst st'.
  destruct (orderly_get E cfg root path schema st) as (r & extra & evs & Hrun & Hc & _).
  rewrite Hrun. cbn [snd tiles trace]. split.
  - now apply (dag_get_path_grow c q st _ extra).
  - split; [reflexivity|]. now exists evs.
Qed.

Lemma get_keeps_store_and_pointers_witness :
  fst (dag_get_path 0 "/a/b/c" Ex.three_levels) = Ok (VNum 1)
  /\ fst (dag_get_path 0 "/a/b/c"
            (snd (get Ex.env Ex.with_gateway 0 "/zz" None Ex.three_levels)))
     = Ok (VNum 1).
Proof.
  split; [reflexivity|].
  apply (get_keeps_store_and_pointers Ex.env Ex.with_gateway 0 "/zz" None
           Ex.three_levels 0 "/a/b/c" (VNum 1)).
  reflexivity.
Defined.

(** ** [get]: the local read and the gateway *)

(** X4: when the local read succeeds, [get] returns its value (through the
    schema conversion when a schema is given) and does nothing else: no
    gateway request even with a gateway configured, no write, one
    [dag.get] in the trace. *)
Theorem get_local_hit :
  forall (E : Env) (cfg : ConfigOptions) (root : cid) (path : string)
         (schema : option string) (st : state) (v : value),
    fst (dag_get_path root path st) = Ok v ->
    get E cfg root path schema st
    = (Ok (schema_view E schema v),
       mkState (blocks st) (tiles st) (trace st ++ [DagGet root path])).
Proof.
  intros E cfg root path schema st v Hlocal.
  pose proof (dag_get_path_state root path st) as Hst.
  unfold get, bind, try_catch, schema_view.
  destruct (dag_get_path root path st) as [r st1]. cbn [fst snd] in *. subst r st1.
  destruct (configured schema); reflexivity.
Qed.

Lemma get_local_hit_witness :
  fst (dag_get_path 0 "/a/b/c" Ex.three_levels) = Ok (VNum 1)
  /\ get Ex.env Ex.with_gateway 0 "/a/b/c" None Ex.three_levels
     = (Ok (VNum 1),
        mkState (blocks Ex.three_levels) [] [DagGet 0 "/a/b/c"]).
Proof.
  split; [reflexivity|].
  apply (get_local_hit Ex.env Ex.with_gateway 0 "/a/b/c" None Ex.three_levels (VNum 1)).
  reflexivity.
Defined.

(** X5: when the local read throws and the configured gateway answers with
    bytes that decode, [get] returns the decoded value (through the schema
    conversion when a schema is given) and hands the bytes to [block.put]:
    afterwards the store holds the decoded node. *)
Theorem get_gateway_hit :
  forall (E : Env) (cfg : ConfigOptions) (root : cid) (path : string)
         (schema : option string) (st : state) (e : error) (host : string)
         (bytes : list Byte.byte) (v : value),
    fst (dag_get_path root path st) = Throw e ->
    configured (ipfsGatewayHost cfg) = Some host ->
    axios_get E (gateway_url host root path) = Some bytes ->
    Block_decode E bytes = Some v ->
    encodable v = true ->
    get E cfg root path schema st
    = (Ok (schema_view E schema v),
       mkState (snd (Store.add v (blocks st))) (tiles st)
               (trace st ++ [DagGet root path;
                             Console LDebug ("Retrieving raw block from: "
                                             ++ gateway_url host root path);
                             HttpGet (gateway_url host root path);
                             BlockPut bytes]))
    /\ nth_error (snd (Store.add v (blocks st))) (fst (Store.add v (blocks st)))
       = Some v.
Proof.
  intros E cfg root path schema st e host bytes v Hlocal Hhost Hget Hdec Henc.
  split; [|apply add_spec].
  pose proof (dag_get_path_state root path st) as Hst.
  unfold get, bind, try_catch, schema_view.
  destruct (dag_get_path root path st) as [r st1]. cbn [fst snd] in *. subst r st1.
  rewrite Hhost. cbv zeta. rewrite Hget, Hdec.
  unfold block_put, emit, bind, ret, set_blocks. cbn [blocks tiles trace].
  rewrite Hdec, Henc. cbn [blocks tiles trace]. rewrite <- !app_assoc.
  destruct (configured schema); reflexivity.
Qed.

Lemma get_gateway_hit_witness :
  fst (dag_get_path 5 "" Ex.empty_root) = Throw (ErrCode "ERR_NOT_FOUND")
  /\ fst (get Ex_env_gateway Ex.with_gateway 5 "" None Ex.empty_root)
     = Ok (VObj [("x", VNum 1)])
  /\ blocks (snd (get Ex_env_gateway Ex.with_gateway 5 "" None Ex.empty_root))
     = [VObj []; VObj [("x", VNum 1)]].
Proof.
  split; [reflexivity|].
  destruct (get_gateway_hit Ex_env_gateway Ex.with_gateway 5 "" None Ex.empty_root
              (ErrCode "ERR_NOT_FOUND") "https://gw" [Byte.x01] (VObj [("x", VNum 1)])
              eq_refl eq_refl eq_refl eq_refl eq_refl) as [H _].
  rewrite H. split; reflexivity.
Defined.

(** ** The pointer service: [commit], [initRoot], [resolveRoot] *)

Lemma cid_toString_index c : Prop_.array_index (cid_toString c) = Some c.
Proof.
  unfold Prop_.array_index, cid_toString. rewrite NilEmpty.usu.
  rewrite DecimalNat.Unsigned.of_to. now rewrite String.eqb_refl.
Qed.

Lemma cid_toString_truthy c : truthy (VStr (cid_toString c)) = true.
Proof.
  cbn [truthy]. destruct (cid_toString c =? "") eqn:He; [|reflexivity].
  apply String.eqb_eq in He. pose proof (cid_toString_index c) as Hi.
  rewrite He in Hi. destruct c; cbn in Hi; [discriminate He|discriminate Hi].
Qed.

Lemma CID_parse_toString c st : CID_parse (VStr (cid_toString c)) st = (Ok c, st).
Proof. unfold CID_parse. now rewrite cid_toString_index. Qed.

(** The documents [commit] leaves in the service. *)
Lemma commit_run root opts st :
  commit root opts st
  = (Ok tt,
     mkState (blocks st)
       (mkTile (ownerDID opts) (parcelId opts) [("/", VStr (cid_toString root))]
        :: filter (fun t => negb ((controller t =? ownerDID opts)
                                  && (tag t =? parcelId opts))) (tiles st))
       (trace st ++ [TileLoad (ownerDID opts) (parcelId opts);
                     TileUpdate (ownerDID opts) (parcelId opts)])).
Proof.
  unfold commit, TileDocument_deterministic, tile_update, bind, emit.
  cbn [blocks tiles trace].
  assert (Hkey : forall t,
            find (fun t => (controller t =? ownerDID opts) && (tag t =? parcelId opts))
                 (tiles st) = Some t ->
            controller t = ownerDID opts /\ tag t = parcelId opts).
  { intros t Hf. apply find_some in Hf as [_ Hf]. apply andb_true_iff in Hf as [H1 H2].
    now apply String.eqb_eq in H1; apply String.eqb_eq in H2. }
  destruct (find _ (tiles st)) as [t|] eqn:Hf.
  - destruct (Hkey t eq_refl) as [-> ->]. now rewrite <- app_assoc.
  - cbn [controller tag]. now rewrite <- app_assoc.
Qed.

Lemma find_filter {A} (p q : A -> bool) l :
  (forall x, p x = true -> q x = true) -> find p (filter q l) = find p l.
Proof.
  intros Hpq. induction l as [|x l IH]; [reflexivity|].
  cbn [filter find]. destruct (p x) eqn:Hp.
  - rewrite (Hpq x Hp). cbn [find]. now rewrite Hp.
  - destruct (q x); [cbn [find]; now rewrite Hp|exact IH].
Qed.

Lemma stored_root_commit_same root opts st :
  stored_root (tiles (snd (commit root opts st))) (ownerDID opts) (parcelId opts)
  = VStr (cid_toString root).
Proof.
  rewrite commit_run. cbn [snd tiles]. unfold stored_root. cbn [find controller tag].
  now rewrite !String.eqb_refl.
Qed.

Lemma stored_root_commit_other root opts st ctl tg :
  ctl <> ownerDID opts \/ tg <> parcelId opts ->
  stored_root (tiles (snd (commit root opts st))) ctl tg = stored_root (tiles st) ctl tg.
Proof.
  intros Hne. rewrite commit_run. cbn [snd tiles]. unfold stored_root.
  cbn [find controller tag].
  assert (Hoff : (ownerDID opts =? ctl) && (parcelId opts =? tg) = false).
  { apply andb_false_iff. destruct Hne as [H|H]; [left|right];
      apply String.eqb_neq; congruence. }
  rewrite Hoff. rewrite find_filter; [reflexivity|].
  intros t Ht. apply andb_true_iff in Ht as [H1 H2].
  apply String.eqb_eq in H1; apply String.eqb_eq in H2. subst ctl tg.
  apply negb_true_iff, andb_false_iff. destruct Hne as [H|H]; [left|right];
    now apply String.eqb_neq.
Qed.

Lemma commit_resolveRoot_roundtrip_aux root opts st :
  fst (commit root opts st) = Ok tt
  /\ resolveRoot opts (snd (commit root opts st))
     = (Ok root,
        mkState (blocks st) (tiles (snd (commit root opts st)))
                (trace (snd (commit root opts st))
                 ++ [TileLoad (ownerDID opts) (parcelId opts)])).
Proof.
  split; [now rewrite commit_run|].
  rewrite resolveRoot_first.
  - rewrite stored_root_commit_same, CID_parse_toString. cbn [fst].
    now rewrite commit_run.
  - rewrite stored_root_commit_same. apply cid_toString_truthy.
Qed.

(** X6: [commit] and [resolveRoot] are a round trip: for every root and
    every parcel, in every state, [commit] succeeds and [resolveRoot] for
    the same owner and parcel then returns that root, after one document
    lookup and without writing to the block store. *)
Theorem commit_resolveRoot_roundtrip :
  forall (root : cid) (opts : ParcelOptions) (st : state),
    let st1 := snd (commit root opts st) in
    fst (commit root opts st) = Ok tt
    /\ resolveRoot opts st1
       = (Ok root,
          mkState (blocks st) (tiles st1)
                  (trace st1 ++ [TileLoad (ownerDID opts) (parcelId opts)])).
Proof.
  intros root opts st st1. subst st1. split; [now rewrite commit_run|].
  rewrite resolveRoot_first.
  - rewrite stored_root_commit_same, CID_parse_toString. cbn [fst].
    now rewrite commit_run.
  - rewrite stored_root_commit_same. apply cid_toString_truthy.
Qed.

(** X7: [commit] for one parcel leaves the roots of the others alone: for a
    different parcel identifier, [resolveRoot] returns after the commit
    what it returned before. *)
Theorem commit_keeps_other_parcels :
  forall (root : cid) (opts other : ParcelOptions) (st : state),
    parcelId other <> parcelId opts ->
    fst (resolveRoot other (snd (commit root opts st))) = fst (resolveRoot other st).
Proof.
  intros root opts other st Hne.
  pose proof (stored_root_commit_other root opts st (ownerDID other) (parcelId other)
                (or_intror Hne)) as H1.
  pose proof (stored_root_commit_other root opts st
                (JsString.toLowerCase (ownerDID other)) (parcelId other)
                (or_intror Hne)) as H2.
  assert (Hb : blocks (snd (commit root opts st)) = blocks st) by now rewrite commit_run.
  set (st1 := snd (commit root opts st)) in *.
  destruct (truthy (stored_root (tiles st) (ownerDID other) (parcelId other))) eqn:T1.
  - rewrite (resolveRoot_first other st) by exact T1.
    rewrite (resolveRoot_first other st1) by now rewrite H1.
    cbn [fst]. rewrite H1.
    now rewrite (CID_parse_pure _ st1 st).
  - destruct (truthy (stored_root (tiles st) (JsString.toLowerCase (ownerDID other))
                                  (parcelId other))) eqn:T2.
    + rewrite (resolveRoot_second other st) by assumption.
      rewrite (resolveRoot_second other st1) by (rewrite ?H1, ?H2; assumption).
      cbn [fst]. rewrite H2. now rewrite (CID_parse_pure _ st1 st).
    + rewrite (resolveRoot_third other st) by assumption.
      rewrite (resolveRoot_third other st1) by (rewrite ?H1, ?H2; assumption).
      cbn [fst]. now rewrite Hb.
Qed.

Lemma commit_keeps_other_parcels_witness :
  fst (resolveRoot (mkParcel "0xAb" "p2")
         (snd (commit 1 (mkParcel "0xAb" "p1")
                 (snd (commit 0 (mkParcel "0xAb" "p2") Ex.two_nodes)))))
  = Ok 0.
Proof.
  rewrite (commit_keeps_other_parcels 1 (mkParcel "0xAb" "p1") (mkParcel "0xAb" "p2")
             (snd (commit 0 (mkParcel "0xAb" "p2") Ex.two_nodes))).
  - reflexivity.
  - cbn [parcelId]. discriminate.
Defined.

Lemma lower_ascii_idem a :
  JsString.lower_ascii (JsString.lower_ascii a) = JsString.lower_ascii a.
Proof. destruct a as [[] [] [] [] [] [] [] []]; reflexivity. Qed.

Lemma toLowerCase_idem s :
  JsString.toLowerCase (JsString.toLowerCase s) = JsString.toLowerCase s.
Proof.
  induction s as [|a s IH]; [reflexivity|].
  cbn [JsString.toLowerCase]. now rewrite lower_ascii_idem, IH.
Qed.

(** X8: a root committed under the lower-cased owner is found by
    [resolveRoot] under any spelling of the owner whose own document holds
    no root: the lookup falls back to the lower-cased address. *)
Theorem resolveRoot_finds_lowercase_commit :
  forall (root : cid) (opts : ParcelOptions) (st : state),
    truthy (stored_root (tiles st) (ownerDID opts) (parcelId opts)) = false ->
    fst (resolveRoot opts
           (snd (commit root
                   (mkParcel (JsString.toLowerCase (ownerDID opts)) (parcelId opts))
                   st)))
    = Ok root.
Proof.
  intros root opts st Hnone.
  set (low := mkParcel (JsString.toLowerCase (ownerDID opts)) (parcelId opts)).
  pose proof (stored_root_commit_same root low st) as Hlow. cbn [ownerDID parcelId low] in Hlow.
  destruct (String.eqb (ownerDID opts) (JsString.toLowerCase (ownerDID opts))) eqn:Hcase.
  - apply String.eqb_eq in Hcase.
    rewrite resolveRoot_first; rewrite Hcase at 1; rewrite Hlow.
    + now rewrite CID_parse_toString.
    + apply cid_toString_truthy.
  - apply String.eqb_neq in Hcase.
    pose proof (stored_root_commit_other root low st (ownerDID opts) (parcelId opts)
                  (or_introl Hcase)) as Hown.
    rewrite resolveRoot_second; rewrite ?Hown, ?Hlow.
    + now rewrite CID_parse_toString.
    + exact Hnone.
    + apply cid_toString_truthy.
Qed.

Lemma resolveRoot_finds_lowercase_commit_witness :
  fst (resolveRoot (mkParcel "0xAB" "p")
         (snd (commit 1 (mkParcel "0xab" "p") Ex.two_nodes)))
  = Ok 1.
Proof.
  apply (resolveRoot_finds_lowercase_commit 1 (mkParcel "0xAB" "p") Ex.two_nodes).
  reflexivity.
Defined.

(** X9: the fallback runs one way only.  A root committed under an owner
    spelt with capitals is not found under the lower-cased spelling: when
    the lower-cased document holds no root, [resolveRoot] for it stores and
    returns the empty node instead. *)
Theorem resolveRoot_misses_mixed_case_commit :
  forall (root : cid) (opts : ParcelOptions) (st : state),
    ownerDID opts <> JsString.toLowerCase (ownerDID opts) ->
    truthy (stored_root (tiles st) (JsString.toLowerCase (ownerDID opts))
                        (parcelId opts)) = false ->
    let low := mkParcel (JsString.toLowerCase (ownerDID opts)) (parcelId opts) in
    let st1 := snd (commit root opts st) in
    exists c,
      fst (resolveRoot low st1) = Ok c
      /\ nth_error (blocks (snd (resolveRoot low st1))) c = Some (VObj [])
      /\ tiles (snd (resolveRoot low st1)) = tiles st1.
Proof.
  intros root opts st Hcase Hnone low st1.
  assert (Hown : stored_root (tiles st1) (ownerDID low) (parcelId low)
                 = stored_root (tiles st) (ownerDID low) (parcelId low)).
  { apply stored_root_commit_other. left. cbn [ownerDID low]. congruence. }
  cbn [ownerDID parcelId low] in Hown.
  exists (fst (Store.add (VObj []) (blocks st1))).
  rewrite (resolveRoot_third low st1).
  - cbn [fst snd blocks tiles]. split; [reflexivity|]. split; [|reflexivity].
    apply add_spec.
  - cbn [ownerDID parcelId low]. now rewrite Hown.
  - cbn [ownerDID parcelId low]. now rewrite toLowerCase_idem, Hown.
Qed.

Lemma resolveRoot_misses_mixed_case_commit_witness :
  exists c,
    fst (resolveRoot (mkParcel "0xab" "p")
           (snd (commit 1 (mkParcel "0xAB" "p") Ex.two_nodes))) = Ok c
    /\ nth_error (blocks (snd (resolveRoot (mkParcel "0xab" "p")
                                 (snd (commit 1 (mkParcel "0xAB" "p") Ex.two_nodes)))))
                 c = Some (VObj [])
    /\ tiles (snd (resolveRoot (mkParcel "0xab" "p")
                     (snd (commit 1 (mkParcel "0xAB" "p") Ex.two_nodes))))
       = tiles (snd (commit 1 (mkParcel "0xAB" "p") Ex.two_nodes)).
Proof.
  apply (resolveRoot_misses_mixed_case_commit 1 (mkParcel "0xAB" "p") Ex.two_nodes).
  - cbn. discriminate.
  - reflexivity.
Defined.

(** X10: [initRoot] always succeeds, and afterwards [resolveRoot] for the
    same parcel returns a root whose node is the empty map, whatever root
    the parcel had before. *)
Theorem initRoot_resets_to_empty :
  forall (opts : ParcelOptions) (st : state),
    let st1 := snd (initRoot opts st) in
    fst (initRoot opts st) = Ok tt
    /\ exists c,
         fst (resolveRoot opts st1) = Ok c
         /\ nth_error (blocks (snd (resolveRoot opts st1))) c = Some (VObj []).
Proof.
  intros opts st st1. subst st1.
  unfold initRoot, bind at 1 2 3, dag_put at 1 2 3, bind at 1 2 3, emit at 1 2 3.
  cbn [encodable forallb]. unfold set_blocks. cbn [blocks tiles trace].
  destruct (Store.add (VObj []) (blocks st)) as [c bs] eqn:Hadd.
  pose proof (add_spec (VObj []) (blocks st)) as [Hc _]. rewrite Hadd in Hc.
  cbn [fst snd] in Hc.
  set (st0 := mkState bs (tiles st) (trace st ++ [DagPut (VObj [])])).
  destruct (commit_resolveRoot_roundtrip_aux c opts st0) as [Hok Hres].
  split; [exact Hok|]. exists c. rewrite Hres. cbn [fst snd blocks]. split; [reflexivity|].
  exact Hc.
Qed.

(** ** Writing, committing and reading back *)

(** X11: the three operations compose.  After [putPath] wrote a non-null
    value [X] that is no link at a path of linked maps, no segment of
    which is [__proto__], and [commit] recorded the returned root for a
    parcel, [getPath] for that parcel at the same path yields [X] (through
    the schema conversion when a schema is given). *)
Theorem putPath_commit_getPath :
  forall (E : Env) (cfg : ConfigOptions) (fuel : nat) (root : cid)
         (ks : list string) (k : string) (X : value) (opts : PutOptions)
         (parcel : ParcelOptions) (schema : option string)
         (st : state) (c : cid) (fs : list (string * value)),
    length ks < fuel ->
    bare E cfg opts ->
    Forall (fun k => segment k = true) (ks ++ [k]) ->
    no_early_match (ks ++ [k]) = true ->
    plain_path (ks ++ [k]) = true ->
    node_at (blocks st) root ks = Some (c, fs) ->
    store_ok st = true ->
    encodable X = true -> is_nullish X = false -> is_link X = false ->
    exists newRoot st1,
      putPath E cfg fuel root (path_of (ks ++ [k])) X opts st = (Ok newRoot, st1)
      /\ fst (getPath E cfg (path_of (ks ++ [k])) parcel schema
                (snd (commit newRoot parcel st1)))
         = Ok (schema_view E schema X).
Proof.
  intros E cfg fuel root ks k X opts parcel schema st c fs
         Hfuel Hbare Hseg Hno Hplain Hnode Hok Henc Hnn Hlink.
  apply plain_path_last in Hplain.
  destruct (putPath_linked E cfg root ks fuel k X opts st c fs)
    as (newRoot & bs & evs & v & Hrun & _ & _ & Hv & Hwalk & _); try assumption.
  specialize (Hwalk (settable_plain _ _ Hplain)).
  exists newRoot, (mkState bs (tiles st) (trace st ++ evs)). split; [exact Hrun|].
  set (st1 := mkState bs (tiles st) (trace st ++ evs)).
  destruct (commit_resolveRoot_roundtrip_aux newRoot parcel st1) as [_ Hres].
  unfold getPath, bind. rewrite Hres.
  apply get_local_ok. apply dag_get_path_walk with (v := v); [exact Hv|].
  cbn [blocks st1]. rewrite parts_path_of by exact Hseg.
  specialize (Hwalk []). unfold walk_from in Hwalk. rewrite Hwalk.
  destruct X; try discriminate; reflexivity.
Qed.

Lemma putPath_commit_getPath_witness :
  exists newRoot st1,
    putPath Ex.env Ex.no_gateway 3 0 (path_of (["a"; "b"] ++ ["c"])) (VNum 9)
            Ex.plain Ex.three_levels = (Ok newRoot, st1)
    /\ fst (getPath Ex.env Ex.no_gateway (path_of (["a"; "b"] ++ ["c"])) Ex.parcel None
              (snd (commit newRoot Ex.parcel st1)))
       = Ok (schema_view Ex.env None (VNum 9)).
Proof.
  apply (putPath_commit_getPath Ex.env Ex.no_gateway 3 0 ["a"; "b"] "c" (VNum 9)
           Ex.plain Ex.parcel None Ex.three_levels 2 [("c", VNum 1)]);
    try reflexivity; try (simpl; lia);
    try (match goal with
         | |- Forall _ _ => repeat constructor
         | |- bare _ _ _ => split; [reflexivity|]; split; [reflexivity | discriminate]
         end).
Defined.

(** ** Pinning (lines 297-320) *)

(** One call of [putPath] without schemas on a path of linked maps, up to
    the pinning step: the edited node is stored before pinning starts, and
    the call ends as the pinning does. *)
Lemma putPath_level_to_pin E cfg root ks k data opts st c fs e evs :
  configured (leafSchema opts) = None ->
  configured (parentSchema opts) = None ->
  Forall (fun k => segment k = true) (ks ++ [k]) ->
  no_early_match (ks ++ [k]) = true ->
  node_at (blocks st) root ks = Some (c, fs) ->
  store_ok st = true -> encodable data = true -> is_nullish data = false ->
  let node := VObj (Prop_.assoc_set k data fs) in
  (forall st', run_as (pin_blocks E cfg opts node []) st' (Throw e) (blocks st') evs) ->
  run_as (putPath_level E cfg root (path_of (ks ++ [k])) data opts) st
         (Throw e)
         (snd (Store.add node (blocks st)))
         ([DagResolve root (path_of ks); DagGet c ""; DagPut node] ++ evs)%list.
Proof.
  intros Hleaf Hparent Hseg Hno Hnode Hok Henc Hnn node Hpin.
  assert (Hks : Forall (fun k => segment k = true) ks).
  { apply Forall_app in Hseg. tauto. }
  assert (Hk : segment k = true).
  { apply Forall_app in Hseg as [_ H]. now inversion H. }
  pose proof (node_at_stored _ _ _ _ _ Hnode) as Hc.
  unfold putPath_level. rewrite Hleaf.
  rewrite (parentOf_path_of _ _ Hseg Hno), (lastSegment_path_of _ _ Hseg).
  eapply run_as_eq.
  { eapply run_as_bind; [apply run_as_ret|].
    eapply run_as_bind; [eapply dag_resolve_linked with (fs := fs); [exact Hks | exact Hnode]|].
    cbn [blocks tiles trace String.eqb].
    eapply run_as_bind.
    { apply run_as_dag_get_ok. exact Hc. }
    cbn [blocks tiles trace].
    eapply run_as_bind.
    { unfold replace_leaf. rewrite (putInnerPath_field _ _ _ _ Hk Hnn), Hparent.
      eapply (run_as_bind _ _ _ _ _ [] _ _ []).
      - eapply (run_as_bind _ _ _ _ _ [] _ _ []); [apply run_as_lift | apply run_as_ret].
      - apply run_as_ret. }
    cbn [blocks tiles trace filter_if_array].
    eapply run_as_bind.
    { apply run_as_dag_put_ok.
      apply encodable_assoc_set; [|exact Henc]. eapply store_ok_nth; eassumption. }
    cbn [blocks tiles trace].
    apply run_as_bind_throw.
    exact (Hpin (mkState (snd (Store.add node (blocks st))) (tiles st) _)). }
  reflexivity.
Qed.

(** X12: the upload configuration is tested after the write.  With [pin]
    set and no upload configuration, [putPath] without schemas on a path of
    linked maps throws "Web3Storage not configured", yet the edited node
    has been stored by then: the store holds it under the CID that
    [dag.put] gave it, and nothing was uploaded. *)
Theorem putPath_pin_unconfigured_stores_first :
  forall (E : Env) (cfg : ConfigOptions) (fuel : nat) (root : cid)
         (ks : list string) (k : string) (data : value) (opts : PutOptions)
         (st : state) (c : cid) (fs : list (string * value)),
    pin opts = true ->
    w3InvocationConfig cfg = None ->
    configured (leafSchema opts) = None ->
    configured (parentSchema opts) = None ->
    Forall (fun k => segment k = true) (ks ++ [k]) ->
    no_early_match (ks ++ [k]) = true ->
    node_at (blocks st) root ks = Some (c, fs) ->
    store_ok st = true -> encodable data = true -> is_nullish data = false ->
    let node := VObj (Prop_.assoc_set k data fs) in
    putPath E cfg (S fuel) root (path_of (ks ++ [k])) data opts st
    = (Throw web3StorageNotConfigured,
       mkState (snd (Store.add node (blocks st))) (tiles st)
               (trace st ++ [DagResolve root (path_of ks); DagGet c ""; DagPut node]))
    /\ nth_error (snd (Store.add node (blocks st))) (fst (Store.add node (blocks st)))
       = Some node.
Proof.
  intros E cfg fuel root ks k data opts st c fs Hpin Hcfg Hleaf Hparent Hseg Hno Hnode
         Hok Henc Hnn node.
  split; [|apply add_spec].
  cbn [putPath]. apply run_as_bind_throw.
  eapply run_as_eq.
  { eapply (putPath_level_to_pin E cfg root ks k data opts st c fs
              web3StorageNotConfigured []); try assumption.
    intros st'. unfold pin_blocks. rewrite Hpin, Hcfg. apply run_as_throw. }
  reflexivity.
Qed.

Lemma putPath_pin_unconfigured_stores_first_witness :
  blocks (snd (putPath Ex.env Ex.no_gateway 1 0 (path_of ([] ++ ["k"])) (VNum 7)
                 (mkPut None None true) Ex.empty_root))
  = [VObj []; VObj [("k", VNum 7)]]
  /\ fst (putPath Ex.env Ex.no_gateway 1 0 (path_of ([] ++ ["k"])) (VNum 7)
            (mkPut None None true) Ex.empty_root)
     = Throw web3StorageNotConfigured.
Proof.
  destruct (putPath_pin_unconfigured_stores_first Ex.env Ex.no_gateway 0 0 [] "k"
              (VNum 7) (mkPut None None true) Ex.empty_root 0 []
              eq_refl eq_refl eq_refl eq_refl
              (Forall_cons (P := fun k => segment k = true) "k" eq_refl (Forall_nil _))
              eq_refl eq_refl eq_refl eq_refl eq_refl) as [H _].
  rewrite H. split; reflexivity.
Defined.

(** X13: a failed upload is logged and rethrown after the write.  With
    [pin] set, an upload configuration present and the upload of the
    archive failing, [putPath] without schemas on a path of linked maps
    stores the edited node, attempts one upload of the archive that holds
    this node alone, logs an error and throws. *)
Theorem putPath_upload_failure_stores_first :
  forall (E : Env) (cfg : ConfigOptions) (fuel : nat) (root : cid)
         (ks : list string) (k : string) (data : value) (opts : PutOptions)
         (st : state) (c : cid) (fs : list (string * value)),
    pin opts = true ->
    w3InvocationConfig cfg <> None ->
    uploadCAR E [VObj (Prop_.assoc_set k data fs)] = false ->
    configured (leafSchema opts) = None ->
    configured (parentSchema opts) = None ->
    Forall (fun k => segment k = true) (ks ++ [k]) ->
    no_early_match (ks ++ [k]) = true ->
    node_at (blocks st) root ks = Some (c, fs) ->
    store_ok st = true -> encodable data = true -> is_nullish data = false ->
    let node := VObj (Prop_.assoc_set k data fs) in
    putPath E cfg (S fuel) root (path_of (ks ++ [k])) data opts st
    = (Throw UploadError,
       mkState (snd (Store.add node (blocks st))) (tiles st)
               (trace st ++ [DagResolve root (path_of ks); DagGet c ""; DagPut node;
                             UploadCAR [node]; Console LError "upload failed"])).
Proof.
  intros E cfg fuel root ks k data opts st c fs Hpin Hcfg Hup Hleaf Hparent Hseg Hno Hnode
         Hok Henc Hnn node.
  cbn [putPath]. apply run_as_bind_throw.
  eapply run_as_eq.
  { eapply (putPath_level_to_pin E cfg root ks k data opts st c fs UploadError
              [UploadCAR [node]; Console LError "upload failed"]); try assumption.
    intros st'. unfold pin_blocks. rewrite Hpin.
    destruct (w3InvocationConfig cfg); [|contradiction].
    subst node. unfold run_as, bind, emit, throw. cbn [blocks tiles trace]. rewrite Hup.
    cbn [blocks tiles trace]. now rewrite <- app_assoc. }
  reflexivity.
Qed.

Lemma putPath_upload_failure_stores_first_witness :
  putPath Ex_env_upload_fails Ex_with_upload 1 0 (path_of ([] ++ ["k"])) (VNum 7)
          (mkPut None None true) Ex.empty_root
  = (Throw UploadError,
     mkState [VObj []; VObj [("k", VNum 7)]] []
             [DagResolve 0 ""; DagGet 0 ""; DagPut (VObj [("k", VNum 7)]);
              UploadCAR [VObj [("k", VNum 7)]]; Console LError "upload failed"]).
Proof.
  apply (putPath_upload_failure_stores_first Ex_env_upload_fails Ex_with_upload 0 0 []
           "k" (VNum 7) (mkPut None None true) Ex.empty_root 0 []);
    try reflexivity; try (repeat constructor); discriminate.
Defined.

(** ** What a write leaves alone *)

Lemma assoc_get_set_other j k v fs :
  j <> k -> Prop_.assoc_get j (Prop_.assoc_set k v fs) = Prop_.assoc_get j fs.
Proof.
  intros Hne. induction fs as [|[k' x] fs IH]; cbn [Prop_.assoc_set Prop_.assoc_get].
  - destruct (Prop_.plain_key k); [|reflexivity]. cbn [Prop_.assoc_get].
    destruct (k =? j) eqn:He; [apply String.eqb_eq in He; congruence | reflexivity].
  - destruct (k' =? k) eqn:Hk; cbn [Prop_.assoc_get].
    + apply String.eqb_eq in Hk. subst k'.
      destruct (k =? j) eqn:He; [apply String.eqb_eq in He; congruence | reflexivity].
    + now rewrite IH.
Qed.

Lemma assoc_get_del_other j k fs :
  j <> k -> Prop_.assoc_get j (Prop_.assoc_del k fs) = Prop_.assoc_get j fs.
Proof.
  intros Hne. induction fs as [|[k' x] fs IH]; cbn [Prop_.assoc_del Prop_.assoc_get].
  - reflexivity.
  - destruct (k' =? k) eqn:Hk; cbn [Prop_.assoc_get].
    + apply String.eqb_eq in Hk. subst k'.
      destruct (k =? j) eqn:He; [apply String.eqb_eq in He; congruence | reflexivity].
    + now rewrite IH.
Qed.

Lemma assoc_get_absent k fs :
  ~ In k (map fst fs) -> Prop_.assoc_get k fs = None.
Proof.
  induction fs as [|[k' x] fs IH]; intros Hin; [reflexivity|].
  cbn [Prop_.assoc_get]. cbn [map fst In] in Hin.
  destruct (k' =? k) eqn:Hk; [apply String.eqb_eq in Hk; tauto | apply IH; tauto].
Qed.

Lemma assoc_get_del_same k fs :
  NoDup (map fst fs) -> Prop_.assoc_get k (Prop_.assoc_del k fs) = None.
Proof.
  induction fs as [|[k' x] fs IH]; intros Hnd; [reflexivity|].
  cbn [map fst] in Hnd. inversion Hnd as [|? ? Hnotin Hrest]; subst.
  cbn [Prop_.assoc_del]. destruct (k' =? k) eqn:Hk.
  - apply String.eqb_eq in Hk. subst k'. now apply assoc_get_absent.
  - cbn [Prop_.assoc_get]. rewrite Hk. now apply IH.
Qed.

(** A walk along a chain of linked maps arrives at the node the chain
    leads to. *)
Lemma walk_node_at bs ks : forall c v c' fs more,
  nth_error bs c = Some v ->
  node_at bs c ks = Some (c', fs) ->
  Store.walk bs v (ks ++ more) = Store.walk bs (VObj fs) more.
Proof.
  induction ks as [|k ks IH]; intros c v c' fs more Hv Hnode.
  - cbn [node_at] in Hnode. rewrite Hv in Hnode.
    destruct v; try discriminate. now injection Hnode as _ ->.
  - cbn [node_at] in Hnode. rewrite Hv in Hnode.
    destruct v as [| | | | | | |fs0]; try discriminate.
    destruct (Prop_.assoc_get k fs0) as [[| | | | |c1| |]|] eqn:Hk; try discriminate.
    cbn [app Store.walk Store.own_property]. rewrite Hk. cbn [Store.follow].
    destruct (nth_error bs c1) as [v1|] eqn:Hc1.
    + now apply (IH c1 v1 c' fs more).
    + destruct ks; cbn [node_at] in Hnode; rewrite Hc1 in Hnode; discriminate.
Qed.

(** The edit of one field leaves the walks through the other fields. *)
Lemma walk_other_field bs fs fs' j more :
  Prop_.assoc_get j fs' = Prop_.assoc_get j fs ->
  Store.walk bs (VObj fs') (j :: more) = Store.walk bs (VObj fs) (j :: more).
Proof. intros H. cbn [Store.walk Store.own_property]. now rewrite H. Qed.

(** Two paths part ways: they share [pre] and continue with different
    segments. *)
Lemma diverge_snoc (ks : list string) k pre j' rest :
  (ks ++ [k])%list = (pre ++ j' :: rest)%list ->
  (rest = [] /\ pre = ks /\ j' = k)
  \/ (exists rest', rest = (rest' ++ [k])%list /\ ks = (pre ++ j' :: rest')%list).
Proof.
  intros H. destruct rest as [|r rest _] using rev_ind.
  - left. change (pre ++ [j'])%list with (pre ++ [j'])%list in H.
    apply app_inj_tail in H as [-> ->]. auto.
  - right. exists rest.
    replace (pre ++ j' :: rest ++ [r])%list with ((pre ++ j' :: rest) ++ [r])%list in H
      by (rewrite <- app_assoc; reflexivity).
    apply app_inj_tail in H as [-> ->]. auto.
Qed.

(** [putPath] without schemas on a path of linked maps, with what it
    leaves alone: a walk from the old root that parts ways with the written
    path arrives at the same value from the new root. *)
Lemma putPath_linked_frame E cfg root : forall ks fuel k data opts st c fs vold,
  length ks < fuel ->
  bare E cfg opts ->
  Forall (fun k => segment k = true) (ks ++ [k]) ->
  no_early_match (ks ++ [k]) = true ->
  node_at (blocks st) root ks = Some (c, fs) ->
  nth_error (blocks st) root = Some vold ->
  store_ok st = true -> encodable data = true -> is_nullish data = false ->
  exists newRoot bs evs v,
    run_as (putPath E cfg fuel root (path_of (ks ++ [k])) data opts) st
           (Ok newRoot) bs evs
    /\ (exists extra, bs = (blocks st ++ extra)%list)
    /\ forallb encodable bs = true
    /\ nth_error bs newRoot = Some v
    /\ (settable k fs ->
        forall more, Store.walk bs v (ks ++ k :: more) = walk_from bs data more)
    /\ (forall pre j j' rest more w,
          (ks ++ [k])%list = (pre ++ j' :: rest)%list -> j <> j' ->
          Store.walk (blocks st) vold (pre ++ j :: more) = Some w ->
          Store.walk bs v (pre ++ j :: more) = Some w).
Proof.
  induction ks as [|k' ks IH] using rev_ind;
    intros fuel k data opts st c fs vold Hfuel Hbare Hseg Hno Hnode Hold Hok Henc Hnn.
  - destruct fuel as [|fuel]; [cbn in Hfuel; lia|].
    pose proof (putPath_level_linked E cfg root [] k data opts st c fs
                  Hbare Hseg Hno Hnode Hok Henc Hnn) as Hlevel.
    cbn zeta in Hlevel. set (node := VObj (Prop_.assoc_set k data fs)) in *.
    destruct (add_spec node (blocks st)) as [Hget Hgrow].
    exists (fst (Store.add node (blocks st))), (snd (Store.add node (blocks st))),
           (([DagResolve root (path_of []); DagGet c ""; DagPut node]
               ++ pin_events opts node []) ++ [])%list, node.
    split.
    { cbn [putPath]. eapply run_as_bind; [exact Hlevel|]. apply run_as_ret. }
    split; [exact Hgrow|]. split.
    { apply add_keeps_ok; [exact Hok|]. apply encodable_assoc_set; [|exact Henc].
      eapply store_ok_nth; [exact Hok|]. eapply node_at_stored, Hnode. }
    split; [exact Hget|]. split; [intros Hset more; now apply walk_field|].
    intros pre j j' rest more w Heq Hne Hw.
    destruct (diverge_snoc [] k pre j' rest Heq) as [(-> & -> & ->)|(rest' & _ & Hnil)];
      [|now destruct pre].
    pose proof (walk_node_at _ [] root vold c fs (j :: more) Hold Hnode) as Hwn.
    cbn [app] in *. rewrite Hwn in Hw.
    destruct Hgrow as [extra ->]. unfold node.
    rewrite (walk_other_field _ fs _ j more) by now apply assoc_get_set_other.
    now apply walk_grow.
  - destruct fuel as [|fuel]; [cbn in Hfuel; lia|].
    rewrite length_app in Hfuel. cbn [length] in Hfuel.
    pose proof (putPath_level_linked E cfg root (ks ++ [k']) k data opts st c fs
                  Hbare Hseg Hno Hnode Hok Henc Hnn) as Hlevel.
    cbn zeta in Hlevel. set (node := VObj (Prop_.assoc_set k data fs)) in *.
    destruct (add_spec node (blocks st)) as [Hget [extra Hgrow]].
    set (newCid := fst (Store.add node (blocks st))) in *.
    set (bs1 := snd (Store.add node (blocks st))) in *.
    assert (Hseg' : Forall (fun k => segment k = true) (ks ++ [k'])).
    { apply Forall_app in Hseg. tauto. }
    destruct (node_at_snoc _ _ _ _ _ _ Hnode) as (c0 & fs0 & Hnode0 & Hlink).
    assert (Henc1 : forallb encodable bs1 = true).
    { apply add_keeps_ok; [exact Hok|]. apply encodable_assoc_set; [|exact Henc].
      eapply store_ok_nth; [exact Hok|]. eapply node_at_stored, Hnode. }
    set (evs1 := ([DagResolve root (path_of (ks ++ [k'])); DagGet c ""; DagPut node]
                    ++ pin_events opts node [])%list) in *.
    set (st1 := mkState bs1 (tiles st) (trace st ++ evs1)).
    destruct (IH fuel k' (VLink newCid) (pin_only opts) st1 c0 fs0 vold)
      as (newRoot & bs & evs & v & Hrun & [extra' Hgrow'] & Hokbs & Hv & Hwalk & Hframe).
    { lia. }
    { now apply bare_pin_only. }
    { exact Hseg'. }
    { now apply no_early_match_init in Hno. }
    { cbn [blocks st1]. rewrite Hgrow. now apply node_at_grow. }
    { cbn [blocks st1]. rewrite Hgrow. now apply nth_error_grow. }
    { exact Henc1. }
    { reflexivity. }
    { reflexivity. }
    specialize (Hwalk (settable_present _ _ _ Hlink)).
    assert (Hn : nth_error bs newCid = Some node).
    { rewrite Hgrow'. apply nth_error_grow. exact Hget. }
    exists newRoot, bs, (evs1 ++ evs)%list, v.
    split.
    { cbn [putPath]. eapply run_as_bind; [exact Hlevel|].
      cbn beta iota.
      assert (Hnr : (path_of (ks ++ [k']) =? "/") || (path_of (ks ++ [k']) =? "") = false).
      { destruct (ks ++ [k'])%list as [|k1 rest] eqn:Eq; [now destruct ks|].
        apply path_of_not_root. now inversion Hseg'. }
      rewrite Hnr. exact Hrun. }
    split.
    { exists (extra ++ extra')%list. rewrite Hgrow'. cbn [blocks st1].
      rewrite Hgrow. now rewrite app_assoc. }
    split; [exact Hokbs|]. split; [exact Hv|]. split.
    { intros Hset more. rewrite <- app_assoc. cbn [app]. rewrite Hwalk.
      unfold walk_from at 1. cbn [Store.follow].
      rewrite Hn. now apply walk_field. }
    intros pre j j' rest more w Heq Hne Hw.
    destruct (diverge_snoc (ks ++ [k']) k pre j' rest Heq)
      as [(-> & -> & ->)|(rest' & -> & Hpre)].
    + rewrite <- app_assoc. cbn [app]. rewrite Hwalk.
      unfold walk_from. cbn [Store.follow]. rewrite Hn.
      rewrite (walk_node_at _ (ks ++ [k']) root vold c fs (j :: more) Hold Hnode) in Hw.
      unfold node.
      rewrite (walk_other_field _ fs _ j more) by now apply assoc_get_set_other.
      rewrite Hgrow'. cbn [blocks st1]. rewrite Hgrow. rewrite <- app_assoc.
      now apply walk_grow.
    + apply (Hframe pre j j' rest' more w Hpre Hne).
      cbn [blocks st1]. rewrite Hgrow. now apply walk_grow.
Qed.

Lemma putInnerPath_edit fuel fs k data :
  segment k = true ->
  putInnerPath fuel (VObj fs) ("/" ++ k) data = Ok (VObj (edit_field k data fs)).
Proof.
  intros Hk. unfold edit_field.
  destruct (is_nullish data) eqn:Hd; [|now apply putInnerPath_field].
  assert (Hs : JsString.split slash ("/" ++ k) = [""; k]).
  { change ("/" ++ k) with (String slash k). cbn [JsString.split].
    rewrite Ascii.eqb_refl. now rewrite split_no_sep by now apply segment_flat. }
  destruct fuel; cbn [putInnerPath]; rewrite Hs; cbn [length Nat.eqb andb seg nth];
    rewrite (segment_not_empty _ Hk); unfold assign_or_delete; now rewrite Hd.
Qed.

Lemma encodable_assoc_del k fs :
  encodable (VObj fs) = true -> encodable (VObj (Prop_.assoc_del k fs)) = true.
Proof.
  cbn [encodable]. induction fs as [|[k' w] fs IH]; intros Hfs; [reflexivity|].
  cbn in Hfs. apply andb_true_iff in Hfs as [Hw Hfs].
  cbn [Prop_.assoc_del]. destruct (k' =? k); [exact Hfs|].
  cbn. now rewrite Hw, IH.
Qed.

Lemma encodable_edit_field k data fs :
  is_nullish data = true \/ encodable data = true ->
  encodable (VObj fs) = true -> encodable (VObj (edit_field k data fs)) = true.
Proof.
  intros Hd Hfs. unfold edit_field. destruct (is_nullish data) eqn:Hn.
  - now apply encodable_assoc_del.
  - apply encodable_assoc_set; [exact Hfs|]. destruct Hd; [discriminate | assumption].
Qed.

(** One call of [putPath] without schemas on a path of linked maps, for a
    write and for a deletion alike. *)
Lemma putPath_level_edit E cfg root ks k data opts st c fs :
  bare E cfg opts ->
  Forall (fun k => segment k = true) (ks ++ [k]) ->
  no_early_match (ks ++ [k]) = true ->
  node_at (blocks st) root ks = Some (c, fs) ->
  store_ok st = true ->
  is_nullish data = true \/ encodable data = true ->
  let node := VObj (edit_field k data fs) in
  run_as (putPath_level E cfg root (path_of (ks ++ [k])) data opts) st
         (Ok (fst (Store.add node (blocks st)), path_of ks))
         (snd (Store.add node (blocks st)))
         ([DagResolve root (path_of ks); DagGet c ""; DagPut node]
            ++ pin_events opts node [])%list.
Proof.
  intros (Hleaf & Hparent & Hpin) Hseg Hno Hnode Hok Hdata node.
  assert (Hks : Forall (fun k => segment k = true) ks).
  { apply Forall_app in Hseg. tauto. }
  assert (Hk : segment k = true).
  { apply Forall_app in Hseg as [_ H]. now inversion H. }
  pose proof (node_at_stored _ _ _ _ _ Hnode) as Hc.
  unfold putPath_level. rewrite Hleaf.
  rewrite (parentOf_path_of _ _ Hseg Hno), (lastSegment_path_of _ _ Hseg).
  eapply run_as_eq.
  { eapply run_as_bind; [apply run_as_ret|].
    eapply run_as_bind; [eapply dag_resolve_linked with (fs := fs); [exact Hks | exact Hnode]|].
    cbn [blocks tiles trace String.eqb].
    eapply run_as_bind.
    { apply run_as_dag_get_ok. exact Hc. }
    cbn [blocks tiles trace].
    eapply run_as_bind.
    { unfold replace_leaf. rewrite (putInnerPath_edit _ _ _ _ Hk), Hparent.
      eapply (run_as_bind _ _ _ _ _ [] _ _ []).
      - eapply (run_as_bind _ _ _ _ _ [] _ _ []); [apply run_as_lift | apply run_as_ret].
      - apply run_as_ret. }
    cbn [blocks tiles trace filter_if_array].
    eapply run_as_bind.
    { apply run_as_dag_put_ok.
      apply encodable_edit_field; [exact Hdata|]. eapply store_ok_nth; eassumption. }
    cbn [blocks tiles trace].
    eapply run_as_bind; [apply pin_blocks_ok; exact Hpin|].
    apply run_as_ret. }
  cbn [app]. now rewrite app_nil_r.
Qed.

(** After a level of [putPath] stored [node] under [newCid] and left the
    parent path [ks], the rest of the call rewrites the ancestors only:
    the new root leads through [ks] to [node], and wherever a walk from
    the old root left [ks] it arrives at the same value. *)
Lemma putPath_propagate_frame E cfg root ks fuel newCid node opts st c fs vold :
  length ks <= fuel ->
  bare E cfg (pin_only opts) ->
  Forall (fun k => segment k = true) ks ->
  no_early_match ks = true ->
  node_at (blocks st) root ks = Some (c, fs) ->
  nth_error (blocks st) root = Some vold ->
  store_ok st = true ->
  nth_error (blocks st) newCid = Some node ->
  exists newRoot bs evs v,
    run_as (if (path_of ks =? "/") || (path_of ks =? "") then ret newCid
            else putPath E cfg fuel root (path_of ks) (VLink newCid) (pin_only opts))
           st (Ok newRoot) bs evs
    /\ (exists extra, bs = (blocks st ++ extra)%list)
    /\ nth_error bs newRoot = Some v
    /\ (forall more, Store.walk bs v (ks ++ more) = Store.walk bs node more)
    /\ (forall pre j j' rest more w,
          ks = (pre ++ j' :: rest)%list -> j <> j' ->
          Store.walk (blocks st) vold (pre ++ j :: more) = Some w ->
          Store.walk bs v (pre ++ j :: more) = Some w).
Proof.
  intros Hfuel Hbare Hseg Hno Hnode Hold Hok Hnew.
  destruct ks as [|k' ks] using rev_ind.
  - exists newCid, (blocks st), [], node. split; [apply run_as_ret|].
    split; [exists []; now rewrite app_nil_r|]. split; [assumption|].
    split; [reflexivity|].
    intros pre j j' rest more w Heq. now destruct pre.
  - clear IHks.
    assert (Hnr : (path_of (ks ++ [k']) =? "/") || (path_of (ks ++ [k']) =? "") = false).
    { destruct (ks ++ [k'])%list as [|k1 rest] eqn:Eq; [now destruct ks|].
      apply path_of_not_root. now inversion Hseg. }
    rewrite Hnr.
    destruct (node_at_snoc _ _ _ _ _ _ Hnode) as (c0 & fs0 & Hnode0 & Hlink0).
    rewrite length_app in Hfuel. cbn [length] in Hfuel.
    destruct (putPath_linked_frame E cfg root ks fuel k' (VLink newCid) (pin_only opts)
                st c0 fs0 vold)
      as (newRoot & bs & evs & v & Hrun & [extra Hgrow] & _ & Hv & Hwalk & Hframe);
      try assumption; try reflexivity; [lia|].
    specialize (Hwalk (settable_present _ _ _ Hlink0)).
    exists newRoot, bs, evs, v. split; [exact Hrun|].
    split; [now exists extra|]. split; [exact Hv|]. split.
    + intros more. rewrite <- app_assoc. cbn [app]. rewrite Hwalk.
      unfold walk_from. cbn [Store.follow].
      rewrite Hgrow, (nth_error_grow _ extra _ _ Hnew). reflexivity.
    + exact Hframe.
Qed.

(** [putPath] without schemas on a path of linked maps, for a write and
    for a deletion: the new root leads to the edited node, and to
    everything else as the old root did. *)
Lemma putPath_edit_linked E cfg root ks fuel k data opts st c fs vold :
  length ks < fuel ->
  bare E cfg opts ->
  Forall (fun k => segment k = true) (ks ++ [k]) ->
  no_early_match (ks ++ [k]) = true ->
  node_at (blocks st) root ks = Some (c, fs) ->
  nth_error (blocks st) root = Some vold ->
  store_ok st = true ->
  is_nullish data = true \/ encodable data = true ->
  exists newRoot bs evs v,
    run_as (putPath E cfg fuel root (path_of (ks ++ [k])) data opts) st
           (Ok newRoot) bs evs
    /\ (exists extra, bs = (blocks st ++ extra)%list)
    /\ nth_error bs newRoot = Some v
    /\ (forall more,
          Store.walk bs v (ks ++ more) = Store.walk bs (VObj (edit_field k data fs)) more)
    /\ (forall pre j j' rest more w,
          (ks ++ [k])%list = (pre ++ j' :: rest)%list -> j <> j' ->
          Store.walk (blocks st) vold (pre ++ j :: more) = Some w ->
          Store.walk bs v (pre ++ j :: more) = Some w).
Proof.
  intros Hfuel Hbare Hseg Hno Hnode Hold Hok Hdata.
  destruct fuel as [|fuel]; [lia|].
  pose proof (putPath_level_edit E cfg root ks k data opts st c fs
                Hbare Hseg Hno Hnode Hok Hdata) as Hlevel.
  cbn zeta in Hlevel. set (node := VObj (edit_field k data fs)) in *.
  destruct (add_spec node (blocks st)) as [Hget [extra Hgrow]].
  set (newCid := fst (Store.add node (blocks st))) in *.
  set (bs1 := snd (Store.add node (blocks st))) in *.
  set (evs1 := ([DagResolve root (path_of ks); DagGet c ""; DagPut node]
                  ++ pin_events opts node [])%list) in *.
  set (st1 := mkState bs1 (tiles st) (trace st ++ evs1)).
  assert (Hks : Forall (fun k => segment k = true) ks).
  { apply Forall_app in Hseg. tauto. }
  assert (Henc1 : store_ok st1 = true).
  { unfold store_ok. cbn [blocks st1]. apply add_keeps_ok; [exact Hok|].
    apply encodable_edit_field; [exact Hdata|].
    eapply store_ok_nth; [exact Hok|]. eapply node_at_stored, Hnode. }
  destruct (putPath_propagate_frame E cfg root ks fuel newCid node opts st1 c fs vold)
    as (newRoot & bs & evs & v & Hrun & [extra' Hgrow'] & Hv & Hwalk & Hframe).
  { lia. }
  { now apply bare_pin_only. }
  { exact Hks. }
  { now apply no_early_match_init in Hno. }
  { cbn [blocks st1]. rewrite Hgrow. now apply node_at_grow. }
  { cbn [blocks st1]. rewrite Hgrow. now apply nth_error_grow. }
  { exact Henc1. }
  { exact Hget. }
  cbn [blocks st1] in Hgrow'.
  exists newRoot, bs, (evs1 ++ evs)%list, v. split.
  { cbn [putPath]. eapply run_as_bind; [exact Hlevel|]. exact Hrun. }
  split.
  { exists (extra ++ extra')%list. rewrite Hgrow', Hgrow. now rewrite app_assoc. }
  split; [exact Hv|]. split; [exact Hwalk|].
  intros pre j j' rest more w Heq Hne Hw.
  destruct (diverge_snoc ks k pre j' rest Heq) as [(-> & -> & ->)|(rest' & -> & Hpre)].
  - rewrite Hwalk.
    rewrite (walk_node_at _ ks root vold c fs (j :: more) Hold Hnode) in Hw.
    unfold node, edit_field.
    assert (Hj : Prop_.assoc_get j (if is_nullish data then Prop_.assoc_del k fs
                                    else Prop_.assoc_set k data fs)
                 = Prop_.assoc_get j fs).
    { destruct (is_nullish data);
        [now apply assoc_get_del_other | now apply assoc_get_set_other]. }
    rewrite (walk_other_field _ fs _ j more Hj).
    rewrite Hgrow', Hgrow, <- app_assoc. now apply walk_grow.
  - apply (Hframe pre j j' rest' more w Hpre Hne).
    cbn [blocks st1]. rewrite Hgrow. now apply walk_grow.
Qed.

Lemma dag_get_path_inv root q st w :
  fst (dag_get_path root q st) = Ok w ->
  exists v, nth_error (blocks st) root = Some v
            /\ Store.walk (blocks st) v (Store.parts q) = Some w.
Proof.
  unfold dag_get_path, bind, emit. cbn [blocks].
  destruct (nth_error (blocks st) root) as [v|]; [|discriminate].
  destruct (Store.walk (blocks st) v (Store.parts q)) as [x|] eqn:Hw; [|discriminate].
  cbn [fst]. intros [= ->]. now exists v.
Qed.

(** X14: a write or a deletion at one path leaves every other path
    readable as before.  For [putPath] without schemas at a path of linked
    maps, with any data (null and undefined delete), every path that parts
    ways with the written one (after a common beginning [pre] it goes on
    with another segment) and that read [w] from the old root reads [w]
    from the new root. *)
Theorem putPath_keeps_other_paths :
  forall (E : Env) (cfg : ConfigOptions) (fuel : nat) (root : cid)
         (ks : list string) (k : string) (data : value) (opts : PutOptions)
         (st : state) (c : cid) (fs : list (string * value))
         (pre : list string) (j j' : string) (rest more : list string)
         (q : string) (w : value),
    length ks < fuel ->
    bare E cfg opts ->
    Forall (fun k => segment k = true) (ks ++ [k]) ->
    no_early_match (ks ++ [k]) = true ->
    node_at (blocks st) root ks = Some (c, fs) ->
    store_ok st = true ->
    is_nullish data = true \/ encodable data = true ->
    (ks ++ [k])%list = (pre ++ j' :: rest)%list -> j <> j' ->
    Store.parts q = (pre ++ j :: more)%list ->
    fst (dag_get_path root q st) = Ok w ->
    exists newRoot st',
      putPath E cfg fuel root (path_of (ks ++ [k])) data opts st = (Ok newRoot, st')
      /\ fst (dag_get_path newRoot q st') = Ok w.
Proof.
  intros E cfg fuel root ks k data opts st c fs pre j j' rest more q w
         Hfuel Hbare Hseg Hno Hnode Hok Hdata Heq Hne Hq Hread.
  destruct (dag_get_path_inv root q st w Hread) as (vold & Hold & Hw).
  destruct (putPath_edit_linked E cfg root ks fuel k data opts st c fs vold)
    as (newRoot & bs & evs & v & Hrun & _ & Hv & _ & Hframe); try assumption.
  exists newRoot, (mkState bs (tiles st) (trace st ++ evs)). split; [exact Hrun|].
  apply dag_get_path_walk with (v := v); [exact Hv|].
  cbn [blocks]. rewrite Hq in *. now apply (Hframe pre j j' rest more w).
Qed.

Lemma putPath_keeps_other_paths_witness :
  exists newRoot st',
    putPath Ex.env Ex.no_gateway 2 0 (path_of (["a"] ++ ["b"])) (VNum 9) Ex.plain
            Ex_family = (Ok newRoot, st')
    /\ fst (dag_get_path newRoot "/z/y" st') = Ok (VNum 5).
Proof.
  apply (putPath_keeps_other_paths Ex.env Ex.no_gateway 2 0 ["a"] "b" (VNum 9) Ex.plain
           Ex_family 1 [("b", VNum 1)] [] "z" "a" ["b"] ["y"] "/z/y" (VNum 5));
    try reflexivity; try (simpl; lia);
    try (match goal with
         | |- Forall _ _ => repeat constructor
         | |- bare _ _ _ => split; [reflexivity|]; split; [reflexivity | discriminate]
         | |- _ \/ _ => right; reflexivity
         | |- _ <> _ => discriminate
         end).
Defined.

(** X15: [deletePath] removes the field.  Without schemas, at a path of
    linked maps whose last map has no repeated key, it returns a new root
    under which a read of the deleted path fails, whether or not the field
    was there before. *)
Theorem deletePath_removes_field :
  forall (E : Env) (cfg : ConfigOptions) (fuel : nat) (root : cid)
         (ks : list string) (k : string) (opts : PutOptions)
         (st : state) (c : cid) (fs : list (string * value)),
    length ks < fuel ->
    bare E cfg opts ->
    Forall (fun k => segment k = true) (ks ++ [k]) ->
    no_early_match (ks ++ [k]) = true ->
    node_at (blocks st) root ks = Some (c, fs) ->
    store_ok st = true ->
    NoDup (map fst fs) ->
    exists newRoot st',
      deletePath E cfg fuel root (path_of (ks ++ [k])) opts st = (Ok newRoot, st')
      /\ fst (dag_get_path newRoot (path_of (ks ++ [k])) st')
         = Throw (ErrCode "ERR_NO_LINK").
Proof.
  intros E cfg fuel root ks k opts st c fs Hfuel Hbare Hseg Hno Hnode Hok Hnd.
  destruct (node_at_root _ _ _ _ Hnode) as [fs0 Hold].
  destruct (putPath_edit_linked E cfg root ks fuel k VNull opts st c fs (VObj fs0))
    as (newRoot & bs & evs & v & Hrun & _ & Hv & Hwalk & _); try assumption.
  { now left. }
  exists newRoot, (mkState bs (tiles st) (trace st ++ evs)).
  split; [exact Hrun|].
  unfold dag_get_path, bind, emit. cbn [blocks]. rewrite Hv.
  rewrite parts_path_of by exact Hseg. rewrite Hwalk.
  cbn [Store.walk Store.own_property edit_field is_nullish].
  now rewrite assoc_get_del_same.
Qed.

Lemma deletePath_removes_field_witness :
  exists newRoot st',
    deletePath Ex.env Ex.no_gateway 2 0 (path_of (["a"] ++ ["b"])) Ex.plain Ex_family
    = (Ok newRoot, st')
    /\ fst (dag_get_path newRoot (path_of (["a"] ++ ["b"])) st')
       = Throw (ErrCode "ERR_NO_LINK").
Proof.
  apply (deletePath_removes_field Ex.env Ex.no_gateway 2 0 ["a"] "b" Ex.plain
           Ex_family 1 [("b", VNum 1)]);
    try reflexivity; try (simpl; lia);
    try (match goal with
         | |- Forall _ _ => repeat constructor
         | |- bare _ _ _ => split; [reflexivity|]; split; [reflexivity | discriminate]
         | |- NoDup _ => repeat constructor; simpl; tauto
         end).
Defined.

(** ** Schemas, edge paths and the node editor *)

(** X16: the leaf schema acts once, on the data.  [putPath] with a leaf
    schema that accepts [data] does exactly what [putPath] without leaf
    schema does on the representation form of [data]: same result, same
    store, same calls. *)
Theorem putPath_leaf_schema_converts_once :
  forall (E : Env) (cfg : ConfigOptions) (fuel : nat) (root : cid) (path : string)
         (data newData : value) (opts : PutOptions) (sch : string) (st : state),
    configured (leafSchema opts) = Some sch ->
    toRepresentation E sch data = Some newData ->
    putPath E cfg fuel root path data opts st
    = putPath E cfg fuel root path newData
              (mkPut (parentSchema opts) None (pin opts)) st.
Proof.
  intros E cfg fuel root path data newData opts sch st Hleaf Hrep.
  destruct fuel as [|fuel]; [reflexivity|].
  cbn [putPath]. unfold putPath_level. rewrite Hleaf, Hrep.
  cbn [leafSchema configured]. reflexivity.
Qed.

Lemma putPath_leaf_schema_converts_once_witness :
  putPath Ex.env Ex.no_gateway 3 0 "/a/b/c" (VNum 9) (Ex.leaf "T") Ex.three_levels
  = putPath Ex.env Ex.no_gateway 3 0 "/a/b/c" (VNum 9) (mkPut None None false)
            Ex.three_levels.
Proof.
  apply (putPath_leaf_schema_converts_once Ex.env Ex.no_gateway 3 0 "/a/b/c" (VNum 9)
           (VNum 9) (Ex.leaf "T") "T" Ex.three_levels); reflexivity.
Defined.

(** X17: in a path of three segments [putInnerPath] never looks at the
    middle one: the recursion hands [pathSegments.slice(2).join("/")] on,
    which has lost its leading slash, so that [/a/b/c] edits the field [c]
    of [node.a], as [/a/c] does. *)
Theorem putInnerPath_skips_middle_segment :
  forall (fuel : nat) (node : value) (a b c : string) (data : value),
    segment a = true -> segment b = true -> segment c = true ->
    putInnerPath (S fuel) node ("/" ++ a ++ "/" ++ b ++ "/" ++ c) data
    = putInnerPath (S fuel) node ("/" ++ a ++ "/" ++ c) data.
Proof.
  intros fuel node a b c data Ha Hb Hc.
  pose proof (segment_flat _ Ha) as Fa. pose proof (segment_flat _ Hb) as Fb.
  pose proof (segment_flat _ Hc) as Fc.
  assert (Hbc : JsString.split slash (b ++ "/" ++ c) = [b; c]).
  { rewrite (split_app_flat _ _ _ Fb). change ("/" ++ c) with (String slash c).
    cbn [JsString.split]. rewrite Ascii.eqb_refl.
    rewrite (split_no_sep _ _ Fc). now rewrite append_nil_r. }
  assert (H3 : JsString.split slash ("/" ++ a ++ "/" ++ b ++ "/" ++ c) = [""; a; b; c]).
  { change ("/" ++ a ++ "/" ++ b ++ "/" ++ c) with (String slash (a ++ "/" ++ b ++ "/" ++ c)).
    cbn [JsString.split]. rewrite Ascii.eqb_refl.
    rewrite (split_app_flat _ _ _ Fa).
    change ("/" ++ b ++ "/" ++ c) with (String slash (b ++ "/" ++ c)).
    cbn [JsString.split]. rewrite Ascii.eqb_refl, Hbc. now rewrite append_nil_r. }
  assert (Hc1 : JsString.split slash c = [c]) by now apply split_no_sep.
  assert (Hce : (c =? "") = false) by now apply segment_not_empty.
  cbn [putInnerPath]. rewrite H3, (split_two _ _ Ha Hc).
  cbn [length Nat.eqb andb seg nth skipn JsString.join].
  destruct (Prop_.get node a) as [child| |]; try reflexivity.
  assert (Hl : putInnerPath fuel child (b ++ "/" ++ c) data = assign_or_delete child c data).
  { destruct fuel; cbn [putInnerPath]; rewrite Hbc;
      cbn [length Nat.eqb andb seg nth]; now rewrite Hce. }
  assert (Hr : putInnerPath fuel child c data = assign_or_delete child c data).
  { destruct fuel; cbn [putInnerPath]; rewrite Hc1;
      cbn [length Nat.eqb andb seg nth]; reflexivity. }
  now rewrite Hl, Hr.
Qed.

Lemma putInnerPath_skips_middle_segment_witness :
  putInnerPath 1 (VObj [("a", VObj [])]) ("/" ++ "a" ++ "/" ++ "b" ++ "/" ++ "c") (VNum 1)
  = Ok (VObj [("a", VObj [("c", VNum 1)])]).
Proof.
  rewrite (putInnerPath_skips_middle_segment 0 (VObj [("a", VObj [])]) "a" "b" "c"
             (VNum 1) eq_refl eq_refl eq_refl).
  reflexivity.
Defined.

(** X18: at the root path the data is ignored.  For the paths [/] and the
    empty string, [putPath] without schemas edits nothing: it reads the
    root node and stores it again (an array without its falsy entries),
    whatever [data] is, and returns the CID of that node. *)
Theorem putPath_root_path_ignores_data :
  forall (E : Env) (cfg : ConfigOptions) (fuel : nat) (root : cid) (path : string)
         (data : value) (opts : PutOptions) (st : state) (v : value),
    path = "/" \/ path = "" ->
    bare E cfg opts ->
    nth_error (blocks st) root = Some v ->
    store_ok st = true ->
    let node := filter_if_array v in
    run_as (putPath E cfg (S fuel) root path data opts) st
           (Ok (fst (Store.add node (blocks st))))
           (snd (Store.add node (blocks st)))
           ([DagResolve root ""; DagGet root ""; DagPut node]
              ++ pin_events opts node [])%list.
Proof.
  intros E cfg fuel root path data opts st v Hpath (Hleaf & Hparent & Hpin) Hv Hok node.
  assert (Hlast : lastSegment path = "" /\ parentOf path = "").
  { destruct Hpath as [-> | ->]; split; reflexivity. }
  destruct Hlast as [Hlast Hparentof].
  cbn [putPath]. unfold putPath_level. rewrite Hleaf, Hlast, Hparentof.
  eapply run_as_eq.
  { eapply run_as_bind.
    { eapply run_as_bind; [apply run_as_ret|].
      eapply run_as_bind; [eapply dag_resolve_root; exact Hv|].
      cbn [blocks tiles trace String.eqb].
      eapply run_as_bind.
      { apply run_as_dag_get_ok. exact Hv. }
      cbn [blocks tiles trace].
      eapply run_as_bind.
      { unfold replace_leaf.
        change (putInnerPath (String.length ("/" ++ "")) v ("/" ++ "") data) with (Ok v).
        rewrite Hparent.
        eapply (run_as_bind _ _ _ _ _ [] _ _ []).
        - eapply (run_as_bind _ _ _ _ _ [] _ _ []); [apply run_as_lift | apply run_as_ret].
        - apply run_as_ret. }
      cbn [blocks tiles trace].
      eapply run_as_bind.
      { apply run_as_dag_put_ok. apply encodable_filter_if_array.
        eapply store_ok_nth; eassumption. }
      cbn [blocks tiles trace].
      eapply run_as_bind; [apply pin_blocks_ok; exact Hpin|].
      apply run_as_ret. }
    cbn [String.eqb orb]. apply run_as_ret. }
  cbn [app]. now rewrite !app_nil_r.
Qed.

Lemma putPath_root_path_ignores_data_witness :
  run_as (putPath Ex.env Ex.no_gateway 1 0 "/" VUndef Ex.plain) Ex.three_levels
         (Ok 0) (blocks Ex.three_levels)
         [DagResolve 0 ""; DagGet 0 ""; DagPut (VObj [("a", VLink 1)])].
Proof.
  apply (putPath_root_path_ignores_data Ex.env Ex.no_gateway 0 0 "/" VUndef Ex.plain
           Ex.three_levels (VObj [("a", VLink 1)]) (or_introl eq_refl)).
  - split; [reflexivity|]. split; [reflexivity | discriminate].
  - reflexivity.
  - reflexivity.
Defined.

(** X19: a path that holds no slash is rejected before anything is read or
    written.  Its parent path is the path itself, which the template of
    line 190 glues to the text of the root's CID: [dag.resolve] rejects the
    result, and [putPath] throws with that one call made. *)
Theorem putPath_rejects_slashless_path :
  forall (E : Env) (cfg : ConfigOptions) (fuel : nat) (root : cid) (path : string)
         (data : value) (opts : PutOptions) (st : state),
    depth path = 0 -> path <> "" ->
    configured (leafSchema opts) = None ->
    putPath E cfg (S fuel) root path data opts st
    = (Throw (ErrCode "ERR_INVALID_CID"),
       mkState (blocks st) (tiles st) (trace st ++ [DagResolve root path])).
Proof.
  intros E cfg fuel root path data opts st Hflat Hne Hleaf.
  cbn [putPath]. unfold putPath_level. rewrite Hleaf, (parentOf_flat _ Hflat).
  unfold bind at 1 2 3, ret at 1, dag_resolve, bind, emit. cbn [blocks tiles trace].
  assert (H1 : (path =? "") = false) by now apply String.eqb_neq.
  assert (H2 : JsString.prefix "/" path = false).
  { destruct path as [|a r]; [reflexivity|]. cbn [JsString.prefix].
    unfold depth in Hflat. cbn [JsString.count] in Hflat.
    destruct (Ascii.eqb a slash) eqn:Ha; [discriminate|].
    rewrite Ascii.eqb_sym in Ha. change slash with "/"%char in Ha. now rewrite Ha. }
  now rewrite H1, H2.
Qed.

Lemma putPath_rejects_slashless_path_witness :
  putPath Ex.env Ex.no_gateway 1 0 "k" (VNum 1) Ex.plain Ex.empty_root
  = (Throw (ErrCode "ERR_INVALID_CID"), mkState [VObj []] [] [DagResolve 0 "k"]).
Proof.
  apply (putPath_rejects_slashless_path Ex.env Ex.no_gateway 0 0 "k" (VNum 1) Ex.plain
           Ex.empty_root); [reflexivity | discriminate | reflexivity].
Defined.

(** ** Arrays (lines 236-238) *)

Lemma compact_app l m : compact (l ++ m) = (compact l ++ compact m)%list.
Proof. apply filter_app. Qed.

Lemma compact_array_set data : forall i l,
  compact (Prop_.array_set i data l)
  = (compact (firstn i l) ++ compact [data] ++ compact (skipn (S i) l))%list.
Proof.
  induction i as [|i IH]; intros [|x l]; cbn [Prop_.array_set firstn skipn].
  - cbn. now rewrite app_nil_r.
  - unfold compact. cbn [filter app]. now destruct (truthy data).
  - change (compact (VUndef :: Prop_.array_set i data [])) with
      (compact (Prop_.array_set i data [])).
    rewrite IH. now destruct i.
  - unfold compact in *. cbn [filter]. rewrite IH.
    destruct (truthy x); reflexivity.
Qed.

Lemma compact_array_del : forall i l,
  compact (Prop_.array_del i l)
  = (compact (firstn i l) ++ compact (skipn (S i) l))%list.
Proof.
  induction i as [|i IH]; intros [|x l]; cbn [Prop_.array_del firstn skipn];
    try reflexivity.
  unfold compact in *. cbn [filter]. rewrite IH. destruct (truthy x); reflexivity.
Qed.

Lemma compact_nullish data : is_nullish data = true -> compact [data] = [].
Proof. destruct data; try discriminate; reflexivity. Qed.

Lemma forallb_firstn {A} (p : A -> bool) l : forall n,
  forallb p l = true -> forallb p (firstn n l) = true.
Proof.
  induction l as [|x l IH]; intros [|n] H; try reflexivity.
  cbn [firstn forallb] in *. apply andb_true_iff in H as [Hx Hl].
  now rewrite Hx, IH.
Qed.

Lemma forallb_skipn {A} (p : A -> bool) l : forall n,
  forallb p l = true -> forallb p (skipn n l) = true.
Proof.
  induction l as [|x l IH]; intros [|n] H; try reflexivity; [exact H|].
  cbn [skipn forallb] in *. apply andb_true_iff in H as [Hx Hl]. now apply IH.
Qed.

(** X20: what [putPath] makes of an array.  For a root node that is an
    array [l] and a path [/i] with [i] an array index (a canonical numeric
    key below [2^32 - 1]), [putPath] without schemas stores the truthy
    elements before [i], then [data] if it is truthy, then the truthy
    elements after [i]: [null], [undefined], [0], [false] and the empty
    string remove the element, a write past the end appends, and every
    falsy element of [l] is lost on the way. *)
Theorem putPath_array_element :
  forall (E : Env) (cfg : ConfigOptions) (fuel : nat) (root : cid) (idx : string)
         (i : nat) (data : value) (opts : PutOptions) (st : state) (l : list value),
    Prop_.element_index idx = Some i ->
    segment idx = true ->
    bare E cfg opts ->
    nth_error (blocks st) root = Some (VArr l) ->
    store_ok st = true ->
    is_nullish data = true \/ encodable data = true ->
    let node := VArr (compact (firstn i l) ++ compact [data]
                        ++ compact (skipn (S i) l))%list in
    run_as (putPath E cfg (S fuel) root ("/" ++ idx) data opts) st
           (Ok (fst (Store.add node (blocks st))))
           (snd (Store.add node (blocks st)))
           ([DagResolve root ""; DagGet root ""; DagPut node]
              ++ pin_events opts node [])%list.
Proof.
  intros E cfg fuel root idx i data opts st l Hidx Hseg (Hleaf & Hparent & Hpin)
         Hv Hok Hdata node.
  assert (Hsegs : Forall (fun k => segment k = true) ([] ++ [idx])).
  { repeat constructor. exact Hseg. }
  assert (Hno : no_early_match ([] ++ [idx]) = true) by reflexivity.
  pose proof (store_ok_nth _ _ _ Hok Hv) as Hl. cbn [encodable] in Hl.
  assert (Hedit : match assign_or_delete (VArr l) idx data with
                  | Ok v => filter_if_array v = node
                  | _ => False
                  end).
  { unfold assign_or_delete, node. destruct (is_nullish data) eqn:Hn.
    - cbn [Prop_.delete].
      destruct (idx =? "length") eqn:Hlen;
        [apply String.eqb_eq in Hlen; subst idx; discriminate Hidx|].
      rewrite Hidx. cbn [filter_if_array].
      now rewrite compact_array_del, (compact_nullish _ Hn).
    - cbn [Prop_.set]. rewrite Hidx. cbn [filter_if_array].
      now rewrite compact_array_set. }
  assert (Henc : encodable node = true).
  { unfold node. cbn [encodable]. rewrite !forallb_app.
    rewrite (encodable_compact _ (forallb_firstn _ _ i Hl)).
    rewrite (encodable_compact _ (forallb_skipn _ _ (S i) Hl)).
    unfold compact at 1. cbn [filter]. destruct (truthy data) eqn:Ht; [|reflexivity].
    cbn [forallb]. destruct Hdata as [Hn | ->]; [|reflexivity].
    destruct data; discriminate. }
  rewrite <- (path_of_one idx). change [idx] with ([] ++ [idx])%list.
  cbn [putPath]. unfold putPath_level. rewrite Hleaf.
  rewrite (parentOf_path_of _ _ Hsegs Hno), (lastSegment_path_of _ _ Hsegs).
  cbn [path_of].
  destruct (assign_or_delete (VArr l) idx data) as [edited| |] eqn:Hed; try contradiction.
  eapply run_as_eq.
  { eapply run_as_bind.
    { eapply run_as_bind; [apply run_as_ret|].
      eapply run_as_bind; [eapply dag_resolve_root; exact Hv|].
      cbn [blocks tiles trace String.eqb].
      eapply run_as_bind.
      { apply run_as_dag_get_ok. exact Hv. }
      cbn [blocks tiles trace].
      eapply run_as_bind.
      { unfold replace_leaf. rewrite (putInnerPath_one _ _ _ _ Hseg), Hed, Hparent.
        eapply (run_as_bind _ _ _ _ _ [] _ _ []).
        - eapply (run_as_bind _ _ _ _ _ [] _ _ []); [apply run_as_lift | apply run_as_ret].
        - apply run_as_ret. }
      cbn [blocks tiles trace]. rewrite Hedit.
      eapply run_as_bind.
      { apply run_as_dag_put_ok. exact Henc. }
      cbn [blocks tiles trace].
      eapply run_as_bind; [apply pin_blocks_ok; exact Hpin|].
      apply run_as_ret. }
    cbn [String.eqb orb]. apply run_as_ret. }
  cbn [app]. now rewrite !app_nil_r.
Qed.

Lemma putPath_array_element_witness :
  run_as (putPath Ex.env Ex.no_gateway 1 0 ("/" ++ "2") (VNum 0) Ex.plain) Ex_list_root
         (Ok 1)
         [VArr [VNum 7; VNum 0; VStr "b"; VStr "c"]; VArr [VNum 7; VStr "c"]]
         [DagResolve 0 ""; DagGet 0 ""; DagPut (VArr [VNum 7; VStr "c"])].
Proof.
  apply (putPath_array_element Ex.env Ex.no_gateway 0 0 "2" 2 (VNum 0) Ex.plain
           Ex_list_root [VNum 7; VNum 0; VStr "b"; VStr "c"] eq_refl eq_refl).
  - split; [reflexivity|]. split; [reflexivity | discriminate].
  - reflexivity.
  - reflexivity.
  - right. reflexivity.
Defined.

(** ** Content addressing: writes that change nothing *)

Lemma value_eqb_refl : forall v, value_eqb v v = true.
Proof.
  induction v as [| |x|x|x|x|l IH|l IH] using value_ind'; cbn [value_eqb];
    try reflexivity.
  - apply Bool.eqb_reflx.
  - apply Z.eqb_refl.
  - apply String.eqb_refl.
  - apply Nat.eqb_refl.
  - induction IH as [|x l Hx Hl IHl]; [reflexivity|]. now rewrite Hx, IHl.
  - induction IH as [|[k x] l Hx Hl IHl]; [reflexivity|].
    cbn [snd] in Hx. now rewrite String.eqb_refl, Hx, IHl.
Qed.

Lemma find_from_complete v : forall bs i,
  In v bs -> exists j, Store.find_from i v bs = Some j.
Proof.
  induction bs as [|w bs IH]; intros i Hin; [contradiction|].
  cbn [Store.find_from]. destruct (value_eqb w v) eqn:E; [now exists i|].
  destruct Hin as [-> | Hin]; [now rewrite value_eqb_refl in E | now apply IH].
Qed.

(** In a store that holds no node twice, a node that is held keeps its
    CID. *)
Lemma add_present v bs c :
  NoDup bs -> nth_error bs c = Some v -> Store.add v bs = (c, bs).
Proof.
  intros Hnd Hc. unfold Store.add.
  destruct (find_from_complete v bs 0 (nth_error_In _ _ Hc)) as [j Hj].
  rewrite Hj. apply find_from_sound in Hj as [_ Hj]. rewrite Nat.sub_0_r in Hj.
  f_equal. apply (proj1 (NoDup_nth_error bs) Hnd).
  - apply nth_error_Some. now rewrite Hj.
  - now rewrite Hj, Hc.
Qed.

Lemma add_NoDup v bs : NoDup bs -> NoDup (snd (Store.add v bs)).
Proof.
  intros Hnd. unfold Store.add.
  destruct (Store.find_from 0 v bs) as [j|] eqn:Hj; cbn [snd]; [exact Hnd|].
  apply NoDup_app; [exact Hnd | repeat constructor; intros [] |].
  intros x Hx [<- | []].
  destruct (find_from_complete v bs 0 Hx) as [j' Hj']. congruence.
Qed.

Lemma assoc_set_same k v fs :
  Prop_.assoc_get k fs = Some v -> Prop_.assoc_set k v fs = fs.
Proof.
  induction fs as [|[k' x] fs IH]; [discriminate|].
  cbn [Prop_.assoc_get Prop_.assoc_set]. destruct (k' =? k) eqn:Hk.
  - now intros [= ->].
  - intros H. now rewrite IH.
Qed.

Lemma assoc_del_absent k fs :
  Prop_.assoc_get k fs = None -> Prop_.assoc_del k fs = fs.
Proof.
  induction fs as [|[k' x] fs IH]; [reflexivity|].
  cbn [Prop_.assoc_get Prop_.assoc_del]. destruct (k' =? k) eqn:Hk; [discriminate|].
  intros H. now rewrite IH.
Qed.

Lemma assoc_del_set_absent k v fs :
  Prop_.assoc_get k fs = None -> Prop_.assoc_del k (Prop_.assoc_set k v fs) = fs.
Proof.
  induction fs as [|[k' x] fs IH]; cbn [Prop_.assoc_get Prop_.assoc_set].
  - intros _. destruct (Prop_.plain_key k); cbn [Prop_.assoc_del];
      [now rewrite String.eqb_refl | reflexivity].
  - destruct (k' =? k) eqn:Hk; [discriminate|]. intros H.
    cbn [Prop_.assoc_del]. now rewrite Hk, IH.
Qed.

Lemma node_at_prefix bs pre rest : forall c x,
  node_at bs c (pre ++ rest) = Some x -> exists y, node_at bs c pre = Some y.
Proof.
  induction pre as [|k pre IH]; intros c x H.
  - destruct (node_at_root _ _ _ _ H) as [fs Hc]. exists (c, fs).
    cbn [node_at]. now rewrite Hc.
  - cbn [app node_at] in *. destruct (nth_error bs c) as [[| | | | | | |fs]|]; try discriminate.
    destruct (Prop_.assoc_get k fs) as [[| | | | |c1| |]|]; try discriminate.
    now apply (IH c1 x).
Qed.

Lemma node_at_step bs k' c1 f1 : forall ks c c0 f0,
  node_at bs c ks = Some (c0, f0) ->
  Prop_.assoc_get k' f0 = Some (VLink c1) ->
  nth_error bs c1 = Some (VObj f1) ->
  node_at bs c (ks ++ [k']) = Some (c1, f1).
Proof.
  induction ks as [|k ks IH]; intros c c0 f0 Hnode Hk Hc1.
  - cbn [node_at app] in *. destruct (nth_error bs c) as [[| | | | | | |fs]|]; try discriminate.
    injection Hnode as -> ->. rewrite Hk. cbn [node_at]. now rewrite Hc1.
  - cbn [node_at app] in *. destruct (nth_error bs c) as [[| | | | | | |fs]|]; try discriminate.
    destruct (Prop_.assoc_get k fs) as [[| | | | |c2| |]|]; try discriminate.
    now apply (IH c2 c0 f0).
Qed.

Lemma rebuilds_init bs old new ks k' :
  rebuilds bs old new (ks ++ [k']) -> rebuilds bs old new ks.
Proof.
  intros H pre k'' rest Heq. apply (H pre k'' (rest ++ [k'])%list).
  rewrite Heq, <- app_assoc. reflexivity.
Qed.

(** [putPath] from the root [new] arrives at the root [old] when the edit
    turns the last map of the new chain into that of the old one, the two
    chains differing otherwise in their links only: every node it stores is
    already held, under the CID the old chain knows it by. *)
Lemma putPath_onto E cfg old new : forall ks fuel k data opts st c2 fs2 c1 fs1,
  length ks < fuel ->
  bare E cfg opts ->
  Forall (fun k => segment k = true) (ks ++ [k]) ->
  no_early_match (ks ++ [k]) = true ->
  node_at (blocks st) new ks = Some (c2, fs2) ->
  node_at (blocks st) old ks = Some (c1, fs1) ->
  edit_field k data fs2 = fs1 ->
  rebuilds (blocks st) old new ks ->
  store_ok st = true -> NoDup (blocks st) ->
  is_nullish data = true \/ encodable data = true ->
  exists evs,
    run_as (putPath E cfg fuel new (path_of (ks ++ [k])) data opts) st
           (Ok old) (blocks st) evs.
Proof.
  induction ks as [|k' ks IH] using rev_ind;
    intros fuel k data opts st c2 fs2 c1 fs1 Hfuel Hbare Hseg Hno Hnew Hold Hedit Hre
           Hok Hnd Hdata;
    (destruct fuel as [|fuel]; [cbn in Hfuel; lia|]);
    pose proof (putPath_level_edit E cfg new _ k data opts st c2 fs2
                  Hbare Hseg Hno Hnew Hok Hdata) as Hlevel;
    cbn zeta in Hlevel; rewrite Hedit in Hlevel;
    rewrite (add_present (VObj fs1) (blocks st) c1 Hnd (node_at_stored _ _ _ _ _ Hold))
      in Hlevel; cbn [fst snd] in Hlevel.
  - assert (c1 = old) as ->.
    { cbn [node_at] in Hold. destruct (nth_error (blocks st) old) as [[| | | | | | |f]|];
        try discriminate. now injection Hold as -> _. }
    eexists. cbn [putPath]. eapply run_as_bind; [exact Hlevel|].
    exact (run_as_ret old (mkState (blocks st) (tiles st) _)).
  - rewrite length_app in Hfuel. cbn [length] in Hfuel.
    assert (Hseg' : Forall (fun k => segment k = true) (ks ++ [k'])).
    { apply Forall_app in Hseg. tauto. }
    destruct (Hre ks k' [] eq_refl) as (ca & fa & cb & fb & cn & fn & Ha & Hb & Hn & Hset).
    rewrite Hold in Hn. injection Hn as <- <-.
    set (evs1 := ([DagResolve new (path_of (ks ++ [k'])); DagGet c2 ""; DagPut (VObj fs1)]
                    ++ pin_events opts (VObj fs1) [])%list) in *.
    destruct (IH fuel k' (VLink c1) (pin_only opts)
                (mkState (blocks st) (tiles st) (trace st ++ evs1)) ca fa cb fb)
      as [evs Hrun]; try assumption.
    { lia. }
    { now apply bare_pin_only. }
    { now apply no_early_match_init in Hno. }
    { now apply rebuilds_init in Hre. }
    { now right. }
    exists (evs1 ++ evs)%list.
    cbn [putPath]. eapply run_as_bind; [exact Hlevel|].
    cbn beta iota.
    assert (Hnr : (path_of (ks ++ [k']) =? "/") || (path_of (ks ++ [k']) =? "") = false).
    { destruct (ks ++ [k'])%list as [|k1 rest] eqn:Eq; [now destruct ks|].
      apply path_of_not_root. now inversion Hseg'. }
    rewrite Hnr. exact Hrun.
Qed.

Lemma rebuilds_self bs root ks x :
  node_at bs root ks = Some x -> rebuilds bs root root ks.
Proof.
  intros Hnode pre k' rest ->.
  replace (pre ++ k' :: rest)%list with ((pre ++ [k']) ++ rest)%list in Hnode
    by (rewrite <- app_assoc; reflexivity).
  destruct (node_at_prefix _ _ _ _ _ Hnode) as [[cn fn] Hn].
  destruct (node_at_snoc _ _ _ _ _ _ Hn) as (c0 & f0 & H0 & Hlink).
  exists c0, f0, c0, f0, cn, fn. repeat split; try assumption.
  now apply assoc_set_same.
Qed.

(** A [putPath] whose edit leaves the last map as it is returns the root
    it started from and stores nothing. *)
Lemma putPath_noop E cfg root ks fuel k data opts st c fs :
  length ks < fuel ->
  bare E cfg opts ->
  Forall (fun k => segment k = true) (ks ++ [k]) ->
  no_early_match (ks ++ [k]) = true ->
  node_at (blocks st) root ks = Some (c, fs) ->
  edit_field k data fs = fs ->
  store_ok st = true -> NoDup (blocks st) ->
  is_nullish data = true \/ encodable data = true ->
  exists evs,
    run_as (putPath E cfg fuel root (path_of (ks ++ [k])) data opts) st
           (Ok root) (blocks st) evs.
Proof.
  intros Hfuel Hbare Hseg Hno Hnode Hedit Hok Hnd Hdata.
  apply (putPath_onto E cfg root root ks fuel k data opts st c fs c fs);
    try assumption.
  now apply rebuilds_self with (x := (c, fs)).
Qed.

(** X21: writing the value that is already there changes nothing.  In a
    store that holds no node twice, [putPath] without schemas of the value
    a path of linked maps already leads to returns the root it was given
    and leaves the store as it was: every node it computes is one the store
    holds, and keeps its CID. *)
Theorem putPath_same_value_same_root :
  forall (E : Env) (cfg : ConfigOptions) (fuel : nat) (root : cid)
         (ks : list string) (k : string) (data : value) (opts : PutOptions)
         (st : state) (c : cid) (fs : list (string * value)),
    length ks < fuel ->
    bare E cfg opts ->
    Forall (fun k => segment k = true) (ks ++ [k]) ->
    no_early_match (ks ++ [k]) = true ->
    node_at (blocks st) root ks = Some (c, fs) ->
    store_ok st = true -> NoDup (blocks st) ->
    Prop_.assoc_get k fs = Some data -> is_nullish data = false ->
    exists evs,
      putPath E cfg fuel root (path_of (ks ++ [k])) data opts st
      = (Ok root, mkState (blocks st) (tiles st) (trace st ++ evs)).
Proof.
  intros E cfg fuel root ks k data opts st c fs Hfuel Hbare Hseg Hno Hnode Hok Hnd
         Hget Hnn.
  apply (putPath_noop E cfg root ks fuel k data opts st c fs); try assumption.
  - unfold edit_field. rewrite Hnn. now apply assoc_set_same.
  - right. apply (encodable_assoc_get k fs); [|exact Hget].
    eapply store_ok_nth; [exact Hok|]. eapply node_at_stored, Hnode.
Qed.

Lemma putPath_same_value_same_root_witness :
  exists evs,
    putPath Ex.env Ex.no_gateway 3 0 (path_of (["a"; "b"] ++ ["c"])) (VNum 1) Ex.plain
            Ex.three_levels
    = (Ok 0, mkState (blocks Ex.three_levels) (tiles Ex.three_levels)
                     (trace Ex.three_levels ++ evs)).
Proof.
  apply (putPath_same_value_same_root Ex.env Ex.no_gateway 3 0 ["a"; "b"] "c" (VNum 1)
           Ex.plain Ex.three_levels 2 [("c", VNum 1)]);
    try reflexivity; try (simpl; lia);
    try (match goal with
         | |- Forall _ _ => repeat constructor
         | |- bare _ _ _ => split; [reflexivity|]; split; [reflexivity | discriminate]
         | |- NoDup _ => repeat constructor; simpl; intuition discriminate
         end).
Defined.

(** X22: deleting what is not there changes nothing.  In a store that
    holds no node twice, [deletePath] without schemas of a field the last
    map does not have returns the root it was given and leaves the store
    as it was. *)
Theorem deletePath_absent_field_same_root :
  forall (E : Env) (cfg : ConfigOptions) (fuel : nat) (root : cid)
         (ks : list string) (k : string) (opts : PutOptions)
         (st : state) (c : cid) (fs : list (string * value)),
    length ks < fuel ->
    bare E cfg opts ->
    Forall (fun k => segment k = true) (ks ++ [k]) ->
    no_early_match (ks ++ [k]) = true ->
    node_at (blocks st) root ks = Some (c, fs) ->
    store_ok st = true -> NoDup (blocks st) ->
    Prop_.assoc_get k fs = None ->
    exists evs,
      deletePath E cfg fuel root (path_of (ks ++ [k])) opts st
      = (Ok root, mkState (blocks st) (tiles st) (trace st ++ evs)).
Proof.
  intros E cfg fuel root ks k opts st c fs Hfuel Hbare Hseg Hno Hnode Hok Hnd Hget.
  apply (putPath_noop E cfg root ks fuel k VNull opts st c fs); try assumption.
  - unfold edit_field. cbn [is_nullish]. now apply assoc_del_absent.
  - now left.
Qed.

Lemma deletePath_absent_field_same_root_witness :
  exists evs,
    deletePath Ex.env Ex.no_gateway 3 0 (path_of (["a"; "b"] ++ ["zz"])) Ex.plain
               Ex.three_levels
    = (Ok 0, mkState (blocks Ex.three_levels) (tiles Ex.three_levels)
                     (trace Ex.three_levels ++ evs)).
Proof.
  apply (deletePath_absent_field_same_root Ex.env Ex.no_gateway 3 0 ["a"; "b"] "zz"
           Ex.plain Ex.three_levels 2 [("c", VNum 1)]);
    try reflexivity; try (simpl; lia);
    try (match goal with
         | |- Forall _ _ => repeat constructor
         | |- bare _ _ _ => split; [reflexivity|]; split; [reflexivity | discriminate]
         | |- NoDup _ => repeat constructor; simpl; intuition discriminate
         end).
Defined.

(** The chain [putPath] builds: the new root leads along the path to the
    edited map, through maps that differ from the old ones in the links of
    the path only; the store stays free of repetitions. *)
Lemma putPath_shape E cfg root : forall ks fuel k data opts st c fs,
  length ks < fuel ->
  bare E cfg opts ->
  Forall (fun k => segment k = true) (ks ++ [k]) ->
  no_early_match (ks ++ [k]) = true ->
  node_at (blocks st) root ks = Some (c, fs) ->
  store_ok st = true ->
  is_nullish data = true \/ encodable data = true ->
  exists newRoot bs evs newCid,
    run_as (putPath E cfg fuel root (path_of (ks ++ [k])) data opts) st
           (Ok newRoot) bs evs
    /\ (exists extra, bs = (blocks st ++ extra)%list)
    /\ forallb encodable bs = true /\ (NoDup (blocks st) -> NoDup bs)
    /\ node_at bs newRoot ks = Some (newCid, edit_field k data fs)
    /\ rebuilds bs root newRoot ks
    /\ puts evs = S (length ks)
    /\ (pin opts = true -> filter is_upload evs = map archive_of (filter is_put evs)).
Proof.
  induction ks as [|k' ks IH] using rev_ind;
    intros fuel k data opts st c fs Hfuel Hbare Hseg Hno Hnode Hok Hdata;
    (destruct fuel as [|fuel]; [cbn in Hfuel; lia|]);
    pose proof (putPath_level_edit E cfg root _ k data opts st c fs
                  Hbare Hseg Hno Hnode Hok Hdata) as Hlevel;
    cbn zeta in Hlevel; set (node := VObj (edit_field k data fs)) in *;
    destruct (add_spec node (blocks st)) as [Hget [extra Hgrow]];
    pose proof (add_NoDup node (blocks st)) as Hnd1;
    assert (Henc1 : forallb encodable (snd (Store.add node (blocks st))) = true)
      by (apply add_keeps_ok; [exact Hok|];
          apply encodable_edit_field; [exact Hdata|];
          eapply store_ok_nth; [exact Hok|]; eapply node_at_stored, Hnode);
    set (newCid := fst (Store.add node (blocks st))) in *;
    set (bs1 := snd (Store.add node (blocks st))) in *.
  - exists newCid, bs1,
           (([DagResolve root (path_of []); DagGet c ""; DagPut node]
               ++ pin_events opts node []) ++ [])%list, newCid.
    split.
    { cbn [putPath]. eapply run_as_bind; [exact Hlevel|]. apply run_as_ret. }
    split; [now exists extra|]. split; [exact Henc1|]. split; [exact Hnd1|]. split.
    + cbn [node_at]. now rewrite Hget.
    + split; [intros pre k' rest Heq; now destruct pre|].
      rewrite app_nil_r. split.
      * apply (count_level root (path_of []) c "" node opts node []).
      * intros Hpin. unfold pin_events. now rewrite Hpin.
  - rewrite length_app in Hfuel. cbn [length] in Hfuel.
    assert (Hseg' : Forall (fun k => segment k = true) (ks ++ [k'])).
    { apply Forall_app in Hseg. tauto. }
    destruct (node_at_snoc _ _ _ _ _ _ Hnode) as (c0 & fs0 & Hnode0 & Hlink).
    set (evs1 := ([DagResolve root (path_of (ks ++ [k'])); DagGet c ""; DagPut node]
                    ++ pin_events opts node [])%list) in *.
    set (st1 := mkState bs1 (tiles st) (trace st ++ evs1)).
    destruct (IH fuel k' (VLink newCid) (pin_only opts) st1 c0 fs0)
      as (newRoot & bs & evs & newc0 & Hrun & [extra' Hgrow'] & Hokbs & Hndbs & Hnew0 & Hre
          & Hputs & Hups).
    { lia. }
    { now apply bare_pin_only. }
    { exact Hseg'. }
    { now apply no_early_match_init in Hno. }
    { cbn [blocks st1]. rewrite Hgrow. now apply node_at_grow. }
    { exact Henc1. }
    { now right. }
    cbn [blocks st1] in Hgrow'.
    assert (Hall : bs = (blocks st ++ (extra ++ extra'))%list).
    { rewrite Hgrow', Hgrow. now rewrite app_assoc. }
    exists newRoot, bs, (evs1 ++ evs)%list, newCid.
    split.
    { cbn [putPath]. eapply run_as_bind; [exact Hlevel|].
      cbn beta iota.
      assert (Hnr : (path_of (ks ++ [k']) =? "/") || (path_of (ks ++ [k']) =? "") = false).
      { destruct (ks ++ [k'])%list as [|k1 rest] eqn:Eq; [now destruct ks|].
        apply path_of_not_root. now inversion Hseg'. }
      rewrite Hnr. exact Hrun. }
    split; [now exists (extra ++ extra')%list|].
    split; [exact Hokbs|]. split; [intros Hnd; apply Hndbs, Hnd1, Hnd|]. split; [|split].
    + apply (node_at_step bs k' newCid (edit_field k data fs) ks newRoot newc0
               (edit_field k' (VLink newCid) fs0) Hnew0).
      * unfold edit_field. cbn [is_nullish]. apply assoc_get_set.
        exact (settable_present _ _ _ Hlink).
      * rewrite Hgrow'. apply nth_error_grow. exact Hget.
    + intros pre k'' rest Heq.
      destruct (diverge_snoc ks k' pre k'' rest Heq)
        as [(-> & -> & ->)|(rest' & -> & Hpre)].
      * exists newc0, (edit_field k' (VLink newCid) fs0), c0, fs0, c, fs.
        split; [exact Hnew0|]. split.
        { rewrite Hall. now apply node_at_grow. }
        split.
        { rewrite Hall. now apply node_at_grow. }
        unfold edit_field. cbn [is_nullish]. rewrite assoc_set_twice.
        now apply assoc_set_same.
      * apply (Hre pre k'' rest' Hpre).
    + split.
      * pose proof (proj2 (count_level root (path_of (ks ++ [k'])) c "" node opts node []))
          as Hp1.
        change (puts evs1 = 1) in Hp1.
        rewrite puts_app, Hputs, Hp1, length_app. cbn [length]. lia.
      * intros Hpin. rewrite !filter_app, map_app, (Hups Hpin).
        f_equal. unfold evs1, pin_events. now rewrite Hpin.
Qed.

(** X23: a new field written and deleted again gives back the root.  In a
    store that holds no node twice, after [putPath] without schemas wrote a
    field the last map of a path of linked maps did not have,
    [deletePath] at the same path from the new root returns the root the
    write started from, and stores nothing. *)
Theorem deletePath_undoes_putPath :
  forall (E : Env) (cfg : ConfigOptions) (fuel : nat) (root : cid)
         (ks : list string) (k : string) (data : value) (opts : PutOptions)
         (st : state) (c : cid) (fs : list (string * value)),
    length ks < fuel ->
    bare E cfg opts ->
    Forall (fun k => segment k = true) (ks ++ [k]) ->
    no_early_match (ks ++ [k]) = true ->
    node_at (blocks st) root ks = Some (c, fs) ->
    store_ok st = true -> NoDup (blocks st) ->
    Prop_.assoc_get k fs = None ->
    encodable data = true -> is_nullish data = false ->
    exists newRoot st1 evs,
      putPath E cfg fuel root (path_of (ks ++ [k])) data opts st = (Ok newRoot, st1)
      /\ deletePath E cfg fuel newRoot (path_of (ks ++ [k])) opts st1
         = (Ok root, mkState (blocks st1) (tiles st1) (trace st1 ++ evs)).
Proof.
  intros E cfg fuel root ks k data opts st c fs Hfuel Hbare Hseg Hno Hnode Hok Hnd
         Habsent Henc Hnn.
  destruct (putPath_shape E cfg root ks fuel k data opts st c fs)
    as (newRoot & bs & evs & newCid & Hrun & [extra Hgrow] & Hokbs & Hndbs & Hnew & Hre & _);
    try assumption; [now right|].
  specialize (Hndbs Hnd).
  set (st1 := mkState bs (tiles st) (trace st ++ evs)).
  destruct (putPath_onto E cfg root newRoot ks fuel k VNull opts st1
              newCid (edit_field k data fs) c fs) as [evs2 Hback]; try assumption.
  - cbn [blocks st1]. rewrite Hgrow. now apply node_at_grow.
  - unfold edit_field. rewrite Hnn. cbn [is_nullish]. now apply assoc_del_set_absent.
  - now left.
  - exists newRoot, st1, evs2. split; [exact Hrun | exact Hback].
Qed.

Lemma deletePath_undoes_putPath_witness :
  exists newRoot st1 evs,
    putPath Ex.env Ex.no_gateway 3 0 (path_of (["a"; "b"] ++ ["d"])) (VNum 4) Ex.plain
            Ex.three_levels = (Ok newRoot, st1)
    /\ deletePath Ex.env Ex.no_gateway 3 newRoot (path_of (["a"; "b"] ++ ["d"])) Ex.plain
                  st1
       = (Ok 0, mkState (blocks st1) (tiles st1) (trace st1 ++ evs)).
Proof.
  apply (deletePath_undoes_putPath Ex.env Ex.no_gateway 3 0 ["a"; "b"] "d" (VNum 4)
           Ex.plain Ex.three_levels 2 [("c", VNum 1)]);
    try reflexivity; try (simpl; lia);
    try (match goal with
         | |- Forall _ _ => repeat constructor
         | |- bare _ _ _ => split; [reflexivity|]; split; [reflexivity | discriminate]
         | |- NoDup _ => repeat constructor; simpl; intuition discriminate
         end).
Defined.

(** ** What reaches the ancestors: pinning does, the schemas do not *)

(** X24: pinning reaches every level.  With [pin] set (configured, uploads
    succeeding), [putPath] without schemas on a path of [n + 1] linked
    segments stores [n + 1] nodes and uploads each of them, in the order
    they were stored, as an archive of that node alone. *)
Theorem putPath_pins_every_level :
  forall (E : Env) (cfg : ConfigOptions) (fuel : nat) (root : cid)
         (ks : list string) (k : string) (data : value) (opts : PutOptions)
         (st : state) (c : cid) (fs : list (string * value)),
    pin opts = true ->
    length ks < fuel ->
    bare E cfg opts ->
    Forall (fun k => segment k = true) (ks ++ [k]) ->
    no_early_match (ks ++ [k]) = true ->
    node_at (blocks st) root ks = Some (c, fs) ->
    store_ok st = true ->
    is_nullish data = true \/ encodable data = true ->
    exists newRoot bs evs,
      putPath E cfg fuel root (path_of (ks ++ [k])) data opts st
      = (Ok newRoot, mkState bs (tiles st) (trace st ++ evs))
      /\ puts evs = S (length ks)
      /\ filter is_upload evs = map archive_of (filter is_put evs).
Proof.
  intros E cfg fuel root ks k data opts st c fs Hpin Hfuel Hbare Hseg Hno Hnode Hok Hdata.
  destruct (putPath_shape E cfg root ks fuel k data opts st c fs)
    as (newRoot & bs & evs & newCid & Hrun & _ & _ & _ & _ & _ & Hputs & Hups);
    try assumption.
  exists newRoot, bs, evs. split; [exact Hrun|]. split; [exact Hputs | exact (Hups Hpin)].
Qed.

Lemma putPath_pins_every_level_witness :
  exists newRoot bs evs,
    putPath Ex.env Ex_with_upload 2 0 (path_of (["a"] ++ ["b"])) (VNum 9) Ex_pinned
            Ex_family
    = (Ok newRoot, mkState bs (tiles Ex_family) (trace Ex_family ++ evs))
    /\ puts evs = S (length ["a"])
    /\ filter is_upload evs = map archive_of (filter is_put evs).
Proof.
  apply (putPath_pins_every_level Ex.env Ex_with_upload 2 0 ["a"] "b" (VNum 9) Ex_pinned
           Ex_family 1 [("b", VNum 1)]);
    try reflexivity; try (simpl; lia);
    try (match goal with
         | |- Forall _ _ => repeat constructor
         | |- bare _ _ _ =>
             split; [reflexivity|]; split; [reflexivity|];
             intros _; split; [discriminate | reflexivity]
         | |- _ \/ _ => right; reflexivity
         end).
Defined.

(** One call of [putPath] under a parent schema that accepts the edited
    node: the call runs as without the schema. *)
Lemma putPath_level_accept E cfg root ks k data opts sch st c fs :
  configured (leafSchema opts) = None ->
  configured (parentSchema opts) = Some sch ->
  pin_ok E cfg opts ->
  Forall (fun k => segment k = true) (ks ++ [k]) ->
  no_early_match (ks ++ [k]) = true ->
  node_at (blocks st) root ks = Some (c, fs) ->
  store_ok st = true ->
  is_nullish data = true \/ encodable data = true ->
  toRepresentation E sch (VObj (edit_field k data fs)) <> None ->
  let node := VObj (edit_field k data fs) in
  run_as (putPath_level E cfg root (path_of (ks ++ [k])) data opts) st
         (Ok (fst (Store.add node (blocks st)), path_of ks))
         (snd (Store.add node (blocks st)))
         ([DagResolve root (path_of ks); DagGet c ""; DagPut node]
            ++ pin_events opts node [])%list.
Proof.
  intros Hleaf Hparent Hpin Hseg Hno Hnode Hok Hdata Hacc node.
  assert (Hks : Forall (fun k => segment k = true) ks).
  { apply Forall_app in Hseg. tauto. }
  assert (Hk : segment k = true).
  { apply Forall_app in Hseg as [_ H]. now inversion H. }
  pose proof (node_at_stored _ _ _ _ _ Hnode) as Hc.
  unfold putPath_level. rewrite Hleaf.
  rewrite (parentOf_path_of _ _ Hseg Hno), (lastSegment_path_of _ _ Hseg).
  eapply run_as_eq.
  { eapply run_as_bind; [apply run_as_ret|].
    eapply run_as_bind; [eapply dag_resolve_linked with (fs := fs); [exact Hks | exact Hnode]|].
    cbn [blocks tiles trace String.eqb].
    eapply run_as_bind.
    { apply run_as_dag_get_ok. exact Hc. }
    cbn [blocks tiles trace].
    eapply run_as_bind.
    { unfold replace_leaf. rewrite (putInnerPath_edit _ _ _ _ Hk), Hparent.
      eapply (run_as_bind _ _ _ _ _ [] _ _ []).
      - eapply (run_as_bind _ _ _ _ _ [] _ _ []); [apply run_as_lift|].
        cbn beta zeta. cbn [filter_if_array truthy andb].
        destruct (toRepresentation E sch (VObj (edit_field k data fs))) as [r|];
          [|contradiction].
        cbn [is_undefined]. apply run_as_ret.
      - apply run_as_ret. }
    cbn [blocks tiles trace filter_if_array].
    eapply run_as_bind.
    { apply run_as_dag_put_ok.
      apply encodable_edit_field; [exact Hdata|]. eapply store_ok_nth; eassumption. }
    cbn [blocks tiles trace].
    eapply run_as_bind; [apply pin_blocks_ok; exact Hpin|].
    apply run_as_ret. }
  cbn [app]. now rewrite app_nil_r.
Qed.

(** X25: the parent schema is consulted once, for the map that holds the
    last segment.  When it accepts that map as edited, [putPath] on a path
    of linked maps does exactly what it does without parent schema: the
    ancestors are rewritten unchecked, whatever the schema would say of
    them. *)
Theorem putPath_parent_schema_checks_last_map_only :
  forall (E : Env) (cfg : ConfigOptions) (fuel : nat) (root : cid)
         (ks : list string) (k : string) (data : value) (opts : PutOptions)
         (sch : string) (st : state) (c : cid) (fs : list (string * value)),
    configured (leafSchema opts) = None ->
    configured (parentSchema opts) = Some sch ->
    pin_ok E cfg opts ->
    Forall (fun k => segment k = true) (ks ++ [k]) ->
    no_early_match (ks ++ [k]) = true ->
    node_at (blocks st) root ks = Some (c, fs) ->
    store_ok st = true ->
    is_nullish data = true \/ encodable data = true ->
    toRepresentation E sch (VObj (edit_field k data fs)) <> None ->
    putPath E cfg fuel root (path_of (ks ++ [k])) data opts st
    = putPath E cfg fuel root (path_of (ks ++ [k])) data (pin_only opts) st.
Proof.
  intros E cfg fuel root ks k data opts sch st c fs Hleaf Hparent Hpin Hseg Hno Hnode
         Hok Hdata Hacc.
  destruct fuel as [|fuel]; [reflexivity|].
  pose proof (putPath_level_accept E cfg root ks k data opts sch st c fs
                Hleaf Hparent Hpin Hseg Hno Hnode Hok Hdata Hacc) as H1.
  assert (Hbare : bare E cfg (pin_only opts)).
  { split; [reflexivity|]. split; [reflexivity | exact Hpin]. }
  pose proof (putPath_level_edit E cfg root ks k data (pin_only opts) st c fs
                Hbare Hseg Hno Hnode Hok Hdata) as H2.
  cbn zeta in H1, H2. unfold run_as in H1, H2.
  cbn [putPath]. unfold bind. rewrite H1, H2. reflexivity.
Qed.

Lemma putPath_parent_schema_checks_last_map_only_witness :
  putPath Ex.env_maps Ex.no_gateway 3 0 (path_of (["a"; "b"] ++ ["c"])) (VNum 9)
          (Ex.under "T") Ex.three_levels
  = putPath Ex.env_maps Ex.no_gateway 3 0 (path_of (["a"; "b"] ++ ["c"])) (VNum 9)
            (pin_only (Ex.under "T")) Ex.three_levels.
Proof.
  apply (putPath_parent_schema_checks_last_map_only Ex.env_maps Ex.no_gateway 3 0
           ["a"; "b"] "c" (VNum 9) (Ex.under "T") "T" Ex.three_levels 2 [("c", VNum 1)]);
    try reflexivity;
    try (match goal with
         | |- Forall _ _ => repeat constructor
         | |- pin_ok _ _ _ => intros H; discriminate H
         | |- _ \/ _ => right; reflexivity
         | |- _ <> _ => discriminate
         end).
Defined.

(** ** Successive writes, and a parcel that was never written *)

(** X26: the last write wins.  After two [putPath] without schemas at the
    same path of linked maps, no segment of which is [__proto__], the
    second from the root the first returned, [get] at that path under the
    second root yields the second value (a non-null value that is no
    link), whatever the first write did there. *)
Theorem putPath_last_write_wins :
  forall (E : Env) (cfg : ConfigOptions) (fuel : nat) (root : cid)
         (ks : list string) (k : string) (X Y : value) (opts : PutOptions)
         (st : state) (c : cid) (fs : list (string * value)),
    length ks < fuel ->
    bare E cfg opts ->
    Forall (fun k => segment k = true) (ks ++ [k]) ->
    no_early_match (ks ++ [k]) = true ->
    plain_path (ks ++ [k]) = true ->
    node_at (blocks st) root ks = Some (c, fs) ->
    store_ok st = true ->
    is_nullish X = true \/ encodable X = true ->
    encodable Y = true -> is_nullish Y = false -> is_link Y = false ->
    exists r1 st1 r2 st2,
      putPath E cfg fuel root (path_of (ks ++ [k])) X opts st = (Ok r1, st1)
      /\ putPath E cfg fuel r1 (path_of (ks ++ [k])) Y opts st1 = (Ok r2, st2)
      /\ fst (get E cfg r2 (path_of (ks ++ [k])) None st2) = Ok Y.
Proof.
  intros E cfg fuel root ks k X Y opts st c fs Hfuel Hbare Hseg Hno Hplain Hnode Hok HX
         HencY HnnY HlinkY.
  apply plain_path_last in Hplain.
  destruct (putPath_shape E cfg root ks fuel k X opts st c fs)
    as (r1 & bs1 & evs1 & c1 & Hrun1 & _ & Hok1 & _ & Hnode1 & _); try assumption.
  set (st1 := mkState bs1 (tiles st) (trace st ++ evs1)).
  destruct (putPath_linked E cfg r1 ks fuel k Y opts st1 c1 (edit_field k X fs))
    as (r2 & bs2 & evs2 & v & Hrun2 & _ & _ & Hv & Hwalk & _); try assumption.
  specialize (Hwalk (settable_plain _ _ Hplain)).
  exists r1, st1, r2, (mkState bs2 (tiles st1) (trace st1 ++ evs2)).
  split; [exact Hrun1|]. split; [exact Hrun2|].
  apply (get_local_ok E cfg _ _ None).
  apply dag_get_path_walk with (v := v); [exact Hv|].
  cbn [blocks]. rewrite parts_path_of by exact Hseg.
  specialize (Hwalk []). unfold walk_from in Hwalk. rewrite Hwalk.
  destruct Y; try discriminate; reflexivity.
Qed.

Lemma putPath_last_write_wins_witness :
  exists r1 st1 r2 st2,
    putPath Ex.env Ex.no_gateway 3 0 (path_of (["a"; "b"] ++ ["c"])) (VNum 8) Ex.plain
            Ex.three_levels = (Ok r1, st1)
    /\ putPath Ex.env Ex.no_gateway 3 r1 (path_of (["a"; "b"] ++ ["c"])) (VNum 9) Ex.plain
               st1 = (Ok r2, st2)
    /\ fst (get Ex.env Ex.no_gateway r2 (path_of (["a"; "b"] ++ ["c"])) None st2)
       = Ok (VNum 9).
Proof.
  apply (putPath_last_write_wins Ex.env Ex.no_gateway 3 0 ["a"; "b"] "c" (VNum 8)
           (VNum 9) Ex.plain Ex.three_levels 2 [("c", VNum 1)]);
    try reflexivity; try (simpl; lia);
    try (match goal with
         | |- Forall _ _ => repeat constructor
         | |- bare _ _ _ => split; [reflexivity|]; split; [reflexivity | discriminate]
         | |- _ \/ _ => right; reflexivity
         end).
Defined.

(** X27: reading a parcel that was never written does not fail.  When the
    pointer service holds no root for the owner, in either spelling, and
    the gateway is of no help, [getPath] at a path with at least one
    segment returns [undefined] (through the schema conversion when a
    schema is given); it has stored the empty node on the way, and the
    pointer service is as it was. *)
Theorem getPath_unwritten_parcel :
  forall (E : Env) (cfg : ConfigOptions) (path : string) (opts : ParcelOptions)
         (schema : option string) (st : state),
    truthy (stored_root (tiles st) (ownerDID opts) (parcelId opts)) = false ->
    truthy (stored_root (tiles st) (JsString.toLowerCase (ownerDID opts))
                        (parcelId opts)) = false ->
    Store.parts path <> [] ->
    gateway_fails E cfg (fst (Store.add (VObj []) (blocks st))) path ->
    let st' := snd (getPath E cfg path opts schema st) in
    fst (getPath E cfg path opts schema st) = Ok (schema_view E schema VUndef)
    /\ blocks st' = snd (Store.add (VObj []) (blocks st))
    /\ tiles st' = tiles st.
Proof.
  intros E cfg path opts schema st H1 H2 Hparts Hgw st'. subst st'.
  unfold getPath, bind at 1 2 3. rewrite (resolveRoot_third opts st H1 H2).
  set (c := fst (Store.add (VObj []) (blocks st))) in *.
  set (bs := snd (Store.add (VObj []) (blocks st))).
  assert (Hc : nth_error bs c = Some (VObj [])) by apply add_spec.
  unfold get, bind, try_catch, dag_get_path, bind, emit, schema_view.
  cbn [blocks tiles trace]. rewrite Hc.
  destruct (Store.parts path) as [|p ps]; [contradiction|].
  cbn [Store.walk Store.own_property Prop_.assoc_get fst snd].
  unfold gateway_fails in Hgw.
  destruct (configured (ipfsGatewayHost cfg)) as [host|].
  - cbv zeta. unfold emit, bind, throw, ret. cbn [blocks tiles trace fst snd].
    destruct (axios_get E (gateway_url host c path)) as [bytes|].
    + rewrite Hgw. cbn [blocks tiles trace fst snd].
      destruct (configured schema); cbn [fst snd blocks tiles]; auto.
    + cbn [blocks tiles trace fst snd].
      destruct (configured schema); cbn [fst snd blocks tiles]; auto.
  - unfold emit, bind, ret. cbn [blocks tiles trace fst snd].
    destruct (configured schema); cbn [fst snd blocks tiles]; auto.
Qed.

Lemma getPath_unwritten_parcel_witness :
  fst (getPath Ex.env Ex.with_gateway "/a" Ex.parcel None Ex.two_nodes) = Ok VUndef
  /\ tiles (snd (getPath Ex.env Ex.with_gateway "/a" Ex.parcel None Ex.two_nodes)) = [].
Proof.
  destruct (getPath_unwritten_parcel Ex.env Ex.with_gateway "/a" Ex.parcel None
              Ex.two_nodes eq_refl eq_refl) as (H & _ & Ht).
  - discriminate.
  - exact I.
  - split; [exact H | exact Ht].
Defined.
